(** * ProbTrend: the eager and the lazy Polars indicator

    A shallow embedding of [indicators/probability_trend.py] (the eager,
    whole-array form) and [indicators/probability_trend_lazy.py] (the
    deferred-expression form), with the Polars column operations both files
    call, and the properties of the written specification stated on them.

    Conventions of the embedding.
    - A Float64 value is an exact rational or one of the IEEE specials
      ([PInf], [NInf], [NaN]); binary rounding error is not modelled.  Finite
      values are kept in lowest terms ([fin]), so that equal numbers are
      equal terms.  The sign of zero is not modelled.
    - A column entry is [option float]: [None] is the Polars null, which is
      distinct from the float [NaN].
    - The Polars operations follow the documented behaviour of the Polars
      releases the test scripts are written for (1.30 and later): total-order
      comparisons (NaN equals NaN and is greater than every other value),
      Kleene [&] and [|], rolling windows whose [min_samples] defaults to the
      window size, [rolling_mean] with weights normalised by their sum,
      [ewm_mean] with [ignore_nulls=False], [round] to even on ties.
    - The input columns hold finite numbers; periods are integers and
      weights rationals, as [int()] and [float()] receive them.  Rolling
      counts are kept as floats of integer value, so [cast(pl.Float64)] is
      the identity.
    - The TA-Lib functions reached through the [.ta] accessor are an
      interface ([TaLib]); the theorems hold for every implementation, and a
      reference implementation is used where a concrete run is needed. *)

From Stdlib Require Import ZArith QArith Qround Qabs List Bool Lia Lqa.
Import ListNotations.
Open Scope Q_scope.

(** ** Float64 values *)

Inductive float : Type :=
| Fin (q : Q)
| PInf
| NInf
| NaN.

Definition fin (q : Q) : float := Fin (Qred q).

Definition is_finite (x : float) : bool :=
  match x with Fin _ => true | _ => false end.

Definition fneg (x : float) : float :=
  match x with
  | Fin q => fin (- q)
  | PInf => NInf
  | NInf => PInf
  | NaN => NaN
  end.

Definition fabs (x : float) : float :=
  match x with
  | Fin q => fin (Qabs q)
  | PInf | NInf => PInf
  | NaN => NaN
  end.

Definition fadd (x y : float) : float :=
  match x, y with
  | NaN, _ | _, NaN => NaN
  | PInf, NInf | NInf, PInf => NaN
  | PInf, _ | _, PInf => PInf
  | NInf, _ | _, NInf => NInf
  | Fin a, Fin b => fin (a + b)
  end.

Definition fsub (x y : float) : float := fadd x (fneg y).

(** An infinity of the sign of [s], or NaN when [s] is zero. *)
Definition signed_inf (s : comparison) (positive : bool) : float :=
  match s with
  | Eq => NaN
  | Gt => if positive then PInf else NInf
  | Lt => if positive then NInf else PInf
  end.

Definition fmul (x y : float) : float :=
  match x, y with
  | NaN, _ | _, NaN => NaN
  | Fin a, Fin b => fin (a * b)
  | PInf, Fin q | Fin q, PInf => signed_inf (q ?= 0) true
  | NInf, Fin q | Fin q, NInf => signed_inf (q ?= 0) false
  | PInf, PInf | NInf, NInf => PInf
  | PInf, NInf | NInf, PInf => NInf
  end.

(** Float division never raises: a zero divisor gives an infinity, or NaN
    for [0/0]. *)
Definition fdiv (x y : float) : float :=
  match x, y with
  | NaN, _ | _, NaN => NaN
  | Fin a, Fin b =>
      if Qeq_bool b 0 then signed_inf (a ?= 0) true else fin (a / b)
  | Fin _, PInf | Fin _, NInf => fin 0
  | PInf, Fin q => if Qle_bool 0 q then PInf else NInf
  | NInf, Fin q => if Qle_bool 0 q then NInf else PInf
  | PInf, PInf | PInf, NInf | NInf, PInf | NInf, NInf => NaN
  end.

(** Polars orders floats totally: -inf < finite < +inf < NaN. *)
Definition fcompare (x y : float) : comparison :=
  match x, y with
  | NaN, NaN => Eq
  | NaN, _ => Gt
  | _, NaN => Lt
  | PInf, PInf => Eq
  | PInf, _ => Gt
  | _, PInf => Lt
  | NInf, NInf => Eq
  | NInf, _ => Lt
  | _, NInf => Gt
  | Fin a, Fin b => a ?= b
  end.

Definition fgt (x y : float) : bool :=
  match fcompare x y with Gt => true | _ => false end.
Definition flt (x y : float) : bool :=
  match fcompare x y with Lt => true | _ => false end.
Definition feq (x y : float) : bool :=
  match fcompare x y with Eq => true | _ => false end.

(** [round(decimals=2)], ties to even. *)
Definition round_half_even (q : Q) : Z :=
  let f := Qfloor q in
  match ((q - inject_Z f) ?= (1 # 2))%Q with
  | Lt => f
  | Gt => (f + 1)%Z
  | Eq => if Z.even f then f else (f + 1)%Z
  end.

Definition fround2 (x : float) : float :=
  match x with
  | Fin q => fin (inject_Z (round_half_even (q * 100)) / 100)
  | _ => x
  end.

(** ** Column entries and series *)

Abbreviation cell := (option float).
Abbreviation bcell := (option bool).
Abbreviation series := (list (option float)).
Abbreviation bseries := (list (option bool)).

Definition lit (q : Q) : cell := Some (fin q).
Definition null : cell := None.

Definition lift1 {A B} (f : A -> B) (x : option A) : option B :=
  match x with Some a => Some (f a) | None => None end.

Definition lift2 {A B C} (f : A -> B -> C) (x : option A) (y : option B)
  : option C :=
  match x, y with Some a, Some b => Some (f a b) | _, _ => None end.

Definition c_add : cell -> cell -> cell := lift2 fadd.
Definition c_sub : cell -> cell -> cell := lift2 fsub.
Definition c_mul : cell -> cell -> cell := lift2 fmul.
Definition c_div : cell -> cell -> cell := lift2 fdiv.
Definition c_neg : cell -> cell := lift1 fneg.
Definition c_abs : cell -> cell := lift1 fabs.
Definition c_round2 : cell -> cell := lift1 fround2.
Definition c_gt : cell -> cell -> bcell := lift2 fgt.
Definition c_lt : cell -> cell -> bcell := lift2 flt.
Definition c_eq : cell -> cell -> bcell := lift2 feq.

(** [&] and [|] on nullable booleans are Kleene's. *)
Definition b_and (x y : bcell) : bcell :=
  match x, y with
  | Some false, _ | _, Some false => Some false
  | Some true, Some true => Some true
  | _, _ => None
  end.

Definition b_or (x y : bcell) : bcell :=
  match x, y with
  | Some true, _ | _, Some true => Some true
  | Some false, Some false => Some false
  | _, _ => None
  end.

(** [pl.when(c).then(a).otherwise(b)]: a null condition selects [b]. *)
Definition c_when {A} (c : bcell) (a b : A) : A :=
  match c with Some true => a | _ => b end.

Definition c_fill_null {A} (v : A) (x : option A) : option A :=
  match x with None => Some v | _ => x end.

Definition c_fill_nan (v : cell) (x : cell) : cell :=
  match x with Some NaN => v | _ => x end.

(** [replace(0, None)]. *)
Definition c_replace_zero_null (x : cell) : cell :=
  match x with
  | Some f => if feq f (fin 0) then None else x
  | None => None
  end.

Fixpoint map2 {A B C} (f : A -> B -> C) (xs : list A) (ys : list B) : list C :=
  match xs, ys with
  | x :: xs', y :: ys' => f x y :: map2 f xs' ys'
  | _, _ => []
  end.

Fixpoint map3 {A B C D} (f : A -> B -> C -> D)
  (xs : list A) (ys : list B) (zs : list C) : list D :=
  match xs, ys, zs with
  | x :: xs', y :: ys', z :: zs' => f x y z :: map3 f xs' ys' zs'
  | _, _, _ => []
  end.

(** ** Polars column operations *)

(** [diff()]: first entry null. *)
Definition diff (s : series) : series :=
  match s with
  | [] => []
  | _ :: t => null :: map2 c_sub t s
  end.

(** [shift(1)]: lag by one, first entry null. *)
Definition shift1 {A} (s : list (option A)) : list (option A) :=
  match s with
  | [] => []
  | _ => None :: removelast s
  end.

Definition fill_null {A} (v : A) (s : list (option A)) : list (option A) :=
  map (c_fill_null v) s.

Definition fill_nan (v : cell) (s : series) : series := map (c_fill_nan v) s.

Definition replace_zero_null (s : series) : series :=
  map c_replace_zero_null s.

Definition round2 (s : series) : series := map c_round2 s.

Definition all_some {A} (l : list (option A)) : option (list A) :=
  fold_right (fun x acc => lift2 cons x acc) (Some []) l.

(** The window of [w] samples ending at the last entry of [prefix]; none
    when fewer than [w] samples exist. *)
Definition window {A} (w : nat) (prefix : list A) : option (list A) :=
  if (length prefix <? w)%nat then None
  else Some (skipn (length prefix - w) prefix).

(** The values of the window when all [w] of them exist and are non-null
    ([min_samples] defaults to the window size). *)
Definition full_window {A} (w : nat) (prefix : list (option A))
  : option (list A) :=
  match window w prefix with
  | Some win => all_some win
  | None => None
  end.

Definition count_true (l : list bool) : Z :=
  Z.of_nat (length (filter (fun b => b) l)).

(** [rolling_sum(window_size=w)] of a Boolean column. *)
Definition rolling_sum (w : nat) (s : bseries) : series :=
  map (fun i =>
         lift1 (fun win => fin (inject_Z (count_true win)))
           (full_window w (firstn (S i) s)))
      (seq 0 (length s)).

Definition fsum (l : list float) : float := fold_left fadd l (fin 0).

(** [rolling_mean(window_size=length weights, weights=weights)]: the weights
    are divided by their sum, then multiplied into the window and summed. *)
Definition rolling_mean_weighted (weights : list Q) (s : series) : series :=
  let wsum := fold_left Qplus weights 0 in
  let wts := map (fun w => fin (w / wsum)) weights in
  map (fun i =>
         lift1 (fun win => fsum (map2 fmul win wts))
           (full_window (length weights) (firstn (S i) s)))
      (seq 0 (length s)).

(** State of the exponentially weighted mean: the running average and the
    weight of the history. *)
Definition ewm_step (alpha : Q) (ignore_nulls : bool)
  (st : option (float * Q)) (x : cell) : option (float * Q) * cell :=
  match st, x with
  | None, None => (None, None)
  | None, Some v => (Some (v, 1), Some v)
  | Some (avg, old_wt), None =>
      (Some (avg, if ignore_nulls then old_wt else old_wt * (1 - alpha)), None)
  | Some (avg, old_wt), Some v =>
      let old_wt := old_wt * (1 - alpha) in
      let avg' :=
        fdiv (fadd (fmul (fin old_wt) avg) (fmul (fin alpha) v))
             (fin (old_wt + alpha)) in
      (Some (avg', 1), Some avg')
  end.

Fixpoint ewm_scan (alpha : Q) (ignore_nulls : bool)
  (st : option (float * Q)) (s : series) : series :=
  match s with
  | [] => []
  | x :: t =>
      let '(st', y) := ewm_step alpha ignore_nulls st x in
      y :: ewm_scan alpha ignore_nulls st' t
  end.

(** [ewm_mean(alpha=alpha, adjust=False)], with the defaults
    [min_samples=1] and [ignore_nulls=False]. *)
Definition ewm_mean (alpha : Q) (s : series) : series :=
  ewm_scan alpha false None s.

Fixpoint forward_fill_from {A} (last : option A) (s : list (option A))
  : list (option A) :=
  match s with
  | [] => []
  | Some v :: t => Some v :: forward_fill_from (Some v) t
  | None :: t => last :: forward_fill_from last t
  end.

(** [forward_fill()]. *)
Definition forward_fill {A} (s : list (option A)) : list (option A) :=
  forward_fill_from None s.

(** ** Python-level arithmetic and library argument checks *)

Inductive exn : Type :=
| ZeroDivisionError    (* Python float division by zero *)
| InvalidArgument.     (* an argument Polars refuses *)

Inductive result (A : Type) : Type :=
| Ok (a : A)
| Err (e : exn).
Arguments Ok {A} a.
Arguments Err {A} e.

Definition bind {A B} (c : result A) (k : A -> result B) : result B :=
  match c with Ok a => k a | Err e => Err e end.

Notation "x <- c ;; k" := (bind c (fun x => k))
  (at level 61, c at next level, right associativity).
Notation "' p <- c ;; k" := (bind c (fun x => let p := x in k))
  (at level 61, p pattern, c at next level, right associativity).

Definition is_ok {A} (r : result A) : bool :=
  match r with Ok _ => true | Err _ => false end.

(** Python [a / b] on numbers. *)
Definition py_div (a b : Q) : result Q :=
  if Qeq_bool b 0 then Err ZeroDivisionError else Ok (a / b).

(** Python [int(x)]: truncation toward zero. *)
Definition py_int (x : Q) : Z := Z.quot (Qnum x) (Zpos (Qden x)).

(** Python [float(x)]. *)
Definition py_float (x : Q) : Q := x.

(** A [window_size] argument: Polars takes an unsigned integer. *)
Definition window_size (n : Z) : result nat :=
  if (n <? 0)%Z then Err InvalidArgument else Ok (Z.to_nat n).

(** [alpha=1.0/length] as [ewm_mean] accepts it: [0 < alpha <= 1]. *)
Definition ewm_alpha (length : Z) : result Q :=
  alpha <- py_div 1 (inject_Z length) ;;
  if Qle_bool alpha 0 || negb (Qle_bool alpha 1)
  then Err InvalidArgument else Ok alpha.

(** ** The TA-Lib interface and the input frame *)

(** The four TA-Lib functions used through the [.ta] accessor, on columns of
    the input frame. *)
Record TaLib : Type := {
  ta_trange : list Q -> list Q -> list Q -> series;   (* high, low, close *)
  ta_rsi : list Q -> Z -> series;                     (* real, timeperiod *)
  ta_cci : list Q -> list Q -> list Q -> Z -> series; (* high, low, close, timeperiod *)
  ta_sma : list Q -> Z -> series                      (* real, timeperiod *)
}.

Record DataFrame : Type := {
  col_open : list Q;
  col_high : list Q;
  col_low : list Q;
  col_close : list Q;
  col_volume : list Q
}.

Inductive column : Type := Open | High | Low | Close | Volume.

Definition get_column (df : DataFrame) (c : column) : list Q :=
  match c with
  | Open => col_open df
  | High => col_high df
  | Low => col_low df
  | Close => col_close df
  | Volume => col_volume df
  end.

(** [pl.col(c)] evaluated on [df]. *)
Definition col (df : DataFrame) (c : column) : series :=
  map lit (get_column df c).

Record Params : Type := {
  lookbackPeriod : Z;
  source_col : column;
  rsiPeriod : Z;
  adxPeriod : Z;
  cciPeriod : Z;
  vwmaPeriod : Z;
  weightPrice : Q;
  weightRSI : Q;
  weightADX : Q;
  weightCCI : Q;
  weightVWMA : Q
}.

Definition default_params : Params :=
  {| lookbackPeriod := 43; source_col := Close; rsiPeriod := 14;
     adxPeriod := 6; cciPeriod := 13; vwmaPeriod := 9;
     weightPrice := 50; weightRSI := 20; weightADX := 15;
     weightCCI := 10; weightVWMA := 5 |}.

Inductive indicator : Type := Price | RSI | ADX | CCI | VWMA.

(** ** Code shared verbatim by the two files *)

(** [(1 + (i**2) / (lookback**2 * 2.0))**(-1.0)] *)
Definition kernel_weight (lookback i : Z) : result Q :=
  r <- py_div (inject_Z (i * i)) (inject_Z (lookback * lookback) * 2) ;;
  Ok (/ (1 + r)).

(** [_ratQ]: the two-tap rational quadratic kernel at taps [1, 0]. *)
Definition _ratQ (s : series) (lookback : Z) : result series :=
  w1 <- kernel_weight lookback 1 ;;
  w0 <- kernel_weight lookback 0 ;;
  Ok (rolling_mean_weighted [w1; w0] (fill_null (fin 0) (fill_nan (lit 0) s))).

Definition gt_lit (s : series) (q : Q) : bseries :=
  map (fun x => c_gt x (lit q)) s.
Definition lt_lit (s : series) (q : Q) : bseries :=
  map (fun x => c_lt x (lit q)) s.
Definition mul_lit (s : series) (q : Q) : series :=
  map (fun x => c_mul x (lit q)) s.
Definition lit_mul (q : Q) (s : series) : series :=
  map (fun x => c_mul (lit q) x) s.
Definition div_lit (s : series) (q : Q) : series :=
  map (fun x => c_div x (lit q)) s.

(** [cond.shift(1).rolling_sum(window_size=lookbackPeriod)] *)
Definition lagged_count (lookback : Z) (cond : bseries) : result series :=
  w <- window_size lookback ;;
  Ok (rolling_sum w (shift1 cond)).

(** [(w1*p1 + w2*p2 + w3*p3 + w4*p4 + w5*p5) / total] *)
Definition weighted_average (w1 w2 w3 w4 w5 total : Q)
  (p1 p2 p3 p4 p5 : series) : series :=
  div_lit
    (map2 c_add
       (map2 c_add
          (map2 c_add
             (map2 c_add (lit_mul w1 p1) (lit_mul w2 p2))
             (lit_mul w3 p3))
          (lit_mul w4 p4))
       (lit_mul w5 p5))
    total.

(** The crossing conditions and the forward-filled signal. *)
Definition cross_up_cond (osc : series) : bseries :=
  map2 (fun o prev =>
          b_or (c_gt o (lit 0))
               (b_and (c_eq o (lit 0)) (c_lt prev (lit 0))))
       osc (shift1 osc).

Definition cross_down_cond (osc : series) : bseries :=
  map2 (fun o prev =>
          b_or (c_lt o (lit 0))
               (b_and (c_eq o (lit 0)) (c_gt prev (lit 0))))
       osc (shift1 osc).

Definition raw_signal (osc : series) : series :=
  map2 (fun up down => c_when up (lit 1) (c_when down (lit (-1)) null))
       (fill_null false (cross_up_cond osc))
       (fill_null false (cross_down_cond osc)).

Definition signal (osc : series) : series := forward_fill (raw_signal osc).

(** The directional movements and the true range of
    [_internal_ProbTrend_dirmov]. *)
Definition plusDM (df : DataFrame) : series :=
  let up := diff (col df High) in
  let down := map c_neg (diff (col df Low)) in
  map2 (fun u d => c_when (b_and (c_gt u d) (c_gt u (lit 0))) u (lit 0))
       up down.

Definition minusDM (df : DataFrame) : series :=
  let up := diff (col df High) in
  let down := map c_neg (diff (col df Low)) in
  map2 (fun u d => c_when (b_and (c_gt d u) (c_gt d (lit 0))) d (lit 0))
       up down.

Definition truerange (ta : TaLib) (df : DataFrame) : series :=
  ta_trange ta (col_high df) (col_low df) (col_close df).

(** The three smoothed series: (minus_ewm, plus_ewm, truerange_ewm). *)
Definition smoothed (ta : TaLib) (df : DataFrame) (alpha : Q)
  : series * series * series :=
  (ewm_mean alpha (fill_nan null (minusDM df)),
   ewm_mean alpha (fill_nan null (plusDM df)),
   ewm_mean alpha (fill_nan null (truerange ta df))).

(** ** indicators/probability_trend.py *)

Module Eager.

(** [_internal_ProbTrend_dirmov]: the two directional indicators; the
    division by the smoothed true range is not guarded. *)
Definition _internal_ProbTrend_dirmov (ta : TaLib) (df : DataFrame)
  (length : Z) : result (series * series) :=
  alpha <- ewm_alpha length ;;
  let '(minus_ewm, plus_ewm, truerange_ewm) := smoothed ta df alpha in
  let plus_intermediate := map2 c_div (mul_lit plus_ewm 100) truerange_ewm in
  let minus_intermediate := map2 c_div (mul_lit minus_ewm 100) truerange_ewm in
  let plus := fill_null (fin 0) plus_intermediate in
  let minus := fill_null (fin 0) minus_intermediate in
  Ok (plus, minus).

Definition _internal_ProbTrend_adx (ta : TaLib) (df : DataFrame)
  (dilen adxlen : Z) : result (series * series * series) :=
  '(plus, minus) <- _internal_ProbTrend_dirmov ta df dilen ;;
  let summ := map2 c_add plus minus in
  let adx_operand :=
    map2 c_div
      (map c_abs (map2 c_sub plus minus))
      (map (fun s => c_when (c_eq s (lit 0)) (lit 1) s) summ) in
  alpha <- ewm_alpha adxlen ;;
  let adx_ewm := ewm_mean alpha adx_operand in
  let adx := lit_mul 100 adx_ewm in
  Ok (adx, plus, minus).

(** [priceChange / source.shift(1) * 100] *)
Definition priceChangePercentage (df : DataFrame) (source : column)
  : series :=
  let priceChange := diff (col df source) in
  mul_lit (map2 c_div priceChange (shift1 (col df source))) 100.

(** [((trends / total.replace(0,None) * 100).round(2)).fill_null(0)] *)
Definition probability (trends total : series) : series :=
  fill_null (fin 0)
    (round2 (mul_lit (map2 c_div trends (replace_zero_null total)) 100)).

(** The upward and downward rolling counts of one sub-indicator. *)
Definition trends (ta : TaLib) (df : DataFrame) (p : Params)
  (k : indicator) : result (series * series) :=
  match k with
  | Price =>
      rationalQuadraticKernel <-
        _ratQ (priceChangePercentage df (source_col p)) (lookbackPeriod p) ;;
      upwardTrends <-
        lagged_count (lookbackPeriod p) (gt_lit rationalQuadraticKernel 0) ;;
      downwardTrends <-
        lagged_count (lookbackPeriod p) (lt_lit rationalQuadraticKernel 0) ;;
      Ok (upwardTrends, downwardTrends)
  | RSI =>
      let rsiValue := ta_rsi ta (col_close df) (rsiPeriod p) in
      upwardTrendsRSI <- lagged_count (lookbackPeriod p) (gt_lit rsiValue 50) ;;
      downwardTrendsRSI <- lagged_count (lookbackPeriod p) (lt_lit rsiValue 50) ;;
      Ok (upwardTrendsRSI, downwardTrendsRSI)
  | ADX =>
      '(adx, plus, minus) <-
        _internal_ProbTrend_adx ta df (adxPeriod p) (adxPeriod p) ;;
      rolled_adx_condition <- lagged_count (lookbackPeriod p) (gt_lit adx 25) ;;
      let upwardTrendsADX :=
        map3 (fun pl mi r => c_when (c_gt pl mi) r (lit 0))
             plus minus rolled_adx_condition in
      let downwardTrendsADX :=
        map3 (fun pl mi r => c_when (c_lt pl mi) r (lit 0))
             plus minus rolled_adx_condition in
      Ok (upwardTrendsADX, downwardTrendsADX)
  | CCI =>
      let cciValue :=
        ta_cci ta (col_close df) (col_close df) (col_close df) (cciPeriod p) in
      upwardTrendsCCI <- lagged_count (lookbackPeriod p) (gt_lit cciValue 0) ;;
      downwardTrendsCCI <- lagged_count (lookbackPeriod p) (lt_lit cciValue 0) ;;
      Ok (upwardTrendsCCI, downwardTrendsCCI)
  | VWMA =>
      let sma_vol_x_close :=
        ta_sma ta (map2 Qmult (col_volume df) (col_close df)) (vwmaPeriod p) in
      let sma_vol := ta_sma ta (col_volume df) (vwmaPeriod p) in
      let vwmaValue := map2 c_div sma_vol_x_close (replace_zero_null sma_vol) in
      let close_pl := col df Close in
      upwardTrendsVWMA <-
        lagged_count (lookbackPeriod p) (map2 c_gt vwmaValue close_pl) ;;
      downwardTrendsVWMA <-
        lagged_count (lookbackPeriod p) (map2 c_lt vwmaValue close_pl) ;;
      Ok (upwardTrendsVWMA, downwardTrendsVWMA)
  end.

(** The pair (probabilityUpward, probabilityDownward) of one
    sub-indicator. *)
Definition probabilities (ta : TaLib) (df : DataFrame) (p : Params)
  (k : indicator) : result (series * series) :=
  '(upward, downward) <- trends ta df p k ;;
  let total := map2 c_add upward downward in
  Ok (probability upward total, probability downward total).

Definition combinedOscillatorValue (ta : TaLib) (df : DataFrame)
  (p : Params) : result series :=
  let weightPrice := inject_Z (py_int (weightPrice p)) in
  let weightRSI := inject_Z (py_int (weightRSI p)) in
  let weightADX := inject_Z (py_int (weightADX p)) in
  let weightCCI := inject_Z (py_int (weightCCI p)) in
  let weightVWMA := inject_Z (py_int (weightVWMA p)) in
  '(pU, pD) <- probabilities ta df p Price ;;
  '(pU_RSI, pD_RSI) <- probabilities ta df p RSI ;;
  '(pU_ADX, pD_ADX) <- probabilities ta df p ADX ;;
  '(pU_CCI, pD_CCI) <- probabilities ta df p CCI ;;
  '(pU_VWMA, pD_VWMA) <- probabilities ta df p VWMA ;;
  let total_weight :=
    weightPrice + weightRSI + weightADX + weightCCI + weightVWMA in
  let combinedProbabilityUpward :=
    weighted_average weightPrice weightRSI weightADX weightCCI weightVWMA
      total_weight pU pU_RSI pU_ADX pU_CCI pU_VWMA in
  let combinedProbabilityDownward :=
    weighted_average weightPrice weightRSI weightADX weightCCI weightVWMA
      total_weight pD pD_RSI pD_ADX pD_CCI pD_VWMA in
  Ok (map2 c_sub combinedProbabilityUpward combinedProbabilityDownward).

Definition ProbTrend (ta : TaLib) (df : DataFrame) (p : Params)
  : result series :=
  combinedOscillatorValue <- combinedOscillatorValue ta df p ;;
  Ok (signal combinedOscillatorValue).

End Eager.

(** ** indicators/probability_trend_lazy.py

    The expressions are given their value on the frame they are evaluated
    on; errors raised while the expression is built and errors raised when
    it is collected are both [Err]. *)

Module Lazy.

(** [pl.when(e == 0).then(None).otherwise(e)] *)
Definition safe (e : series) : series :=
  map (fun x => c_when (c_eq x (lit 0)) null x) e.

(** [_internal_ProbTrend_dirmov]: the two directional indicators, with
    the smoothed true range guarded against zero. *)
Definition _internal_ProbTrend_dirmov (ta : TaLib) (df : DataFrame)
  (length : Z) : result (series * series) :=
  alpha <- ewm_alpha length ;;
  let '(minus_ewm_expr, plus_ewm_expr, truerange_ewm_expr) :=
    smoothed ta df alpha in
  let safe_truerange_ewm_expr := safe truerange_ewm_expr in
  let plus_intermediate_expr :=
    fill_null (fin 0)
      (map2 c_div (mul_lit plus_ewm_expr 100) safe_truerange_ewm_expr) in
  let minus_intermediate_expr :=
    fill_null (fin 0)
      (map2 c_div (mul_lit minus_ewm_expr 100) safe_truerange_ewm_expr) in
  Ok (plus_intermediate_expr, minus_intermediate_expr).

Definition _internal_ProbTrend_adx (ta : TaLib) (df : DataFrame)
  (dilen adxlen : Z) : result (series * series * series) :=
  '(plus_expr, minus_expr) <- _internal_ProbTrend_dirmov ta df dilen ;;
  let summ_expr := map2 c_add plus_expr minus_expr in
  let safe_summ_expr :=
    map (fun s => c_when (c_eq s (lit 0)) (lit 1) s) summ_expr in
  let adx_operand_expr :=
    map2 c_div (map c_abs (map2 c_sub plus_expr minus_expr)) safe_summ_expr in
  alpha <- ewm_alpha adxlen ;;
  let adx_ewm_expr := ewm_mean alpha adx_operand_expr in
  let adx_expr := lit_mul 100 adx_ewm_expr in
  Ok (adx_expr, plus_expr, minus_expr).

(** [priceChange_expr / safe_shifted_source_expr * 100] *)
Definition priceChangePercentage (df : DataFrame) (source : column)
  : series :=
  let source_expr := col df source in
  let priceChange_expr := diff source_expr in
  let safe_shifted_source_expr := safe (shift1 source_expr) in
  mul_lit (map2 c_div priceChange_expr safe_shifted_source_expr) 100.

(** [((trends / safe_total * 100).round(2)).fill_null(0)] *)
Definition probability (trends total : series) : series :=
  let safe_total := safe total in
  fill_null (fin 0) (round2 (mul_lit (map2 c_div trends safe_total) 100)).

(** The upward and downward rolling counts of one sub-indicator. *)
Definition trends (ta : TaLib) (df : DataFrame) (p : Params)
  (k : indicator) : result (series * series) :=
  match k with
  | Price =>
      rationalQuadraticKernel_expr <-
        _ratQ (priceChangePercentage df (source_col p)) (lookbackPeriod p) ;;
      upwardTrends_expr <-
        lagged_count (lookbackPeriod p) (gt_lit rationalQuadraticKernel_expr 0) ;;
      downwardTrends_expr <-
        lagged_count (lookbackPeriod p) (lt_lit rationalQuadraticKernel_expr 0) ;;
      Ok (upwardTrends_expr, downwardTrends_expr)
  | RSI =>
      let rsiValue_expr := ta_rsi ta (col_close df) (rsiPeriod p) in
      upwardTrendsRSI_expr <-
        lagged_count (lookbackPeriod p) (gt_lit rsiValue_expr 50) ;;
      downwardTrendsRSI_expr <-
        lagged_count (lookbackPeriod p) (lt_lit rsiValue_expr 50) ;;
      Ok (upwardTrendsRSI_expr, downwardTrendsRSI_expr)
  | ADX =>
      '(adx_expr, plus_expr, minus_expr) <-
        _internal_ProbTrend_adx ta df (adxPeriod p) (adxPeriod p) ;;
      rolled_adx_condition_expr <-
        lagged_count (lookbackPeriod p) (gt_lit adx_expr 25) ;;
      let upwardTrendsADX_expr :=
        map3 (fun pl mi r => c_when (c_gt pl mi) r (lit 0))
             plus_expr minus_expr rolled_adx_condition_expr in
      let downwardTrendsADX_expr :=
        map3 (fun pl mi r => c_when (c_lt pl mi) r (lit 0))
             plus_expr minus_expr rolled_adx_condition_expr in
      Ok (upwardTrendsADX_expr, downwardTrendsADX_expr)
  | CCI =>
      let cciValue_expr :=
        ta_cci ta (col_close df) (col_close df) (col_close df) (cciPeriod p) in
      upwardTrendsCCI_expr <-
        lagged_count (lookbackPeriod p) (gt_lit cciValue_expr 0) ;;
      downwardTrendsCCI_expr <-
        lagged_count (lookbackPeriod p) (lt_lit cciValue_expr 0) ;;
      Ok (upwardTrendsCCI_expr, downwardTrendsCCI_expr)
  | VWMA =>
      let sma_vol_x_close_expr :=
        ta_sma ta (map2 Qmult (col_volume df) (col_close df)) (vwmaPeriod p) in
      let sma_vol_expr := ta_sma ta (col_volume df) (vwmaPeriod p) in
      let safe_sma_vol_expr := safe sma_vol_expr in
      let vwmaValue_expr := map2 c_div sma_vol_x_close_expr safe_sma_vol_expr in
      upwardTrendsVWMA_expr <-
        lagged_count (lookbackPeriod p) (map2 c_gt vwmaValue_expr (col df Close)) ;;
      downwardTrendsVWMA_expr <-
        lagged_count (lookbackPeriod p) (map2 c_lt vwmaValue_expr (col df Close)) ;;
      Ok (upwardTrendsVWMA_expr, downwardTrendsVWMA_expr)
  end.

(** The pair (probabilityUpward, probabilityDownward) of one
    sub-indicator. *)
Definition probabilities (ta : TaLib) (df : DataFrame) (p : Params)
  (k : indicator) : result (series * series) :=
  '(upward, downward) <- trends ta df p k ;;
  let total := map2 c_add upward downward in
  Ok (probability upward total, probability downward total).

Definition combinedOscillatorValue (ta : TaLib) (df : DataFrame)
  (p : Params) : result series :=
  let weightPrice := py_float (weightPrice p) in
  let weightRSI := py_float (weightRSI p) in
  let weightADX := py_float (weightADX p) in
  let weightCCI := py_float (weightCCI p) in
  let weightVWMA := py_float (weightVWMA p) in
  '(pU, pD) <- probabilities ta df p Price ;;
  '(pU_RSI, pD_RSI) <- probabilities ta df p RSI ;;
  '(pU_ADX, pD_ADX) <- probabilities ta df p ADX ;;
  '(pU_CCI, pD_CCI) <- probabilities ta df p CCI ;;
  '(pU_VWMA, pD_VWMA) <- probabilities ta df p VWMA ;;
  let total_weight :=
    py_float (weightPrice + weightRSI + weightADX + weightCCI + weightVWMA) in
  let combinedProbabilityUpward_expr :=
    weighted_average weightPrice weightRSI weightADX weightCCI weightVWMA
      total_weight pU pU_RSI pU_ADX pU_CCI pU_VWMA in
  let combinedProbabilityDownward_expr :=
    weighted_average weightPrice weightRSI weightADX weightCCI weightVWMA
      total_weight pD pD_RSI pD_ADX pD_CCI pD_VWMA in
  Ok (map2 c_sub combinedProbabilityUpward_expr
                 combinedProbabilityDownward_expr).

Definition ProbTrend (ta : TaLib) (df : DataFrame) (p : Params)
  : result series :=
  combinedOscillatorValue_expr <- combinedOscillatorValue ta df p ;;
  Ok (signal combinedOscillatorValue_expr).

End Lazy.

(** ** A reference implementation of the TA-Lib interface

    TA-Lib's algorithms for the four functions, in exact arithmetic; the
    entries before a function's lookback are NaN. *)

Module TaRef.

Definition nan : cell := Some NaN.

Definition Qmax (a b : Q) : Q := if Qle_bool a b then b else a.

Definition Qsum (l : list Q) : Q := fold_left Qplus l 0.

(** The values of [l] paired with their predecessor, from index 1. *)
Definition with_prev {A} (l : list A) : list (A * A) :=
  combine (tl l) l.

(** TRANGE: max(high - low, |high - prev close|, |low - prev close|). *)
Definition trange (high low close : list Q) : series :=
  match close with
  | [] => []
  | _ :: _ =>
      nan :: map3 (fun h l pc =>
                     lit (Qmax (h - l) (Qmax (Qabs (h - pc)) (Qabs (l - pc)))))
                  (tl high) (tl low) close
  end.

(** SMA: the mean of the last [timeperiod] values. *)
Definition sma (real : list Q) (timeperiod : Z) : series :=
  let n := Z.to_nat timeperiod in
  map (fun i =>
         match window n (firstn (S i) real) with
         | Some win => lit (Qsum win / inject_Z timeperiod)
         | None => nan
         end)
      (seq 0 (length real)).

(** CCI on the typical price (high + low + close) / 3. *)
Definition cci (high low close : list Q) (timeperiod : Z) : series :=
  let n := Z.to_nat timeperiod in
  let tp := map3 (fun h l c => Qred ((h + l + c) / 3)) high low close in
  map (fun i =>
         match window n (firstn (S i) tp) with
         | Some win =>
             let avg := Qred (Qsum win / inject_Z timeperiod) in
             let dev := Qred (Qsum (map (fun v => Qabs (v - avg)) win)) in
             let d := Qred (last win 0 - avg) in
             if Qeq_bool d 0 || Qeq_bool dev 0 then lit 0
             else lit (d / ((15 # 1000) * (dev / inject_Z timeperiod)))
         | None => nan
         end)
      (seq 0 (length tp)).

Definition rsi_value (gain loss : Q) : cell :=
  if Qeq_bool (gain + loss) 0 then lit 0
  else lit (100 * (gain / (gain + loss))).

(** Wilder's smoothing of the gains and losses. *)
Fixpoint rsi_wilder (n gain loss : Q) (diffs : list Q) : series :=
  match diffs with
  | [] => []
  | d :: t =>
      let gain' := Qred ((gain * (n - 1) + Qmax d 0) / n) in
      let loss' := Qred ((loss * (n - 1) + Qmax (- d) 0) / n) in
      rsi_value gain' loss' :: rsi_wilder n gain' loss' t
  end.

Definition rsi (real : list Q) (timeperiod : Z) : series :=
  let k := Z.to_nat timeperiod in
  let n := inject_Z timeperiod in
  if (length real <=? k)%nat then map (fun _ => nan) real
  else
    let diffs := map (fun '(x, prev) => x - prev) (with_prev real) in
    let gain := Qred (Qsum (map (fun d => Qmax d 0) (firstn k diffs)) / n) in
    let loss := Qred (Qsum (map (fun d => Qmax (- d) 0) (firstn k diffs)) / n) in
    repeat nan k ++ rsi_value gain loss :: rsi_wilder n gain loss (skipn k diffs).

Definition talib : TaLib :=
  {| ta_trange := trange; ta_rsi := rsi; ta_cci := cci; ta_sma := sma |}.

End TaRef.

(** ** Concrete frames and parameters used in the runs below *)

(** Bars around a close series: high one above, low one below, unit
    volume. *)
Definition bars (close : list Q) : DataFrame :=
  {| col_open := close;
     col_high := map (fun x => x + 1) close;
     col_low := map (fun x => x - 1) close;
     col_close := close;
     col_volume := map (fun _ => 1) close |}.

Definition falling : DataFrame := bars [10; 9; 8; 7; 6; 5].

(** Bars that never move: open = high = low = close. *)
Definition flat : DataFrame :=
  {| col_open := [1; 1; 1; 1]; col_high := [1; 1; 1; 1];
     col_low := [1; 1; 1; 1]; col_close := [1; 1; 1; 1];
     col_volume := [1; 1; 1; 1] |}.

(** All periods 2, so that six bars leave the warm-up. *)
Definition short_params (wPrice wRSI wADX wCCI wVWMA : Q) : Params :=
  {| lookbackPeriod := 2; source_col := Close; rsiPeriod := 2;
     adxPeriod := 2; cciPeriod := 2; vwmaPeriod := 2;
     weightPrice := wPrice; weightRSI := wRSI; weightADX := wADX;
     weightCCI := wCCI; weightVWMA := wVWMA |}.

(** ** Definitions used in the statements *)

(** The values a signal entry may take: +1.0, -1.0 or undefined. *)
Definition signal_value (c : cell) : Prop :=
  c = lit 1 \/ c = lit (-1) \/ c = null.

(** Undefined entries form a prefix: after a defined entry every entry is
    defined. *)
Definition undefined_only_as_prefix (s : series) : Prop :=
  forall i j, (i <= j < length s)%nat ->
    nth i s null <> null -> nth j s null <> null.

(** The rolling sum as the specification words it: the number of true
    samples among those available in [i-w+1, i]. *)
Definition available_window_sum (w : nat) (s : list bool) (i : nat) : Z :=
  count_true (skipn (S i - w) (firstn (S i) s)).

(** The moving average as the specification words it: seeded at the first
    defined input, holding the previous value on an undefined input,
    undefined before the first defined input. *)
Fixpoint ewm_hold (alpha : Q) (prev : cell) (s : series) : series :=
  match s with
  | [] => []
  | None :: t => prev :: ewm_hold alpha prev t
  | Some x :: t =>
      let e :=
        match prev with
        | None => x
        | Some e0 => fadd (fmul (fin alpha) x) (fmul (fin (1 - alpha)) e0)
        end in
      Some e :: ewm_hold alpha (Some e) t
  end.

(** The kernel weight as the specification writes it:
    w(k) = (1 + k^2 / (2 lookback^2))^-1. *)
Definition rational_quadratic (lookback k : Z) : Q :=
  / (1 + inject_Z k ^ 2 / (2 * inject_Z lookback ^ 2)).

(** A rolling count: null, or a non-negative integer. *)
Definition count_cell (c : cell) : Prop :=
  c = null \/ exists n, (0 <= n)%Z /\ c = lit (inject_Z n).

(** The probability formula on one bar; [replace(0, None)] and the lazy
    file's [when(total == 0).then(None).otherwise(total)] agree. *)
Definition c_probability (u t : cell) : cell :=
  c_fill_null (fin 0)
    (c_round2 (c_mul (c_div u (c_replace_zero_null t)) (lit 100))).

(** What the specification asks of one bar: [u] and [d] are the rolling
    counts, [a] and [b] the two probabilities. *)
Definition probability_pair_ok (u d a b : cell) : Prop :=
  forall t, c_add u d = Some (Fin t) ->
    (0 < t -> c_add a b = lit 100 \/ c_add a b = lit 0) /\
    (t == 0 -> a = lit 0 /\ b = lit 0).

(** The falling bars with a wider high-low range. *)
Definition falling_wide : DataFrame :=
  {| col_open := col_open falling;
     col_high := map (fun x => x + 5) (col_close falling);
     col_low := [1; 1; 1; 1; 1; 1];
     col_close := col_close falling;
     col_volume := col_volume falling |}.

(** The sum of the five weights as they are passed in. *)
Definition total_weight (p : Params) : Q :=
  weightPrice p + weightRSI p + weightADX p + weightCCI p + weightVWMA p.

(** The default parameters with a lookback period of 0. *)
Definition zero_lookback : Params :=
  {| lookbackPeriod := 0; source_col := Close; rsiPeriod := 14;
     adxPeriod := 6; cciPeriod := 13; vwmaPeriod := 9;
     weightPrice := 50; weightRSI := 20; weightADX := 15;
     weightCCI := 10; weightVWMA := 5 |}.

(** The parameters with the five weights multiplied by [c]. *)
Definition scale_weights (c : Q) (p : Params) : Params :=
  {| lookbackPeriod := lookbackPeriod p; source_col := source_col p;
     rsiPeriod := rsiPeriod p; adxPeriod := adxPeriod p;
     cciPeriod := cciPeriod p; vwmaPeriod := vwmaPeriod p;
     weightPrice := c * weightPrice p; weightRSI := c * weightRSI p;
     weightADX := c * weightADX p; weightCCI := c * weightCCI p;
     weightVWMA := c * weightVWMA p |}.

(** [scaled c x y]: the float [y] is [x] multiplied by the positive [c]. *)
Definition scaled (c : Q) (x y : float) : Prop :=
  match x, y with
  | Fin a, Fin b => b == c * a
  | PInf, PInf | NInf, NInf | NaN, NaN => True
  | _, _ => False
  end.

(** The same on column entries. *)
Definition cell_scaled (c : Q) (x y : cell) : Prop :=
  match x, y with
  | Some a, Some b => scaled c a b
  | None, None => True
  | _, _ => False
  end.

(** A weight that [int] leaves unchanged. *)
Definition integer_weight (w : Q) : Prop := inject_Z (py_int w) == w.

(** A column entry that does not compare equal to 0. *)
Definition nonzero_cell (x : cell) : Prop := c_eq x (lit 0) <> Some true.

(** truerange_ewm of [_internal_ProbTrend_dirmov]. *)
Definition smoothed_truerange (ta : TaLib) (df : DataFrame) (length : Z)
  : result series :=
  alpha <- ewm_alpha length ;;
  Ok (ewm_mean alpha (fill_nan null (truerange ta df))).

(** One run of ProbTrend, eager or lazy: [osc] is combinedOscillatorValue
    and [s] the returned signal. *)
Definition ProbTrend_run (ta : TaLib) (df : DataFrame) (p : Params)
  (osc s : series) : Prop :=
  (Eager.combinedOscillatorValue ta df p = Ok osc /\
   Eager.ProbTrend ta df p = Ok s) \/
  (Lazy.combinedOscillatorValue ta df p = Ok osc /\
   Lazy.ProbTrend ta df p = Ok s).

(** The signal before forward filling, on one bar: [o] is the oscillator at
    the bar and [prev] at the bar before. *)
Definition raw_signal_cell (o prev : cell) : cell :=
  c_when
    (c_fill_null false
       (b_or (c_gt o (lit 0)) (b_and (c_eq o (lit 0)) (c_lt prev (lit 0)))))
    (lit 1)
    (c_when
       (c_fill_null false
          (b_or (c_lt o (lit 0)) (b_and (c_eq o (lit 0)) (c_gt prev (lit 0)))))
       (lit (-1)) null).

(** A finite column entry between 0 and 100. *)
Definition percentage (c : cell) : Prop :=
  exists q, c = Some (Fin q) /\ 0 <= q <= 100.

(** A weight as the eager file uses it, after [int()]. *)
Definition eager_weight (w : Q) : Q := inject_Z (py_int w).

(** The total weight of the eager file. *)
Definition eager_total_weight (p : Params) : Q :=
  eager_weight (weightPrice p) + eager_weight (weightRSI p)
  + eager_weight (weightADX p) + eager_weight (weightCCI p)
  + eager_weight (weightVWMA p).

(** Five non-negative weights with a positive sum. *)
Definition usable_weights (w1 w2 w3 w4 w5 : Q) : Prop :=
  0 <= w1 /\ 0 <= w2 /\ 0 <= w3 /\ 0 <= w4 /\ 0 <= w5 /\
  0 < w1 + w2 + w3 + w4 + w5.

(** A finite column entry between [lo] and [hi]. *)
Definition within (lo hi : Q) (c : cell) : Prop :=
  exists q, c = Some (Fin q) /\ lo <= q <= hi.

(** A column entry that is NaN or an infinity. *)
Definition not_finite (c : cell) : Prop :=
  exists f, c = Some f /\ is_finite f = false.

(** A finite column entry of value [q]. *)
Definition has_value (c : cell) (q : Q) : Prop :=
  exists q', c = Some (Fin q') /\ q' == q.

(** The weighted average on one bar. *)
Definition weighted_average_cell (w1 w2 w3 w4 w5 total : Q)
  (x1 x2 x3 x4 x5 : cell) : cell :=
  c_div
    (c_add
       (c_add
          (c_add
             (c_add (c_mul (lit w1) x1) (c_mul (lit w2) x2))
             (c_mul (lit w3) x3))
          (c_mul (lit w4) x4))
       (c_mul (lit w5) x5))
    (lit total).

(** A column entry that is null or a finite number. *)
Definition finite_or_null (c : cell) : Prop :=
  c = null \/ exists q, c = Some (Fin q).

(** A finite column entry. *)
Definition finite_cell (c : cell) : Prop := exists q, c = Some (Fin q).

(** The two directional movements of one bar: finite, non-negative, and not
    both positive. *)
Definition directional_pair (a b : cell) : Prop :=
  exists qa qb,
    a = Some (Fin qa) /\ b = Some (Fin qb) /\
    0 <= qa /\ 0 <= qb /\ (qa == 0 \/ qb == 0).

(** A column entry that is not an infinity. *)
Definition not_infinite (c : cell) : Prop :=
  c <> Some PInf /\ c <> Some NInf.

(** The state of the exponentially weighted mean holds a finite average
    and a non-negative weight. *)
Definition ewm_state_finite (st : option (float * Q)) : Prop :=
  st = None \/ exists e w, st = Some (Fin e, w) /\ 0 <= w.

(** The number of bars of a frame. *)
Definition height (df : DataFrame) : nat := length (col_close df).

(** The five columns of a frame have the same height. *)
Definition rectangular (df : DataFrame) : Prop :=
  length (col_open df) = height df /\ length (col_high df) = height df /\
  length (col_low df) = height df /\ length (col_volume df) = height df.

(** The backend returns one value per bar on the five calls ProbTrend makes. *)
Definition one_value_per_bar (ta : TaLib) (df : DataFrame) (p : Params)
  : Prop :=
  length (ta_trange ta (col_high df) (col_low df) (col_close df)) = height df /\
  length (ta_rsi ta (col_close df) (rsiPeriod p)) = height df /\
  length (ta_cci ta (col_close df) (col_close df) (col_close df) (cciPeriod p))
  = height df /\
  length (ta_sma ta (map2 Qmult (col_volume df) (col_close df)) (vwmaPeriod p))
  = height df /\
  length (ta_sma ta (col_volume df) (vwmaPeriod p)) = height df.

(** Bars around a close series that touches 0. *)
Definition through_zero : DataFrame := bars [2; 0; 3].

(** A finite, non-negative column entry. *)
Definition nonneg_cell (c : cell) : Prop :=
  exists q, c = Some (Fin q) /\ 0 <= q.

(** A true range as TA-Lib reports it: non-negative, or missing (null or
    NaN, as before the first close is known). *)
Definition nonneg_or_missing (c : cell) : Prop :=
  c = null \/ c = Some NaN \/ nonneg_cell c.

(** A column entry that is null or a finite number satisfying [P]. *)
Definition null_or (P : Q -> Prop) (c : cell) : Prop :=
  c = null \/ exists q, c = Some (Fin q) /\ P q.

(** The state of the exponentially weighted mean holds an average
    satisfying [P] and a non-negative weight. *)
Definition ewm_state_sat (P : Q -> Prop) (st : option (float * Q)) : Prop :=
  st = None \/ exists e w, st = Some (Fin e, w) /\ P e /\ 0 <= w.

(** [P] respects the equality of rationals and is closed under weighted
    means. *)
Definition convex (P : Q -> Prop) : Prop :=
  (forall x y, x == y -> P x -> P y) /\
  (forall x y s t, P x -> P y -> 0 <= s -> 0 < t ->
                   P ((s * x + t * y) / (s + t))).

(** The operand of the ADX on one bar, from plusDI and minusDI. *)
Definition adx_operand_cell (pl mi : cell) : cell :=
  c_div (c_abs (c_sub pl mi))
        (c_when (c_eq (c_add pl mi) (lit 0)) (lit 1) (c_add pl mi)).

(** A pair of probabilities that is all-or-nothing: (0, 0), (100, 0) or
    (0, 100). *)
Definition all_or_nothing (a b : cell) : Prop :=
  (a = lit 0 /\ b = lit 0) \/ (a = lit 100 /\ b = lit 0) \/
  (a = lit 0 /\ b = lit 100).

(** The five weights lie strictly between -1 and 1, as weights that sum
    to 1 do. *)
Definition fractional_weights (p : Params) : Prop :=
  (-1 < weightPrice p /\ weightPrice p < 1) /\
  (-1 < weightRSI p /\ weightRSI p < 1) /\
  (-1 < weightADX p /\ weightADX p < 1) /\
  (-1 < weightCCI p /\ weightCCI p < 1) /\
  (-1 < weightVWMA p /\ weightVWMA p < 1).

(** ** Runs of the column operations *)

Example diff_example :
  diff [lit 1; lit 3; lit 6] = [null; lit 2; lit 3].
Proof. reflexivity. Qed.

Example rolling_sum_example :
  rolling_sum 2 [Some true; Some true; Some false; None; Some true; Some true]
  = [null; lit 2; lit 1; null; null; lit 2].
Proof. reflexivity. Qed.

Example ewm_example :
  ewm_mean (1 # 2) [null; lit 2; lit 5; lit 3]
  = [null; lit 2; lit (7 # 2); lit (13 # 4)].
Proof. reflexivity. Qed.

Example forward_fill_example :
  forward_fill [None; Some 1%Z; None; None; Some 2%Z; None]
  = [None; Some 1%Z; Some 1%Z; Some 1%Z; Some 2%Z; Some 2%Z].
Proof. reflexivity. Qed.

(** ** General facts on lists *)

Section ListFacts.
Context {A B C D : Type}.

Lemma Forall_map2 (P : C -> Prop) (f : A -> B -> C) :
  (forall x y, P (f x y)) -> forall xs ys, Forall P (map2 f xs ys).
Proof.
  intros Hf xs; induction xs as [|x xs IH]; intros [|y ys]; simpl;
    constructor; auto.
Qed.

Lemma Forall_map3 (P : D -> Prop) (f : A -> B -> C -> D) :
  (forall x y z, P (f x y z)) ->
  forall xs ys zs, Forall P (map3 f xs ys zs).
Proof.
  intros Hf xs; induction xs as [|x xs IH]; intros [|y ys] [|z zs]; simpl;
    constructor; auto.
Qed.

Lemma nth_error_map2 (f : A -> B -> C) xs ys i z :
  nth_error (map2 f xs ys) i = Some z <->
  exists x y, nth_error xs i = Some x /\ nth_error ys i = Some y /\ z = f x y.
Proof.
  revert ys i; induction xs as [|x xs IH]; intros [|y ys] [|i]; simpl;
    try (split; [discriminate | intros (? & ? & ? & ? & ?); discriminate]).
  - split.
    + intros [= <-]; eauto.
    + intros (? & ? & [= <-] & [= <-] & ->); reflexivity.
  - apply IH.
Qed.

Lemma nth_error_map3 (f : A -> B -> C -> D) xs ys zs i r :
  nth_error (map3 f xs ys zs) i = Some r <->
  exists x y z, nth_error xs i = Some x /\ nth_error ys i = Some y /\
                nth_error zs i = Some z /\ r = f x y z.
Proof.
  revert ys zs i; induction xs as [|x xs IH]; intros [|y ys] [|z zs] [|i];
    simpl;
    try (split; [discriminate | intros (? & ? & ? & ? & ? & ? & ?); discriminate]).
  - split.
    + intros [= <-]; eauto 7.
    + intros (? & ? & ? & [= <-] & [= <-] & [= <-] & ->); reflexivity.
  - apply IH.
Qed.

Lemma nth_error_map_Some (f : A -> B) xs i y :
  nth_error (map f xs) i = Some y <->
  exists x, nth_error xs i = Some x /\ y = f x.
Proof.
  rewrite nth_error_map. destruct (nth_error xs i) as [x|]; simpl.
  - split; [intros [= <-]; eauto | intros (? & [= <-] & ->); reflexivity].
  - split; [discriminate | intros (? & ? & _); discriminate].
Qed.

End ListFacts.

(** ** The forward-filled signal (C2) *)

Section ForwardFill.
Context {A : Type}.
Implicit Types (s : list (option A)) (last : option A).

Lemma forward_fill_from_length s : forall last,
  length (forward_fill_from last s) = length s.
Proof.
  induction s as [|[v|] s IH]; intros last; simpl; auto.
Qed.

(** Every entry of the filled series is an entry of the input or the
    value carried in. *)
Lemma forward_fill_from_values s : forall last x,
  In x (forward_fill_from last s) -> x = last \/ In x s.
Proof.
  induction s as [|[v|] s IH]; intros last x; simpl.
  - tauto.
  - intros [<-|H]; [tauto|]. apply IH in H as [->|H]; tauto.
  - intros [<-|H]; [tauto|]. apply IH in H as [->|H]; tauto.
Qed.

(** Once a value is carried, no entry is left undefined. *)
Lemma forward_fill_from_defined s : forall v i,
  (i < length s)%nat -> nth i (forward_fill_from (Some v) s) None <> None.
Proof.
  induction s as [|[w|] s IH]; intros v [|i] Hi; simpl in *;
    try lia; try discriminate; apply IH; lia.
Qed.

Lemma forward_fill_from_latch s : forall last i j,
  (i <= j < length s)%nat ->
  nth i (forward_fill_from last s) None <> None ->
  nth j (forward_fill_from last s) None <> None.
Proof.
  induction s as [|[w|] s IH]; intros last i j Hij Hi; simpl in *; try lia.
  - destruct j as [|j]; [discriminate|].
    apply forward_fill_from_defined; lia.
  - destruct last as [v|].
    + destruct j as [|j]; [discriminate|].
      apply forward_fill_from_defined; lia.
    + destruct i as [|i]; [congruence|].
      destruct j as [|j]; [lia|].
      apply (IH None i j); [lia | assumption].
Qed.

End ForwardFill.

Lemma raw_signal_values osc : Forall signal_value (raw_signal osc).
Proof.
  apply Forall_map2. intros [[|]|] [[|]|]; unfold signal_value; simpl; auto.
Qed.

Lemma signal_values osc : Forall signal_value (signal osc).
Proof.
  apply Forall_forall. intros x Hx.
  apply forward_fill_from_values in Hx as [->|Hx].
  - unfold signal_value; auto.
  - pose proof (raw_signal_values osc) as H.
    rewrite Forall_forall in H; auto.
Qed.

Lemma signal_latch osc : undefined_only_as_prefix (signal osc).
Proof.
  unfold undefined_only_as_prefix; unfold signal, forward_fill.
  intros i j Hij.
  pose proof (forward_fill_from_length (raw_signal osc) None) as Hlen.
  apply forward_fill_from_latch. lia.
Qed.

(** C2. Every entry of the series returned by ProbTrend, eager or lazy, is
    +1.0, -1.0 or undefined, and the undefined entries form a contiguous
    prefix: after the first defined entry every later entry is defined. *)
Theorem ProbTrend_signal_latch (ta : TaLib) (df : DataFrame) (p : Params)
  (s : series) :
  Eager.ProbTrend ta df p = Ok s \/ Lazy.ProbTrend ta df p = Ok s ->
  Forall signal_value s /\ undefined_only_as_prefix s.
Proof.
  unfold Eager.ProbTrend, Lazy.ProbTrend.
  intros [H|H].
  - destruct (Eager.combinedOscillatorValue ta df p) as [osc|e];
      simpl in H; [|discriminate].
    injection H as <-. split; [apply signal_values | apply signal_latch].
  - destruct (Lazy.combinedOscillatorValue ta df p) as [osc|e];
      simpl in H; [|discriminate].
    injection H as <-. split; [apply signal_values | apply signal_latch].
Qed.

Lemma ProbTrend_signal_latch_witness :
  let s := [null; null; lit 1; lit (-1); lit (-1); lit (-1)] in
  Eager.ProbTrend TaRef.talib falling (short_params 1 1 1 1 1) = Ok s /\
  Forall signal_value s /\ undefined_only_as_prefix s.
Proof.
  split; [vm_compute; reflexivity|].
  apply (ProbTrend_signal_latch TaRef.talib falling (short_params 1 1 1 1 1)).
  left. vm_compute. reflexivity.
Defined.

(** ** Rolling windows (C5) *)

Section Windows.
Context {A : Type}.

Lemma firstn_nth (d : A) (s : list A) : forall b,
  (b <= length s)%nat ->
  firstn b s = map (fun j => nth j s d) (seq 0 b).
Proof.
  induction s as [|x s IH]; intros [|b] Hb; simpl in *; try lia; auto.
  rewrite <- seq_shift, map_map. f_equal. apply IH. lia.
Qed.

(** The window ending at bar [i], by position. *)
Lemma window_nth (d : A) (w : nat) (s : list A) (i : nat) :
  (i < length s)%nat ->
  window w (firstn (S i) s) =
  if (S i <? w)%nat then None
  else Some (map (fun j => nth j s d) (seq (S i - w) w)).
Proof.
  intros Hi. unfold window.
  rewrite length_firstn, Nat.min_l by lia.
  destruct (S i <? w)%nat eqn:E; [reflexivity|].
  apply Nat.ltb_ge in E.
  rewrite (firstn_nth d) by lia.
  rewrite skipn_map, skipn_seq. do 3 f_equal. lia.
Qed.

End Windows.

Example available_window_sum_example :
  map (available_window_sum 2 [true; true; true]) [0; 1; 2]%nat
  = [1; 2; 2]%Z.
Proof. reflexivity. Qed.

Lemma nth_error_map_seq {B} (f : nat -> B) (n i : nat) :
  nth_error (map f (seq 0 n)) i = if (i <? n)%nat then Some (f i) else None.
Proof.
  rewrite nth_error_map, nth_error_seq. destruct (i <? n)%nat; reflexivity.
Qed.

(** The partial window at the first bar is padded with null, where the
    specification's wording gives the sum of the one available sample. *)
Lemma rolling_sum_partial_window_undefined :
  nth_error (rolling_sum 2 (map Some [true; true; true])) 0
  <> Some (lit (inject_Z (available_window_sum 2 [true; true; true] 0))).
Proof. vm_compute. discriminate. Qed.

(** C5, as the code has it. [rolling_sum] at bar [i] is undefined when the
    window [i-w+1, i] starts before the first bar or holds an undefined
    sample; otherwise it is the number of true samples among the [w]
    samples of the window. *)
Theorem rolling_sum_full_windows (w : nat) (s : bseries) (i : nat) :
  (i < length s)%nat ->
  nth_error (rolling_sum w s) i =
  Some (if (S i <? w)%nat then null
        else lift1 (fun win => fin (inject_Z (count_true win)))
               (all_some (map (fun j => nth j s None) (seq (S i - w) w)))).
Proof.
  intros Hi. unfold rolling_sum.
  rewrite nth_error_map_seq.
  apply Nat.ltb_lt in Hi as Hi'. rewrite Hi'. f_equal.
  unfold full_window.
  rewrite (window_nth None w s i Hi).
  destruct (S i <? w)%nat; reflexivity.
Qed.

Lemma rolling_sum_full_windows_witness :
  nth_error (rolling_sum 2 [Some true; Some true; Some false; None]) 2
  = Some (lit 1).
Proof.
  rewrite (rolling_sum_full_windows 2 [Some true; Some true; Some false; None] 2).
  - reflexivity.
  - simpl; lia.
Defined.

(** ** Rational arithmetic under [fin] *)

Lemma fin_eq (a b : Q) : a == b -> fin a = fin b.
Proof. intros H. unfold fin. f_equal. apply Qred_complete, H. Qed.

Lemma Qeq_bool_false (a b : Q) : ~ a == b -> Qeq_bool a b = false.
Proof.
  intros H. destruct (Qeq_bool a b) eqn:E; [|reflexivity].
  apply Qeq_bool_eq in E. contradiction.
Qed.

Lemma Qeq_bool_true (a b : Q) : a == b -> Qeq_bool a b = true.
Proof. apply Qeq_bool_iff. Qed.

(** ** The exponentially weighted mean (C6) *)

Example ewm_hold_example :
  ewm_hold (1 # 3) None [lit 10; null; lit 20]
  = [lit 10; lit 10; lit (40 # 3)].
Proof. reflexivity. Qed.

Example ewm_mean_example :
  ewm_mean (1 # 3) [lit 10; null; lit 20] = [lit 10; null; lit (100 # 7)].
Proof. reflexivity. Qed.

(** On [10, undefined, 20] with alpha = 1/3 the code's moving average is
    not the held series [10, 10, 13.3333]: the second entry is undefined and
    the third is 100/7. *)
Lemma ewm_mean_does_not_hold :
  ewm_mean (1 # 3) [lit 10; null; lit 20]
  <> ewm_hold (1 # 3) None [lit 10; null; lit 20].
Proof. vm_compute. discriminate. Qed.

Lemma ewm_step_finite (alpha e b : Q) :
  ewm_step alpha false (Some (Fin e, 1)) (Some (Fin b))
  = (Some (fin (alpha * b + (1 - alpha) * e), 1),
     Some (fin (alpha * b + (1 - alpha) * e))).
Proof.
  unfold ewm_step, fmul, fadd, fdiv, fin.
  rewrite Qeq_bool_false.
  - match goal with
    | |- (Some (Fin ?A, _), _) = (Some (Fin ?B, _), _) =>
        assert (E : A = B)
    end.
    { apply Qred_complete. rewrite !Qred_correct. field.
      intros H. ring_simplify in H. discriminate. }
    rewrite E. reflexivity.
  - rewrite Qred_correct. intros H. ring_simplify in H. discriminate.
Qed.

Lemma ewm_scan_null (alpha : Q) (s : series) : forall st i,
  nth_error s i = Some null ->
  nth_error (ewm_scan alpha false st s) i = Some null.
Proof.
  induction s as [|x s IH]; intros st [|i] H; simpl in *; try discriminate.
  - injection H as ->. destruct st as [[avg w]|]; reflexivity.
  - destruct (ewm_step alpha false st x) as [st' y]. simpl. apply IH, H.
Qed.

Lemma ewm_scan_seed (alpha : Q) (s : series) : forall i v,
  (forall j, (j < i)%nat -> nth_error s j = Some null) ->
  nth_error s i = Some (Some v) ->
  nth_error (ewm_scan alpha false None s) i = Some (Some v).
Proof.
  induction s as [|x s IH]; intros [|i] v Hnull H; simpl in *;
    try discriminate.
  - injection H as ->. reflexivity.
  - assert (Hx : x = null).
    { specialize (Hnull 0%nat ltac:(lia)). simpl in Hnull. congruence. }
    subst x. simpl. apply IH; [|assumption].
    intros j Hj. apply (Hnull (S j)). lia.
Qed.

Lemma ewm_scan_recurrence (alpha : Q) (s : series) : forall st i a b e,
  nth_error s i = Some (Some (Fin a)) ->
  nth_error s (S i) = Some (Some (Fin b)) ->
  nth_error (ewm_scan alpha false st s) i = Some (Some (Fin e)) ->
  nth_error (ewm_scan alpha false st s) (S i)
  = Some (Some (fin (alpha * b + (1 - alpha) * e))).
Proof.
  induction s as [|x s IH]; intros st [|i] a b e Ha Hb He; simpl in *;
    try discriminate.
  - injection Ha as ->. destruct s as [|y s]; [discriminate|].
    simpl in Hb. injection Hb as ->.
    assert (Hst : ewm_step alpha false st (Some (Fin a))
                  = (Some (Fin e, 1), Some (Fin e))).
    { destruct st as [[avg w]|]; simpl in *.
      - injection He as He. rewrite He. reflexivity.
      - injection He as ->. reflexivity. }
    rewrite Hst. cbn [ewm_scan nth_error]. rewrite ewm_step_finite. reflexivity.
  - destruct (ewm_step alpha false st x) as [st' y]. simpl in *.
    eapply IH; eauto.
Qed.

(** C6, as the code has it. The moving average is undefined up to the first
    defined input, is seeded with that input, is undefined again at every
    undefined input (the carried average is kept, not emitted), and between
    two consecutive defined inputs follows
    e[i+1] = alpha*x[i+1] + (1-alpha)*e[i]; with alpha = 1/3 the input
    [10, undefined, 20] yields [10, undefined, 100/7]. *)
Theorem ewm_mean_recurrence (alpha : Q) (s : series) :
  (forall i, nth_error s i = Some null ->
             nth_error (ewm_mean alpha s) i = Some null) /\
  (forall i v, (forall j, (j < i)%nat -> nth_error s j = Some null) ->
               nth_error s i = Some (Some v) ->
               nth_error (ewm_mean alpha s) i = Some (Some v)) /\
  (forall i a b e,
      nth_error s i = Some (Some (Fin a)) ->
      nth_error s (S i) = Some (Some (Fin b)) ->
      nth_error (ewm_mean alpha s) i = Some (Some (Fin e)) ->
      nth_error (ewm_mean alpha s) (S i)
      = Some (Some (fin (alpha * b + (1 - alpha) * e)))) /\
  ewm_mean (1 # 3) [lit 10; null; lit 20] = [lit 10; null; lit (100 # 7)].
Proof.
  unfold ewm_mean. repeat split.
  - intros i. apply ewm_scan_null.
  - intros i v. apply ewm_scan_seed.
  - intros i a b e. apply ewm_scan_recurrence.
Qed.

Lemma ewm_mean_recurrence_witness :
  nth_error (ewm_mean (1 # 2) [null; lit 2; lit 5]) 2 = Some (lit (7 # 2)).
Proof.
  destruct (ewm_mean_recurrence (1 # 2) [null; lit 2; lit 5])
    as (_ & _ & Hrec & _).
  apply (Hrec 1%nat 2 5 2); reflexivity.
Defined.

(** ** The two-tap kernel filter (C7) *)

Example ratQ_example :
  _ratQ [lit 2; lit 4] 43 = Ok [null; lit (22192 # 7397)].
Proof. reflexivity. Qed.

(** On the window [2, 4] with lookback 43 the filter gives 22192/7397, about
    3.00014: the weighted mean, not the weighted sum 5.99946. *)
Lemma ratQ_is_not_the_weighted_sum :
  _ratQ [lit 2; lit 4] 43 = Ok [null; lit (22192 # 7397)] /\
  ~ Qabs ((22192 # 7397) - (599946 # 100000)) <= 1 # 1000.
Proof.
  split; [reflexivity|].
  intros H. vm_compute in H. apply H. reflexivity.
Qed.

Lemma inject_Z_square_pos (z : Z) : z <> 0%Z -> 0 < inject_Z (z * z).
Proof.
  intros H. change 0 with (inject_Z 0). rewrite <- Zlt_Qlt. nia.
Qed.

Lemma kernel_weight_ok (lookback k : Z) :
  lookback <> 0%Z ->
  exists w, kernel_weight lookback k = Ok w /\
            w == rational_quadratic lookback k /\ 0 < w.
Proof.
  intros HL. pose proof (inject_Z_square_pos lookback HL) as Hpos.
  assert (Hk : 0 <= inject_Z (k * k)).
  { change 0 with (inject_Z 0). rewrite <- Zle_Qle. nia. }
  unfold kernel_weight, py_div.
  rewrite Qeq_bool_false by lra.
  eexists; split; [reflexivity|].
  assert (Hd : 0 < 1 + inject_Z (k * k) / (inject_Z (lookback * lookback) * 2)).
  { apply Qlt_le_trans with 1; [reflexivity|].
    rewrite <- (Qplus_0_r 1) at 1. apply Qplus_le_r.
    apply Qle_shift_div_l; lra. }
  split.
  - unfold rational_quadratic. rewrite !inject_Z_mult.
    apply Qinv_comp. field. intros E.
    rewrite inject_Z_mult in Hpos. nra.
  - apply Qinv_lt_0_compat, Hd.
Qed.

Lemma rolling_mean_first (weights : list Q) (s : series) :
  (2 <= length weights)%nat -> s <> [] ->
  nth_error (rolling_mean_weighted weights s) 0 = Some null.
Proof.
  intros Hw Hs. unfold rolling_mean_weighted.
  rewrite nth_error_map_seq.
  destruct s as [|x s]; [contradiction|]. simpl.
  unfold full_window, window. simpl.
  destruct (length weights) as [|[|n]]; simpl in *; try lia. reflexivity.
Qed.

Lemma rolling_mean_two_taps (w1 w0 : Q) (s : series) (i : nat) (a b : Q) :
  ~ w1 + w0 == 0 ->
  nth_error s i = Some (Some (Fin a)) ->
  nth_error s (S i) = Some (Some (Fin b)) ->
  nth_error (rolling_mean_weighted [w1; w0] s) (S i)
  = Some (lit ((w1 * a + w0 * b) / (w1 + w0))).
Proof.
  intros Hw Ha Hb. unfold rolling_mean_weighted.
  assert (Hi : (S i < length s)%nat).
  { apply nth_error_Some. congruence. }
  rewrite nth_error_map_seq.
  apply Nat.ltb_lt in Hi as Hi'. rewrite Hi'. f_equal.
  unfold full_window. rewrite (window_nth None _ s (S i) Hi).
  change (length [w1; w0]) with 2%nat.
  replace (S (S i) - 2)%nat with i by lia.
  change (S (S i) <? 2)%nat with false. cbn [seq map].
  rewrite (nth_error_nth s i None Ha), (nth_error_nth s (S i) None Hb).
  cbn [all_some fold_right lift2 lift1 map2 fsum fold_left fmul].
  unfold lit, fin. cbn [fadd]. unfold fin. cbn [fadd]. unfold fin.
  do 2 f_equal.
  apply Qred_complete. rewrite !Qred_correct. field.
  intros E. apply Hw. rewrite <- E. ring.
Qed.

(** C7, as the code has it. With kernel weights
    w(k) = (1 + k^2/(2 lookback^2))^-1 at taps 1 and 0, the filter is null
    at the first bar and afterwards the normalised mean
    (w(1)*s[i-1] + w(0)*s[i]) / (w(1) + w(0)) of the inputs with NaN and
    null replaced by 0; for lookback 43, w(1) = 3698/3699 (0.999730 to six
    places), w(0) = 1, and the window [2, 4] gives 22192/7397, about
    3.00014. *)
Theorem ratQ_normalised_mean (lookback : Z) (s : series) :
  lookback <> 0%Z ->
  let w_prev := rational_quadratic lookback 1 in
  let w_cur := rational_quadratic lookback 0 in
  let filled := fill_null (fin 0) (fill_nan (lit 0) s) in
  (exists out,
     _ratQ s lookback = Ok out /\
     (s <> [] -> nth_error out 0 = Some null) /\
     (forall i a b,
         nth_error filled i = Some (Some (Fin a)) ->
         nth_error filled (S i) = Some (Some (Fin b)) ->
         nth_error out (S i)
         = Some (lit ((w_prev * a + w_cur * b) / (w_prev + w_cur))))) /\
  rational_quadratic 43 1 == 3698 # 3699 /\
  Qabs (rational_quadratic 43 1 - (999730 # 1000000)) <= 1 # 1000000 /\
  rational_quadratic 43 0 == 1 /\
  _ratQ [lit 2; lit 4] 43 = Ok [null; lit (22192 # 7397)] /\
  Qabs ((22192 # 7397) - (300014 # 100000)) <= 1 # 100000.
Proof.
  intros HL w_prev w_cur filled.
  split; [|repeat split; vm_compute; congruence].
  destruct (kernel_weight_ok lookback 1 HL) as (w1 & E1 & Hw1 & Hp1).
  destruct (kernel_weight_ok lookback 0 HL) as (w0 & E0 & Hw0 & Hp0).
  unfold _ratQ. rewrite E1, E0. cbn [bind].
  eexists; split; [reflexivity|]. split.
  - intros Hs. apply rolling_mean_first; [simpl; lia|].
    destruct s; [contradiction | discriminate].
  - intros i a b Ha Hb.
    rewrite (rolling_mean_two_taps w1 w0 _ i a b); [| lra | exact Ha | exact Hb].
    unfold lit. do 2 f_equal. apply fin_eq.
    subst w_prev w_cur. rewrite Hw1, Hw0. reflexivity.
Qed.

Lemma ratQ_normalised_mean_witness :
  exists out, _ratQ [lit 1; null; lit 3] 1 = Ok out /\
              nth_error out 1 = Some (lit (2 # 5)).
Proof.
  destruct (ratQ_normalised_mean 1 [lit 1; null; lit 3]) as [(out & E & _ & H) _].
  - discriminate.
  - exists out. split; [exact E|].
    rewrite (H 0%nat 1 0); reflexivity.
Defined.

(** ** Rounding to even *)

Lemma inject_Z_minus (x y : Z) : inject_Z (x - y) = inject_Z x - inject_Z y.
Proof.
  unfold Z.sub, Qminus. rewrite inject_Z_plus, inject_Z_opp. reflexivity.
Qed.

Lemma Qfloor_unique (z : Z) (q : Q) :
  inject_Z z <= q -> q < inject_Z (z + 1) -> Qfloor q = z.
Proof.
  intros Hle Hlt.
  pose proof (Qfloor_le q) as H1. pose proof (Qlt_floor q) as H2.
  assert (Qfloor q < z + 1)%Z.
  { rewrite Zlt_Qlt. eapply Qle_lt_trans; eauto. }
  assert (z < Qfloor q + 1)%Z.
  { rewrite Zlt_Qlt. eapply Qle_lt_trans; eauto. }
  lia.
Qed.

Lemma round_half_even_comp (x y : Q) :
  x == y -> round_half_even x = round_half_even y.
Proof.
  intros E. unfold round_half_even.
  rewrite (Qfloor_comp x y E).
  assert (E' : x - inject_Z (Qfloor y) == y - inject_Z (Qfloor y))
    by (rewrite E; reflexivity).
  rewrite (Qcompare_comp _ _ E' (1 # 2) (1 # 2) (Qeq_refl _)). reflexivity.
Qed.

(** Rounding to even is symmetric about half an even integer: two numbers
    that add up to an even integer round to numbers that add up to it. *)
Lemma round_half_even_complement (x y : Q) (n : Z) :
  x + y == inject_Z n -> Z.even n = true ->
  (round_half_even x + round_half_even y = n)%Z.
Proof.
  intros Hsum Hn.
  pose proof (Qfloor_le x) as Hlo. pose proof (Qlt_floor x) as Hhi.
  rewrite inject_Z_plus in Hhi. change (inject_Z 1) with 1 in Hhi.
  set (f := Qfloor x) in *.
  assert (Hy : y == inject_Z n - x) by lra.
  unfold round_half_even at 1. fold f.
  destruct (Qcompare_spec (x - inject_Z f) (1 # 2)) as [Hr|Hr|Hr].
  - (* a tie on both sides *)
    assert (Ef : Qfloor y = (n - f - 1)%Z).
    { apply Qfloor_unique;
        rewrite ?inject_Z_plus, !inject_Z_minus; change (inject_Z 1) with 1; lra. }
    unfold round_half_even. rewrite Ef.
    assert (Et : y - inject_Z (n - f - 1) == 1 # 2).
    { rewrite !inject_Z_minus. change (inject_Z 1) with 1. lra. }
    rewrite (proj1 (Qeq_alt _ _) Et).
    replace (n - f - 1)%Z with (n - (f + 1))%Z by lia.
    rewrite Z.even_sub, Hn, Z.even_add. simpl.
    destruct (Z.even f); simpl; lia.
  - (* x rounds down: y rounds up, or both are integers *)
    destruct (Qeq_dec x (inject_Z f)) as [Hx|Hx].
    + assert (Ef : Qfloor y = (n - f)%Z).
      { apply Qfloor_unique;
          rewrite ?inject_Z_plus, !inject_Z_minus; change (inject_Z 1) with 1; lra. }
      unfold round_half_even. rewrite Ef.
      assert (Et : y - inject_Z (n - f) < 1 # 2).
      { rewrite !inject_Z_minus. lra. }
      rewrite (proj1 (Qlt_alt _ _) Et). lia.
    + assert (Hgt : inject_Z f < x).
      { apply Qle_lteq in Hlo as [H|H]; [exact H|]. symmetry in H. contradiction. }
      assert (Ef : Qfloor y = (n - f - 1)%Z).
      { apply Qfloor_unique;
          rewrite ?inject_Z_plus, !inject_Z_minus; change (inject_Z 1) with 1; lra. }
      unfold round_half_even. rewrite Ef.
      assert (Et : 1 # 2 < y - inject_Z (n - f - 1)).
      { rewrite !inject_Z_minus. change (inject_Z 1) with 1. lra. }
      rewrite (proj1 (Qgt_alt _ _) Et). lia.
  - (* x rounds up: y rounds down *)
    assert (Ef : Qfloor y = (n - f - 1)%Z).
    { apply Qfloor_unique;
        rewrite ?inject_Z_plus, !inject_Z_minus; change (inject_Z 1) with 1; lra. }
    unfold round_half_even. rewrite Ef.
    assert (Et : y - inject_Z (n - f - 1) < 1 # 2).
    { rewrite !inject_Z_minus. change (inject_Z 1) with 1. lra. }
    rewrite (proj1 (Qlt_alt _ _) Et). lia.
Qed.

(** ** The probability pairs (C8) *)

Lemma rolling_sum_counts (w : nat) (s : bseries) :
  Forall count_cell (rolling_sum w s).
Proof.
  unfold rolling_sum. apply Forall_forall. intros c Hc.
  apply in_map_iff in Hc as (i & <- & _).
  destruct (full_window w (firstn (S i) s)) as [win|]; simpl.
  - right. exists (count_true win). split; [|reflexivity].
    unfold count_true. lia.
  - left. reflexivity.
Qed.

Lemma safe_cell (x : cell) :
  c_when (c_eq x (lit 0)) null x = c_replace_zero_null x.
Proof.
  destruct x as [f|]; simpl; [|reflexivity].
  destruct (feq f (fin 0)); reflexivity.
Qed.

Lemma safe_replace_zero_null (s : series) : Lazy.safe s = replace_zero_null s.
Proof.
  unfold Lazy.safe, replace_zero_null. apply map_ext. intros; apply safe_cell.
Qed.

Lemma Eager_probability_cells (trends total : series) :
  Eager.probability trends total = map2 c_probability trends total.
Proof.
  unfold Eager.probability, fill_null, round2, mul_lit, replace_zero_null.
  revert total; induction trends as [|u us IH]; intros [|t ts]; simpl;
    try reflexivity.
  f_equal. apply IH.
Qed.

Lemma Lazy_probability_cells (trends total : series) :
  Lazy.probability trends total = map2 c_probability trends total.
Proof.
  unfold Lazy.probability. rewrite safe_replace_zero_null.
  apply Eager_probability_cells.
Qed.

Lemma c_probability_zero_total (u : cell) (t : Q) :
  t == 0 -> c_probability u (Some (Fin t)) = lit 0.
Proof.
  intros Ht. unfold c_probability, c_replace_zero_null, feq, fcompare, fin.
  assert (E : (t ?= Qred 0) = Eq).
  { apply Qeq_alt. rewrite Qred_correct. exact Ht. }
  rewrite E. destruct u; reflexivity.
Qed.

Lemma c_probability_null_total (u : cell) : c_probability u null = lit 0.
Proof. destruct u; reflexivity. Qed.

Lemma c_probability_positive_total (a t : Q) :
  ~ t == 0 ->
  c_probability (Some (Fin a)) (Some (Fin t))
  = Some (fin (inject_Z (round_half_even (Qred (Qred (a / t) * Qred 100) * 100))
               / 100)).
Proof.
  intros Ht. unfold c_probability, c_replace_zero_null, feq, fcompare, fin.
  assert (E : (t ?= Qred 0) <> Eq).
  { intros E. apply Qeq_alt in E. rewrite Qred_correct in E. contradiction. }
  destruct (t ?= Qred 0); try contradiction;
    simpl; rewrite (Qeq_bool_false t 0 Ht); reflexivity.
Qed.

(** With a positive total the two rounded percentages add up to 100. *)
Lemma c_probability_pair (n m : Z) :
  (0 <= n)%Z -> (0 <= m)%Z -> (0 < n + m)%Z ->
  let t := c_add (lit (inject_Z n)) (lit (inject_Z m)) in
  c_add (c_probability (lit (inject_Z n)) t) (c_probability (lit (inject_Z m)) t)
  = lit 100.
Proof.
  intros Hn Hm Hnm t. subst t.
  assert (Hq : 0 < inject_Z n + inject_Z m).
  { rewrite <- inject_Z_plus. change 0 with (inject_Z 0).
    rewrite <- Zlt_Qlt. exact Hnm. }
  unfold lit. cbn [c_add lift2 fadd]. unfold fin at 1 2 3 4 5.
  assert (Ht : ~ Qred (Qred (inject_Z n) + Qred (inject_Z m)) == 0).
  { rewrite !Qred_correct. lra. }
  rewrite !(c_probability_positive_total _ _ Ht).
  cbn [c_add lift2 fadd fin]. unfold fin. do 2 f_equal.
  apply Qred_complete.
  repeat match goal with
         | |- context [Qred (inject_Z ?z / ?d)] =>
             rewrite (Qred_correct (inject_Z z / d))
         end.
  match goal with
  | |- inject_Z (round_half_even ?x) / _ + inject_Z (round_half_even ?y) / _ == _ =>
      assert (E : (round_half_even x + round_half_even y = 10000)%Z)
  end.
  { apply round_half_even_complement; [|reflexivity].
    rewrite !Qred_correct. change (inject_Z 10000) with 10000. field. lra. }
  match goal with
  | |- inject_Z ?a / _ + inject_Z ?b / _ == _ =>
      setoid_replace (inject_Z a / 100 + inject_Z b / 100)
        with (inject_Z (a + b) / 100)
        by (rewrite inject_Z_plus; field)
  end.
  rewrite E. reflexivity.
Qed.

Lemma bind_Ok {A B} (c : result A) (k : A -> result B) (b : B) :
  bind c k = Ok b -> exists a, c = Ok a /\ k a = Ok b.
Proof. destruct c as [a|e]; simpl; [eauto | discriminate]. Qed.

Ltac inv_bind :=
  repeat match goal with
         | H : bind _ _ = Ok _ |- _ =>
             let a := fresh "r" in
             let E := fresh "E" in
             apply bind_Ok in H as (a & E & H); cbv beta zeta in H
         | H : context [let '(_, _) := ?x in _] |- _ => destruct x
         end.

Lemma lagged_count_counts (lookback : Z) (cond : bseries) (s : series) :
  lagged_count lookback cond = Ok s -> Forall count_cell s.
Proof.
  unfold lagged_count, window_size.
  destruct (lookback <? 0)%Z; simpl; [discriminate|].
  intros [= <-]. apply rolling_sum_counts.
Qed.

Lemma when_counts (cmp : cell -> cell -> bcell) (plus minus rolled : series) :
  Forall count_cell rolled ->
  Forall count_cell
    (map3 (fun pl mi r => c_when (cmp pl mi) r (lit 0)) plus minus rolled).
Proof.
  assert (Hzero : count_cell (lit 0)).
  { right. exists 0%Z. split; [lia | reflexivity]. }
  intros H; revert plus minus.
  induction H as [|r rolled Hr _ IH]; intros [|x plus] [|y minus]; simpl;
    constructor; auto.
  destruct (cmp x y) as [[|]|]; simpl; assumption.
Qed.

Lemma Eager_trends_counts ta df p k up down :
  Eager.trends ta df p k = Ok (up, down) ->
  Forall count_cell up /\ Forall count_cell down.
Proof.
  destruct k; unfold Eager.trends; intros H; inv_bind;
    injection H as <- <-;
    split; try apply when_counts; eauto using lagged_count_counts.
Qed.

Lemma Lazy_trends_counts ta df p k up down :
  Lazy.trends ta df p k = Ok (up, down) ->
  Forall count_cell up /\ Forall count_cell down.
Proof.
  destruct k; unfold Lazy.trends; intros H; inv_bind;
    injection H as <- <-;
    split; try apply when_counts; eauto using lagged_count_counts.
Qed.

Lemma count_cells_pair_ok (u d : cell) :
  count_cell u -> count_cell d ->
  probability_pair_ok u d (c_probability u (c_add u d))
                          (c_probability d (c_add u d)).
Proof.
  intros [->|(n & Hn & ->)] [->|(m & Hm & ->)] t Ht; try discriminate.
  split.
  - intros Hpos. left. apply c_probability_pair; try assumption.
    change (Some (Fin (Qred (Qred (inject_Z n) + Qred (inject_Z m))))
            = Some (Fin t)) in Ht.
    assert (Et : Qred (Qred (inject_Z n) + Qred (inject_Z m)) = t)
      by congruence.
    rewrite <- Et, !Qred_correct, <- inject_Z_plus in Hpos.
    change 0 with (inject_Z 0) in Hpos. rewrite <- Zlt_Qlt in Hpos. exact Hpos.
  - intros Hz. rewrite Ht. split; apply c_probability_zero_total; exact Hz.
Qed.

Lemma probabilities_pair_ok (up down : series) :
  Forall count_cell up -> Forall count_cell down ->
  forall i u d a b,
    nth_error up i = Some u -> nth_error down i = Some d ->
    nth_error (map2 c_probability up (map2 c_add up down)) i = Some a ->
    nth_error (map2 c_probability down (map2 c_add up down)) i = Some b ->
    probability_pair_ok u d a b.
Proof.
  intros Hup Hdown i u d a b Hu Hd Ha Hb.
  apply nth_error_map2 in Ha as (u' & t & Hu' & Ht & ->).
  apply nth_error_map2 in Hb as (d' & t' & Hd' & Ht' & ->).
  apply nth_error_map2 in Ht as (u2 & d2 & Hu2 & Hd2 & ->).
  apply nth_error_map2 in Ht' as (u3 & d3 & Hu3 & Hd3 & ->).
  assert (u' = u) by congruence. assert (u2 = u) by congruence.
  assert (u3 = u) by congruence. assert (d' = d) by congruence.
  assert (d2 = d) by congruence. assert (d3 = d) by congruence. subst.
  apply count_cells_pair_ok.
  - rewrite Forall_forall in Hup. eapply Hup, nth_error_In, Hu.
  - rewrite Forall_forall in Hdown. eapply Hdown, nth_error_In, Hd.
Qed.


Example probability_thirds :
  c_probability (lit 1) (lit 3) = lit (3333 # 100) /\
  c_probability (lit 2) (lit 3) = lit (6667 # 100).
Proof. split; reflexivity. Qed.

Example probability_tie :
  c_probability (lit 1) (lit 32) = lit (312 # 100) /\
  c_probability (lit 31) (lit 32) = lit (9688 # 100).
Proof. split; reflexivity. Qed.


(** ** The CCI sub-indicator reads the close column only (C10) *)

(** C10. CCI is evaluated with the close series as high, low and close: for
    two frames that agree on every column except high and low, the pair
    (probabilityUpwardCCI, probabilityDownwardCCI) is the same, in the
    eager and in the lazy file. *)
Theorem cci_ignores_high_low (ta : TaLib) (df1 df2 : DataFrame) (p : Params) :
  col_open df1 = col_open df2 ->
  col_close df1 = col_close df2 ->
  col_volume df1 = col_volume df2 ->
  Eager.probabilities ta df1 p CCI = Eager.probabilities ta df2 p CCI /\
  Lazy.probabilities ta df1 p CCI = Lazy.probabilities ta df2 p CCI.
Proof.
  intros _ Hclose _.
  unfold Eager.probabilities, Lazy.probabilities, Eager.trends, Lazy.trends.
  rewrite Hclose. split; reflexivity.
Qed.

Lemma cci_ignores_high_low_witness :
  col_high falling <> col_high falling_wide /\
  Eager.probabilities TaRef.talib falling (short_params 1 1 1 1 1) CCI
  = Eager.probabilities TaRef.talib falling_wide (short_params 1 1 1 1 1) CCI.
Proof.
  split; [discriminate|].
  apply (cci_ignores_high_low TaRef.talib falling falling_wide
           (short_params 1 1 1 1 1)); reflexivity.
Defined.

(** ** Which configurations are refused (C9) *)

Lemma window_size_ok (n : Z) : (0 <= n)%Z -> window_size n = Ok (Z.to_nat n).
Proof.
  intros H. unfold window_size.
  destruct (n <? 0)%Z eqn:E; [apply Z.ltb_lt in E; lia | reflexivity].
Qed.

Lemma window_size_negative (n : Z) :
  (n < 0)%Z -> window_size n = Err InvalidArgument.
Proof.
  intros H. unfold window_size. apply Z.ltb_lt in H. rewrite H. reflexivity.
Qed.

Lemma ewm_alpha_ok (n : Z) : (0 < n)%Z -> ewm_alpha n = Ok (1 / inject_Z n).
Proof.
  intros H. unfold ewm_alpha, py_div.
  assert (Hq : 1 <= inject_Z n).
  { change 1 with (inject_Z 1). rewrite <- Zle_Qle. lia. }
  rewrite Qeq_bool_false by lra. cbn [bind].
  assert (Hpos : 0 < 1 / inject_Z n).
  { apply Qlt_shift_div_l; lra. }
  assert (Hle : 1 / inject_Z n <= 1).
  { apply Qle_shift_div_r; lra. }
  destruct (Qle_bool (1 / inject_Z n) 0) eqn:E0.
  - apply Qle_bool_iff in E0. lra.
  - apply Qle_bool_iff in Hle. rewrite Hle. reflexivity.
Qed.

Lemma ewm_alpha_negative (n : Z) :
  (n < 0)%Z -> ewm_alpha n = Err InvalidArgument.
Proof.
  intros H. unfold ewm_alpha, py_div.
  assert (Hq : inject_Z n < 0).
  { change 0 with (inject_Z 0). rewrite <- Zlt_Qlt. lia. }
  rewrite Qeq_bool_false by lra. cbn [bind].
  assert (Hneg : 1 / inject_Z n <= 0).
  { assert (Hinv : 0 < / (- inject_Z n)) by (apply Qinv_lt_0_compat; lra).
    setoid_replace (1 / inject_Z n) with (- / (- inject_Z n))
      by (field; lra).
    lra. }
  apply Qle_bool_iff in Hneg. rewrite Hneg. reflexivity.
Qed.

Lemma kernel_weight_zero (k : Z) : kernel_weight 0 k = Err ZeroDivisionError.
Proof. reflexivity. Qed.

Ltac unfold_ProbTrend :=
  unfold Eager.ProbTrend, Lazy.ProbTrend,
    Eager.combinedOscillatorValue, Lazy.combinedOscillatorValue,
    Eager.probabilities, Lazy.probabilities, Eager.trends, Lazy.trends,
    Eager._internal_ProbTrend_adx, Lazy._internal_ProbTrend_adx,
    Eager._internal_ProbTrend_dirmov, Lazy._internal_ProbTrend_dirmov,
    smoothed, _ratQ, lagged_count.

Section Configuration.
Context (ta : TaLib) (df : DataFrame) (p : Params).

Lemma ProbTrend_lookback_zero :
  lookbackPeriod p = 0%Z ->
  Eager.ProbTrend ta df p = Err ZeroDivisionError /\
  Lazy.ProbTrend ta df p = Err ZeroDivisionError.
Proof.
  intros H. unfold_ProbTrend. rewrite H, !kernel_weight_zero.
  split; reflexivity.
Qed.

Lemma ProbTrend_lookback_negative :
  (lookbackPeriod p < 0)%Z ->
  Eager.ProbTrend ta df p = Err InvalidArgument /\
  Lazy.ProbTrend ta df p = Err InvalidArgument.
Proof.
  intros H.
  destruct (kernel_weight_ok (lookbackPeriod p) 1) as (w1 & E1 & _); [lia|].
  destruct (kernel_weight_ok (lookbackPeriod p) 0) as (w0 & E0 & _); [lia|].
  unfold_ProbTrend. rewrite E1, E0, (window_size_negative _ H).
  split; reflexivity.
Qed.

Lemma ProbTrend_adx_refused (e : exn) :
  (0 < lookbackPeriod p)%Z ->
  ewm_alpha (adxPeriod p) = Err e ->
  Eager.ProbTrend ta df p = Err e /\ Lazy.ProbTrend ta df p = Err e.
Proof.
  intros H Ha.
  destruct (kernel_weight_ok (lookbackPeriod p) 1) as (w1 & E1 & _); [lia|].
  destruct (kernel_weight_ok (lookbackPeriod p) 0) as (w0 & E0 & _); [lia|].
  unfold_ProbTrend. rewrite E1, E0, window_size_ok, Ha by lia.
  split; reflexivity.
Qed.

Lemma ProbTrend_accepted :
  (0 < lookbackPeriod p)%Z -> (0 < adxPeriod p)%Z ->
  is_ok (Eager.ProbTrend ta df p) = true /\
  is_ok (Lazy.ProbTrend ta df p) = true.
Proof.
  intros H Ha.
  destruct (kernel_weight_ok (lookbackPeriod p) 1) as (w1 & E1 & _); [lia|].
  destruct (kernel_weight_ok (lookbackPeriod p) 0) as (w0 & E0 & _); [lia|].
  unfold_ProbTrend. rewrite E1, E0, window_size_ok, ewm_alpha_ok by lia.
  split; reflexivity.
Qed.

End Configuration.




(** ** The directional indicators at a zero smoothed true range (C4) *)

Section ZeroRange.
Context (ta : TaLib) (df : DataFrame) (length : Z) (alpha : Q).
Hypothesis Halpha : ewm_alpha length = Ok alpha.

(** The lazy file: the guarded division gives 0. *)
Lemma Lazy_dirmov_zero_range (plus minus : series) (i : nat) (a b t : Q) :
  Lazy._internal_ProbTrend_dirmov ta df length = Ok (plus, minus) ->
  nth_error (ewm_mean alpha (fill_nan null (plusDM df))) i = Some (Some (Fin a)) ->
  nth_error (ewm_mean alpha (fill_nan null (minusDM df))) i = Some (Some (Fin b)) ->
  nth_error (ewm_mean alpha (fill_nan null (truerange ta df))) i
  = Some (Some (Fin t)) ->
  t == 0 ->
  nth_error plus i = Some (lit 0) /\ nth_error minus i = Some (lit 0).
Proof.
  intros H Ha Hb Ht Hz.
  unfold Lazy._internal_ProbTrend_dirmov in H. rewrite Halpha in H.
  unfold smoothed in H. cbn [bind] in H. injection H as <- <-.
  assert (Hsafe : nth_error
                    (Lazy.safe (ewm_mean alpha (fill_nan null (truerange ta df)))) i
                  = Some null).
  { unfold Lazy.safe. apply nth_error_map_Some. eexists; split; [exact Ht|].
    rewrite safe_cell. unfold c_replace_zero_null, feq, fcompare, fin.
    assert (E : (t ?= Qred 0) = Eq).
    { apply Qeq_alt. rewrite Qred_correct. exact Hz. }
    rewrite E. reflexivity. }
  split; unfold fill_null, mul_lit; apply nth_error_map_Some;
    eexists; (split; [apply nth_error_map2; do 2 eexists;
                      split; [apply nth_error_map_Some; eexists; split;
                              [eassumption | reflexivity]|];
                      split; [exact Hsafe | reflexivity] | reflexivity]).
Qed.

(** The eager file: the unguarded division gives NaN or an infinity, which
    [fill_null] leaves in place. *)
Lemma Eager_dirmov_zero_range (plus minus : series) (i : nat) (a b t : Q) :
  Eager._internal_ProbTrend_dirmov ta df length = Ok (plus, minus) ->
  nth_error (ewm_mean alpha (fill_nan null (plusDM df))) i = Some (Some (Fin a)) ->
  nth_error (ewm_mean alpha (fill_nan null (minusDM df))) i = Some (Some (Fin b)) ->
  nth_error (ewm_mean alpha (fill_nan null (truerange ta df))) i
  = Some (Some (Fin t)) ->
  t == 0 ->
  (exists f, nth_error plus i = Some (Some f) /\ is_finite f = false) /\
  (exists f, nth_error minus i = Some (Some f) /\ is_finite f = false).
Proof.
  intros H Ha Hb Ht Hz.
  unfold Eager._internal_ProbTrend_dirmov in H. rewrite Halpha in H.
  unfold smoothed in H. cbn [bind] in H. injection H as <- <-.
  assert (Hdiv : forall x, is_finite (fdiv (fmul (Fin x) (fin 100)) (Fin t)) = false).
  { intros x. unfold fdiv, fmul, fin. rewrite (Qeq_bool_true t 0 Hz).
    destruct (Qred (x * Qred 100) ?= 0); reflexivity. }
  split.
  - exists (fdiv (fmul (Fin a) (fin 100)) (Fin t)). split; [|apply Hdiv].
    unfold fill_null, mul_lit. apply nth_error_map_Some.
    exists (Some (fdiv (fmul (Fin a) (fin 100)) (Fin t))). split; [|reflexivity].
    apply nth_error_map2. do 2 eexists.
    split; [apply nth_error_map_Some; eexists; split; [exact Ha | reflexivity]|].
    split; [exact Ht | reflexivity].
  - exists (fdiv (fmul (Fin b) (fin 100)) (Fin t)). split; [|apply Hdiv].
    unfold fill_null, mul_lit. apply nth_error_map_Some.
    exists (Some (fdiv (fmul (Fin b) (fin 100)) (Fin t))). split; [|reflexivity].
    apply nth_error_map2. do 2 eexists.
    split; [apply nth_error_map_Some; eexists; split; [exact Hb | reflexivity]|].
    split; [exact Ht | reflexivity].
Qed.

End ZeroRange.

(** C4 on bars that never move. The smoothed true range is 0 from the
    second bar on; the lazy file returns plusDI = minusDI = 0 there, the
    eager file returns NaN. *)
Theorem dirmov_flat_bars :
  Lazy._internal_ProbTrend_dirmov TaRef.talib flat 2
  = Ok ([lit 0; lit 0; lit 0; lit 0], [lit 0; lit 0; lit 0; lit 0]) /\
  Eager._internal_ProbTrend_dirmov TaRef.talib flat 2
  = Ok ([lit 0; Some NaN; Some NaN; Some NaN],
        [lit 0; Some NaN; Some NaN; Some NaN]).
Proof. split; reflexivity. Qed.

(** ** Rescaling the weights (C3) *)

(** C3 on the eager file. With weights (2, 0, 0, 0, 3) the oscillator of the
    falling bars is [0, 0, 60, 20, 20, 20]; with the same weights scaled by
    1/2, that is (1, 0, 0, 0, 1.5), [int] truncates 1.5 to 1 and the
    oscillator is [0, 0, 50, 0, 0, 0]. *)
Theorem Eager_oscillator_changes_under_scaling :
  Eager.combinedOscillatorValue TaRef.talib falling (short_params 2 0 0 0 3)
  = Ok [lit 0; lit 0; lit 60; lit 20; lit 20; lit 20] /\
  Eager.combinedOscillatorValue TaRef.talib falling
    (scale_weights (1 # 2) (short_params 2 0 0 0 3))
  = Ok [lit 0; lit 0; lit 50; lit 0; lit 0; lit 0].
Proof. split; vm_compute; reflexivity. Qed.

Section Scaling.
Context (c : Q).
Hypothesis Hc : 0 < c.

Lemma Qmult_pos_sign (w : Q) :
  (0 < w -> 0 < c * w) /\ (w < 0 -> c * w < 0).
Proof.
  split; intros H.
  - apply Qmult_lt_0_compat; assumption.
  - assert (H1 : 0 < c * (- w)) by (apply Qmult_lt_0_compat; lra).
    assert (H2 : c * (- w) == - (c * w)) by ring.
    lra.
Qed.

Lemma Qcompare_scale (w : Q) : (c * w ?= 0) = (w ?= 0).
Proof.
  destruct (Qcompare_spec w 0) as [H|H|H].
  - apply Qeq_alt. rewrite H. ring.
  - apply Qlt_alt, Qmult_pos_sign, H.
  - apply Qgt_alt, Qmult_pos_sign, H.
Qed.

Lemma Qred_compare_zero (x : Q) : (Qred x ?= 0) = (x ?= 0).
Proof. rewrite (Qred_compare x 0). reflexivity. Qed.

Lemma fmul_scaled (w : Q) (x : float) :
  scaled c (fmul (fin w) x) (fmul (fin (c * w)) x).
Proof.
  destruct x as [q| | |]; unfold fmul, fin, scaled, signed_inf.
  - rewrite !Qred_correct. ring.
  - rewrite !Qred_compare_zero, Qcompare_scale. destruct (w ?= 0); exact I.
  - rewrite !Qred_compare_zero, Qcompare_scale. destruct (w ?= 0); exact I.
  - exact I.
Qed.

Lemma fadd_scaled (x x' y y' : float) :
  scaled c x x' -> scaled c y y' -> scaled c (fadd x y) (fadd x' y').
Proof.
  destruct x, x', y, y'; unfold scaled, fadd, fin; try tauto.
  intros H1 H2. rewrite !Qred_correct, H1, H2. ring.
Qed.

Lemma fdiv_scaled (x x' : float) (t t' : Q) :
  scaled c x x' -> t' == c * t -> fdiv x' (fin t') = fdiv x (fin t).
Proof.
  assert (Hle : Qle_bool 0 (Qred t') = Qle_bool 0 (Qred t) \/ ~ t' == c * t).
  { destruct (Qeq_dec t' (c * t)) as [E|E]; [left | right; exact E].
    destruct (Qle_bool 0 (Qred t')) eqn:E1, (Qle_bool 0 (Qred t)) eqn:E2;
      try reflexivity.
    - apply Qle_bool_iff in E1. rewrite Qred_correct, E in E1.
      assert (Hn : ~ 0 <= Qred t) by (rewrite <- Qle_bool_iff; congruence).
      rewrite Qred_correct in Hn.
      assert (c * t < 0) by (apply Qmult_pos_sign; lra). lra.
    - apply Qle_bool_iff in E2. rewrite Qred_correct in E2.
      assert (Hn : ~ 0 <= Qred t') by (rewrite <- Qle_bool_iff; congruence).
      rewrite Qred_correct, E in Hn.
      apply Qle_lteq in E2 as [E2|E2].
      + assert (0 < c * t) by (apply Qmult_pos_sign; exact E2). lra.
      + exfalso. apply Hn. rewrite <- E2. lra. }
  destruct x as [a| | |], x' as [b| | |]; unfold scaled, fdiv, fin;
    try tauto; intros Hx Ht;
    try (destruct Hle as [-> | Hn]; [reflexivity | contradiction]).
  destruct (Qeq_dec t 0) as [Hz|Hnz].
  - rewrite !Qeq_bool_true by (rewrite Qred_correct; rewrite ?Ht, Hz; ring).
    unfold signed_inf. rewrite (Qcompare_comp _ _ Hx 0 0 (Qeq_refl 0)).
    rewrite Qcompare_scale. reflexivity.
  - assert (Hnz' : ~ t' == 0).
    { rewrite Ht. intros E. apply Qmult_integral in E as [E|E]; [lra | auto]. }
    rewrite !Qeq_bool_false by (rewrite Qred_correct; assumption).
    f_equal. apply Qred_complete. rewrite !Qred_correct, Hx, Ht.
    field. split; [exact Hnz | lra].
Qed.

Lemma lit_mul_scaled (w : Q) (ps : series) :
  Forall2 (cell_scaled c) (lit_mul w ps) (lit_mul (c * w) ps).
Proof.
  unfold lit_mul. induction ps as [|[x|] ps IH]; simpl; constructor; auto.
  - apply fmul_scaled.
  - exact I.
Qed.

Lemma add_scaled (xs xs' ys ys' : series) :
  Forall2 (cell_scaled c) xs xs' -> Forall2 (cell_scaled c) ys ys' ->
  Forall2 (cell_scaled c) (map2 c_add xs ys) (map2 c_add xs' ys').
Proof.
  intros H; revert ys ys'.
  induction H as [|x x' xs xs' Hx _ IH]; intros ys ys' Hy; simpl;
    [constructor|].
  destruct Hy as [|y y' ys ys' Hy Hys]; constructor; auto.
  destruct x, x', y, y'; unfold cell_scaled in *; cbn [c_add lift2];
    try tauto.
  apply fadd_scaled; assumption.
Qed.

Lemma div_lit_scaled (xs xs' : series) (t t' : Q) :
  Forall2 (cell_scaled c) xs xs' -> t' == c * t ->
  div_lit xs' t' = div_lit xs t.
Proof.
  intros H Ht. unfold div_lit.
  induction H as [|x x' xs xs' Hx _ IH]; simpl; [reflexivity|].
  f_equal; [|exact IH].
  destruct x, x'; unfold cell_scaled in *; cbn [c_div lift2 lit];
    try tauto.
  f_equal. apply fdiv_scaled; assumption.
Qed.

Lemma weighted_average_scaled (w1 w2 w3 w4 w5 : Q) (p1 p2 p3 p4 p5 : series) :
  weighted_average (c * w1) (c * w2) (c * w3) (c * w4) (c * w5)
    (c * w1 + c * w2 + c * w3 + c * w4 + c * w5) p1 p2 p3 p4 p5
  = weighted_average w1 w2 w3 w4 w5 (w1 + w2 + w3 + w4 + w5) p1 p2 p3 p4 p5.
Proof.
  unfold weighted_average. apply div_lit_scaled; [|ring].
  repeat apply add_scaled; apply lit_mul_scaled.
Qed.

(** The lazy file keeps the weights as floats: for every input, every
    positive scale factor and every weight assignment, its oscillator is
    unchanged when the five weights are scaled. *)
Lemma Lazy_oscillator_scale_invariant (ta : TaLib) (df : DataFrame)
  (p : Params) :
  Lazy.combinedOscillatorValue ta df (scale_weights c p)
  = Lazy.combinedOscillatorValue ta df p.
Proof.
  unfold Lazy.combinedOscillatorValue.
  change (Lazy.probabilities ta df (scale_weights c p))
    with (Lazy.probabilities ta df p).
  destruct (Lazy.probabilities ta df p Price) as [[pU pD]|e]; [|reflexivity].
  destruct (Lazy.probabilities ta df p RSI) as [[pU1 pD1]|e]; [|reflexivity].
  destruct (Lazy.probabilities ta df p ADX) as [[pU2 pD2]|e]; [|reflexivity].
  destruct (Lazy.probabilities ta df p CCI) as [[pU3 pD3]|e]; [|reflexivity].
  destruct (Lazy.probabilities ta df p VWMA) as [[pU4 pD4]|e]; [|reflexivity].
  cbn [bind]. unfold py_float, scale_weights.
  cbn [weightPrice weightRSI weightADX weightCCI weightVWMA].
  rewrite !weighted_average_scaled. reflexivity.
Qed.

End Scaling.

(** ** The eager and the lazy file (C1) *)


Lemma safe_nonzero (s : series) : Forall nonzero_cell s -> Lazy.safe s = s.
Proof.
  unfold Lazy.safe. induction 1 as [|x s Hx _ IH]; simpl; [reflexivity|].
  f_equal; [|exact IH].
  unfold nonzero_cell in Hx. destruct (c_eq x (lit 0)) as [[|]|];
    [congruence | reflexivity | reflexivity].
Qed.

Lemma lit_nonzero (q : Q) : ~ q == 0 -> nonzero_cell (lit q).
Proof.
  intros H. unfold nonzero_cell, lit, c_eq, lift2, feq, fcompare, fin.
  destruct (Qred q ?= Qred 0) eqn:E; try discriminate.
  apply Qeq_alt in E. rewrite !Qred_correct in E. contradiction.
Qed.

Lemma removelast_Forall {A} (P : A -> Prop) (l : list A) :
  Forall P l -> Forall P (removelast l).
Proof.
  induction 1 as [|x l Hx Hl IH]; simpl; [constructor|].
  destruct l; [constructor | constructor; assumption].
Qed.

Lemma shift1_nonzero (s : series) :
  Forall nonzero_cell s -> Forall nonzero_cell (shift1 s).
Proof.
  intros H. unfold shift1. destruct s as [|x s]; [constructor|].
  constructor; [discriminate | apply removelast_Forall, H].
Qed.

Lemma col_nonzero (df : DataFrame) (c : column) :
  Forall (fun q => ~ q == 0) (get_column df c) ->
  Forall nonzero_cell (col df c).
Proof.
  unfold col. induction 1; simpl; constructor; auto using lit_nonzero.
Qed.

Lemma lit_mul_ext (a b : Q) (s : series) : a == b -> lit_mul a s = lit_mul b s.
Proof. intros H. unfold lit_mul, lit. rewrite (fin_eq a b H). reflexivity. Qed.

Lemma div_lit_ext (a b : Q) (s : series) : a == b -> div_lit s a = div_lit s b.
Proof. intros H. unfold div_lit, lit. rewrite (fin_eq a b H). reflexivity. Qed.

Lemma weighted_average_ext (a1 a2 a3 a4 a5 ta' b1 b2 b3 b4 b5 tb : Q)
  (p1 p2 p3 p4 p5 : series) :
  a1 == b1 -> a2 == b2 -> a3 == b3 -> a4 == b4 -> a5 == b5 -> ta' == tb ->
  weighted_average a1 a2 a3 a4 a5 ta' p1 p2 p3 p4 p5
  = weighted_average b1 b2 b3 b4 b5 tb p1 p2 p3 p4 p5.
Proof.
  intros H1 H2 H3 H4 H5 Ht. unfold weighted_average.
  rewrite (lit_mul_ext a1 b1 _ H1), (lit_mul_ext a2 b2 _ H2),
    (lit_mul_ext a3 b3 _ H3), (lit_mul_ext a4 b4 _ H4),
    (lit_mul_ext a5 b5 _ H5).
  apply div_lit_ext, Ht.
Qed.

Section Agreement.
Context (ta : TaLib) (df : DataFrame) (p : Params).
Hypothesis Hsource :
  Forall (fun q => ~ q == 0) (get_column df (source_col p)).
Hypothesis Hrange :
  forall tr, smoothed_truerange ta df (adxPeriod p) = Ok tr ->
             Forall nonzero_cell tr.

Lemma priceChangePercentage_agree :
  Eager.priceChangePercentage df (source_col p)
  = Lazy.priceChangePercentage df (source_col p).
Proof.
  unfold Eager.priceChangePercentage, Lazy.priceChangePercentage.
  rewrite safe_nonzero; [reflexivity|].
  apply shift1_nonzero, col_nonzero, Hsource.
Qed.

Lemma dirmov_agree :
  Eager._internal_ProbTrend_dirmov ta df (adxPeriod p)
  = Lazy._internal_ProbTrend_dirmov ta df (adxPeriod p).
Proof.
  unfold Eager._internal_ProbTrend_dirmov, Lazy._internal_ProbTrend_dirmov.
  pose proof Hrange as H. unfold smoothed_truerange in H.
  destruct (ewm_alpha (adxPeriod p)) as [alpha|e]; [|reflexivity].
  cbn [bind] in *. unfold smoothed.
  rewrite safe_nonzero by (apply H; reflexivity). reflexivity.
Qed.

Lemma trends_agree (k : indicator) :
  Eager.trends ta df p k = Lazy.trends ta df p k.
Proof.
  destruct k; unfold Eager.trends, Lazy.trends.
  - rewrite priceChangePercentage_agree. reflexivity.
  - reflexivity.
  - unfold Eager._internal_ProbTrend_adx, Lazy._internal_ProbTrend_adx.
    rewrite dirmov_agree. reflexivity.
  - reflexivity.
  - rewrite safe_replace_zero_null. reflexivity.
Qed.

Lemma probabilities_agree (k : indicator) :
  Eager.probabilities ta df p k = Lazy.probabilities ta df p k.
Proof.
  unfold Eager.probabilities, Lazy.probabilities.
  rewrite trends_agree.
  destruct (Lazy.trends ta df p k) as [[up down]|e]; [|reflexivity].
  cbn [bind]. rewrite !Eager_probability_cells, !Lazy_probability_cells.
  reflexivity.
Qed.

Hypothesis HwPrice : integer_weight (weightPrice p).
Hypothesis HwRSI : integer_weight (weightRSI p).
Hypothesis HwADX : integer_weight (weightADX p).
Hypothesis HwCCI : integer_weight (weightCCI p).
Hypothesis HwVWMA : integer_weight (weightVWMA p).

Lemma oscillator_agree :
  Eager.combinedOscillatorValue ta df p = Lazy.combinedOscillatorValue ta df p.
Proof.
  unfold Eager.combinedOscillatorValue, Lazy.combinedOscillatorValue.
  rewrite !probabilities_agree.
  destruct (Lazy.probabilities ta df p Price) as [[pU pD]|e]; [|reflexivity].
  destruct (Lazy.probabilities ta df p RSI) as [[pU1 pD1]|e]; [|reflexivity].
  destruct (Lazy.probabilities ta df p ADX) as [[pU2 pD2]|e]; [|reflexivity].
  destruct (Lazy.probabilities ta df p CCI) as [[pU3 pD3]|e]; [|reflexivity].
  destruct (Lazy.probabilities ta df p VWMA) as [[pU4 pD4]|e]; [|reflexivity].
  cbn [bind]. unfold py_float. unfold integer_weight in *.
  do 2 f_equal; apply weighted_average_ext; try assumption;
    rewrite HwPrice, HwRSI, HwADX, HwCCI, HwVWMA; reflexivity.
Qed.

End Agreement.



(** ** The signal as a function of the oscillator *)

Lemma removelast_length {A} (l : list A) :
  length (removelast l) = pred (length l).
Proof.
  induction l as [|x l IH]; [reflexivity|].
  destruct l as [|y l]; [reflexivity|].
  change (removelast (x :: y :: l)) with (x :: removelast (y :: l)).
  cbn [length] in *. rewrite IH. reflexivity.
Qed.

Lemma shift1_length {A} (s : list (option A)) : length (shift1 s) = length s.
Proof.
  destruct s as [|x s]; [reflexivity|].
  unfold shift1. cbn [length]. rewrite removelast_length. reflexivity.
Qed.

Lemma nth_error_removelast {A} (l : list A) : forall i,
  (S i < length l)%nat -> nth_error (removelast l) i = nth_error l i.
Proof.
  induction l as [|x l IH]; intros i Hi; [simpl in Hi; lia|].
  destruct l as [|y l]; [simpl in Hi; lia|].
  change (removelast (x :: y :: l)) with (x :: removelast (y :: l)).
  destruct i as [|i]; [reflexivity|].
  cbn [nth_error]. apply IH. simpl in *. lia.
Qed.

Lemma nth_error_shift1_first {A} (s : list (option A)) :
  s <> [] -> nth_error (shift1 s) 0 = Some None.
Proof. destruct s; [contradiction | reflexivity]. Qed.

Lemma nth_error_shift1_next {A} (s : list (option A)) (i : nat) :
  (S i < length s)%nat -> nth_error (shift1 s) (S i) = nth_error s i.
Proof.
  intros Hi. destruct s as [|x s]; [simpl in Hi; lia|].
  unfold shift1. cbn [nth_error]. apply nth_error_removelast, Hi.
Qed.

Lemma raw_signal_cells (osc : series) :
  raw_signal osc = map2 raw_signal_cell osc (shift1 osc).
Proof.
  unfold raw_signal, cross_up_cond, cross_down_cond, fill_null.
  generalize (shift1 osc) as prev.
  induction osc as [|o osc IH]; intros [|x prev]; simpl; try reflexivity.
  f_equal. apply IH.
Qed.

Lemma forward_fill_from_at_defined {A} (s : list (option A)) :
  forall last i v,
    nth_error s i = Some (Some v) ->
    nth_error (forward_fill_from last s) i = Some (Some v).
Proof.
  induction s as [|[w|] s IH]; intros last [|i] v H; simpl in *;
    try discriminate; auto.
Qed.

Lemma forward_fill_from_hold {A} (s : list (option A)) :
  forall last i,
    nth_error s (S i) = Some None ->
    nth_error (forward_fill_from last s) (S i)
    = nth_error (forward_fill_from last s) i.
Proof.
  induction s as [|x s IH]; intros last i H; [discriminate|].
  destruct i as [|i].
  - destruct s as [|[w|] s]; simpl in H; try discriminate.
    destruct x; reflexivity.
  - destruct x as [w|]; cbn [forward_fill_from nth_error] in *; apply IH, H.
Qed.

Lemma raw_signal_at (osc : series) (i : nat) (o prev : cell) :
  nth_error osc i = Some o ->
  nth_error (shift1 osc) i = Some prev ->
  nth_error (raw_signal osc) i = Some (raw_signal_cell o prev).
Proof.
  intros Ho Hp. rewrite raw_signal_cells. apply nth_error_map2. eauto.
Qed.

Lemma shift1_at (osc : series) (i : nat) (o : cell) :
  nth_error osc i = Some o -> exists prev, nth_error (shift1 osc) i = Some prev.
Proof.
  intros Ho.
  assert (Hi : (i < length (shift1 osc))%nat).
  { rewrite shift1_length. apply nth_error_Some. congruence. }
  apply nth_error_Some in Hi.
  destruct (nth_error (shift1 osc) i) as [prev|]; [eauto | contradiction].
Qed.

Lemma ProbTrend_run_signal ta df p osc s :
  ProbTrend_run ta df p osc s -> s = signal osc.
Proof.
  unfold ProbTrend_run, Eager.ProbTrend, Lazy.ProbTrend.
  intros [[-> H]|[-> H]]; simpl in H; congruence.
Qed.

Lemma fgt_zero (q : Q) : fgt (Fin q) (fin 0) = true <-> 0 < q.
Proof.
  unfold fgt, fcompare, fin. change (Qred 0) with 0.
  destruct (Qcompare_spec q 0) as [H|H|H]; split; intros E;
    try discriminate; try reflexivity; try lra.
Qed.

Lemma flt_zero (q : Q) : flt (Fin q) (fin 0) = true <-> q < 0.
Proof.
  unfold flt, fcompare, fin. change (Qred 0) with 0.
  destruct (Qcompare_spec q 0) as [H|H|H]; split; intros E;
    try discriminate; try reflexivity; try lra.
Qed.

Lemma feq_zero (q : Q) : feq (Fin q) (fin 0) = true <-> q == 0.
Proof.
  unfold feq, fcompare, fin. change (Qred 0) with 0.
  destruct (Qcompare_spec q 0) as [H|H|H]; split; intros E;
    try discriminate; try reflexivity; try lra.
Qed.

(** The comparisons of a finite value with 0, as booleans. *)
Lemma compare_zero_cases (q : Q) :
  (0 < q /\ fgt (Fin q) (fin 0) = true /\ flt (Fin q) (fin 0) = false /\
   feq (Fin q) (fin 0) = false) \/
  (q < 0 /\ fgt (Fin q) (fin 0) = false /\ flt (Fin q) (fin 0) = true /\
   feq (Fin q) (fin 0) = false) \/
  (q == 0 /\ fgt (Fin q) (fin 0) = false /\ flt (Fin q) (fin 0) = false /\
   feq (Fin q) (fin 0) = true).
Proof.
  unfold fgt, flt, feq, fcompare, fin. change (Qred 0) with 0.
  destruct (Qcompare_spec q 0) as [H|H|H]; auto 10.
Qed.

Lemma raw_signal_cell_positive (q : Q) (prev : cell) :
  0 < q -> raw_signal_cell (Some (Fin q)) prev = lit 1.
Proof.
  intros H. unfold raw_signal_cell, lit, c_gt, c_lt, c_eq, lift2.
  destruct (compare_zero_cases q) as [(_ & -> & -> & ->)|[(?&_)|(?&_)]];
    try lra.
  destruct prev as [f|]; [destruct (flt f (fin 0))|]; reflexivity.
Qed.

Lemma raw_signal_cell_negative (q : Q) (prev : cell) :
  q < 0 -> raw_signal_cell (Some (Fin q)) prev = lit (-1).
Proof.
  intros H. unfold raw_signal_cell, lit, c_gt, c_lt, c_eq, lift2.
  destruct (compare_zero_cases q) as [(?&_)|[(_ & -> & -> & ->)|(?&_)]];
    try lra.
  destruct prev as [f|]; [destruct (flt f (fin 0)), (fgt f (fin 0))|];
    reflexivity.
Qed.

Lemma raw_signal_cell_zero (q : Q) (prev : cell) :
  q == 0 ->
  raw_signal_cell (Some (Fin q)) prev =
  match prev with
  | Some f => if flt f (fin 0) then lit 1
              else if fgt f (fin 0) then lit (-1) else null
  | None => null
  end.
Proof.
  intros H. unfold raw_signal_cell, lit, c_gt, c_lt, c_eq, lift2.
  destruct (compare_zero_cases q) as [(?&_)|[(?&_)|(_ & -> & -> & ->)]];
    try lra.
  destruct prev as [f|]; [destruct (flt f (fin 0)), (fgt f (fin 0))|];
    reflexivity.
Qed.

Lemma signal_at_defined (osc : series) (i : nat) (o prev : cell) (v : float) :
  nth_error osc i = Some o ->
  nth_error (shift1 osc) i = Some prev ->
  raw_signal_cell o prev = Some v ->
  nth_error (signal osc) i = Some (Some v).
Proof.
  intros Ho Hp Hv. unfold signal, forward_fill.
  apply forward_fill_from_at_defined.
  rewrite (raw_signal_at osc i o prev Ho Hp), Hv. reflexivity.
Qed.

(** X1. Where the combined oscillator is positive the returned signal is
    +1.0, and where it is negative the signal is -1.0, in both files. *)
Theorem signal_follows_sign (ta : TaLib) (df : DataFrame) (p : Params)
  (osc s : series) (i : nat) (q : Q) :
  ProbTrend_run ta df p osc s ->
  nth_error osc i = Some (Some (Fin q)) ->
  (0 < q -> nth_error s i = Some (lit 1)) /\
  (q < 0 -> nth_error s i = Some (lit (-1))).
Proof.
  intros Hrun Ho. rewrite (ProbTrend_run_signal _ _ _ _ _ Hrun).
  destruct (shift1_at osc i _ Ho) as [prev Hp].
  split; intros Hq.
  - apply (signal_at_defined osc i _ prev _ Ho Hp).
    apply raw_signal_cell_positive, Hq.
  - apply (signal_at_defined osc i _ prev _ Ho Hp).
    apply raw_signal_cell_negative, Hq.
Qed.

Lemma signal_follows_sign_witness :
  nth_error [null; null; lit 1; lit 1; lit 1; lit 1] 2 = Some (lit 1).
Proof.
  apply (signal_follows_sign TaRef.talib falling (short_params 2 0 0 0 3)
           [lit 0; lit 0; lit 60; lit 20; lit 20; lit 20]
           [null; null; lit 1; lit 1; lit 1; lit 1] 2 60).
  - left. split; vm_compute; reflexivity.
  - reflexivity.
  - reflexivity.
Defined.

(** X2. Where the combined oscillator is 0 right after a negative value the
    signal turns +1.0, and right after a positive value it turns -1.0, in
    both files. *)
Theorem signal_zero_crossing (ta : TaLib) (df : DataFrame) (p : Params)
  (osc s : series) (i : nat) (q q' : Q) :
  ProbTrend_run ta df p osc s ->
  nth_error osc i = Some (Some (Fin q')) ->
  nth_error osc (S i) = Some (Some (Fin q)) ->
  q == 0 ->
  (q' < 0 -> nth_error s (S i) = Some (lit 1)) /\
  (0 < q' -> nth_error s (S i) = Some (lit (-1))).
Proof.
  intros Hrun Hprev Ho Hq. rewrite (ProbTrend_run_signal _ _ _ _ _ Hrun).
  assert (Hp : nth_error (shift1 osc) (S i) = Some (Some (Fin q'))).
  { rewrite nth_error_shift1_next; [exact Hprev|].
    apply nth_error_Some. congruence. }
  destruct (compare_zero_cases q') as [(H & G & L & _)|[(H & G & L & _)|(H & _)]];
    split; intros Hq'; try lra;
    apply (signal_at_defined osc (S i) _ _ _ Ho Hp);
    rewrite (raw_signal_cell_zero q _ Hq), L, ?G; reflexivity.
Qed.

Lemma signal_zero_crossing_witness :
  nth_error [null; null; lit 1; lit (-1); lit (-1); lit (-1)] 3
  = Some (lit (-1)).
Proof.
  apply (signal_zero_crossing TaRef.talib falling
           (scale_weights (1 # 2) (short_params 2 0 0 0 3))
           [lit 0; lit 0; lit 50; lit 0; lit 0; lit 0]
           [null; null; lit 1; lit (-1); lit (-1); lit (-1)] 2 0 50).
  - left. split; vm_compute; reflexivity.
  - reflexivity.
  - reflexivity.
  - reflexivity.
  - reflexivity.
Defined.

(** X3. Where the combined oscillator is 0 at two bars in a row, the signal
    keeps its value of the bar before (neither crossing test fires), and a
    0 at the first bar leaves the signal undefined there, in both files. *)
Theorem signal_holds_on_repeated_zero (ta : TaLib) (df : DataFrame)
  (p : Params) (osc s : series) (q : Q) :
  ProbTrend_run ta df p osc s ->
  q == 0 ->
  (nth_error osc 0 = Some (Some (Fin q)) -> nth_error s 0 = Some null) /\
  (forall i q',
      nth_error osc i = Some (Some (Fin q')) -> q' == 0 ->
      nth_error osc (S i) = Some (Some (Fin q)) ->
      nth_error s (S i) = nth_error s i).
Proof.
  intros Hrun Hq. rewrite (ProbTrend_run_signal _ _ _ _ _ Hrun). split.
  - intros Ho.
    assert (Hp : nth_error (shift1 osc) 0 = Some None).
    { apply nth_error_shift1_first. intros ->. discriminate. }
    pose proof (raw_signal_at osc 0 _ _ Ho Hp) as Hraw.
    rewrite (raw_signal_cell_zero q _ Hq) in Hraw.
    unfold signal, forward_fill.
    destruct (raw_signal osc) as [|[v|] raw]; simpl in *; congruence.
  - intros i q' Hprev Hq' Ho.
    assert (Hp : nth_error (shift1 osc) (S i) = Some (Some (Fin q'))).
    { rewrite nth_error_shift1_next; [exact Hprev|].
      apply nth_error_Some. congruence. }
    pose proof (raw_signal_at osc (S i) _ _ Ho Hp) as Hraw.
    rewrite (raw_signal_cell_zero q _ Hq) in Hraw.
    destruct (compare_zero_cases q') as [(H & _)|[(H & _)|(_ & G & L & _)]];
      try lra.
    rewrite L, G in Hraw.
    unfold signal, forward_fill. apply forward_fill_from_hold, Hraw.
Qed.

Lemma signal_holds_on_repeated_zero_witness :
  nth_error [null; null; lit 1; lit (-1); lit (-1); lit (-1)] 4
  = nth_error [null; null; lit 1; lit (-1); lit (-1); lit (-1)] 3.
Proof.
  destruct (signal_holds_on_repeated_zero TaRef.talib falling
              (scale_weights (1 # 2) (short_params 2 0 0 0 3))
              [lit 0; lit 0; lit 50; lit 0; lit 0; lit 0]
              [null; null; lit 1; lit (-1); lit (-1); lit (-1)] 0) as [_ H].
  - left. split; vm_compute; reflexivity.
  - reflexivity.
  - apply (H 3%nat 0); reflexivity.
Defined.

(** ** The range of the probabilities *)

Lemma round_half_even_bounds (a b : Z) (x : Q) :
  inject_Z a <= x -> x <= inject_Z b ->
  (a <= round_half_even x <= b)%Z.
Proof.
  intros Ha Hb.
  pose proof (Qfloor_le x) as Hlo. pose proof (Qlt_floor x) as Hhi.
  rewrite inject_Z_plus in Hhi. change (inject_Z 1) with 1 in Hhi.
  assert (Hfa : (a <= Qfloor x)%Z).
  { rewrite <- (Qfloor_Z a). apply Qfloor_resp_le, Ha. }
  assert (Hfb : (Qfloor x <= b)%Z).
  { rewrite <- (Qfloor_Z b). apply Qfloor_resp_le, Hb. }
  unfold round_half_even. set (f := Qfloor x) in *.
  assert (Hup : inject_Z f < x -> (f + 1 <= b)%Z).
  { intros H. assert (Hlt : inject_Z f < inject_Z b) by lra.
    rewrite <- Zlt_Qlt in Hlt. lia. }
  destruct (Qcompare_spec (x - inject_Z f) (1 # 2)) as [H|H|H].
  - destruct (Z.even f); [lia|]. assert (inject_Z f < x) by lra.
    specialize (Hup H0). lia.
  - lia.
  - assert (inject_Z f < x) by lra. specialize (Hup H0). lia.
Qed.

Lemma lit_percentage (q : Q) : 0 <= q <= 100 -> percentage (lit q).
Proof.
  intros H. exists (Qred q). split; [reflexivity|].
  rewrite Qred_correct. exact H.
Qed.

Lemma ratio_percentage (a t : Q) :
  0 <= a -> a <= t -> 0 < t ->
  percentage (c_probability (Some (Fin a)) (Some (Fin t))).
Proof.
  intros Ha Hat Ht.
  rewrite c_probability_positive_total by lra.
  apply lit_percentage.
  assert (H0 : 0 <= a / t) by (apply Qle_shift_div_l; lra).
  assert (H1 : a / t <= 1) by (apply Qle_shift_div_r; lra).
  match goal with
  | |- context [round_half_even ?x] =>
      destruct (round_half_even_bounds 0 10000 x) as [Hlo Hhi]
  end.
  - rewrite !Qred_correct. change (inject_Z 0) with 0.
    setoid_replace (a / t * 100 * 100) with ((a / t) * 10000) by ring. lra.
  - rewrite !Qred_correct. change (inject_Z 10000) with 10000.
    setoid_replace (a / t * 100 * 100) with ((a / t) * 10000) by ring. lra.
  - rewrite Zle_Qle in Hlo, Hhi.
    change (inject_Z 0) with 0 in Hlo. change (inject_Z 10000) with 10000 in Hhi.
    split.
    + apply Qle_shift_div_l; lra.
    + apply Qle_shift_div_r; lra.
Qed.

Lemma count_cells_percentage (u d : cell) :
  count_cell u -> count_cell d ->
  percentage (c_probability u (c_add u d)) /\
  percentage (c_probability d (c_add u d)).
Proof.
  assert (Hzero : percentage (lit 0)) by (apply lit_percentage; lra).
  intros [->|(n & Hn & ->)] [->|(m & Hm & ->)].
  - split; exact Hzero.
  - split; [exact Hzero|]. cbn [c_add lift2].
    rewrite c_probability_null_total. exact Hzero.
  - cbn [c_add lift2]. rewrite !c_probability_null_total. split; exact Hzero.
  - assert (Hqn : 0 <= inject_Z n).
    { change 0 with (inject_Z 0). rewrite <- Zle_Qle. exact Hn. }
    assert (Hqm : 0 <= inject_Z m).
    { change 0 with (inject_Z 0). rewrite <- Zle_Qle. exact Hm. }
    change (c_add (lit (inject_Z n)) (lit (inject_Z m)))
      with (Some (Fin (Qred (Qred (inject_Z n) + Qred (inject_Z m))))).
    unfold lit, fin.
    destruct (Qeq_dec (inject_Z n + inject_Z m) 0) as [Hz|Hz].
    + rewrite !c_probability_zero_total
        by (rewrite !Qred_correct; exact Hz).
      split; exact Hzero.
    + split; apply ratio_percentage; rewrite !Qred_correct; lra.
Qed.

Lemma probability_percentages (up down : series) :
  Forall count_cell up -> Forall count_cell down ->
  Forall percentage (map2 c_probability up (map2 c_add up down)) /\
  Forall percentage (map2 c_probability down (map2 c_add up down)).
Proof.
  intros Hup; revert down.
  induction Hup as [|u up Hu _ IH]; intros down Hdown.
  - destruct down; split; constructor.
  - destruct Hdown as [|d down Hd Hdown]; [split; constructor|].
    destruct (IH down Hdown) as [IH1 IH2].
    destruct (count_cells_percentage u d Hu Hd) as [H1 H2].
    split; simpl; constructor; assumption.
Qed.

Lemma Eager_probabilities_percentages ta df p k pu pd :
  Eager.probabilities ta df p k = Ok (pu, pd) ->
  Forall percentage pu /\ Forall percentage pd.
Proof.
  unfold Eager.probabilities. intros H.
  destruct (Eager.trends ta df p k) as [[up down]|e] eqn:Et; [|discriminate].
  cbn [bind] in H. injection H as <- <-.
  rewrite !Eager_probability_cells.
  apply Eager_trends_counts in Et as [Hup Hdown].
  apply probability_percentages; assumption.
Qed.

Lemma Lazy_probabilities_percentages ta df p k pu pd :
  Lazy.probabilities ta df p k = Ok (pu, pd) ->
  Forall percentage pu /\ Forall percentage pd.
Proof.
  unfold Lazy.probabilities. intros H.
  destruct (Lazy.trends ta df p k) as [[up down]|e] eqn:Et; [|discriminate].
  cbn [bind] in H. injection H as <- <-.
  rewrite !Lazy_probability_cells.
  apply Lazy_trends_counts in Et as [Hup Hdown].
  apply probability_percentages; assumption.
Qed.

(** X4. For each of the five sub-indicators, in both files, every entry of
    probabilityUpward and probabilityDownward is a finite number between 0
    and 100: never null, NaN or an infinity. *)
Theorem probabilities_are_percentages (ta : TaLib) (df : DataFrame)
  (p : Params) (k : indicator) (pu pd : series) :
  Eager.probabilities ta df p k = Ok (pu, pd) \/
  Lazy.probabilities ta df p k = Ok (pu, pd) ->
  Forall percentage pu /\ Forall percentage pd.
Proof.
  intros [H|H].
  - exact (Eager_probabilities_percentages ta df p k pu pd H).
  - exact (Lazy_probabilities_percentages ta df p k pu pd H).
Qed.

Lemma probabilities_are_percentages_witness :
  Forall percentage [lit 0; lit 0; lit 100; lit 50; lit 0; lit 0] /\
  Forall percentage [lit 0; lit 0; lit 0; lit 50; lit 100; lit 100].
Proof.
  apply (probabilities_are_percentages TaRef.talib falling
           (short_params 1 1 1 1 1) RSI).
  left. vm_compute. reflexivity.
Defined.

(** ** The range of the oscillator *)

Lemma Forall_of_nth_error {A} (P : A -> Prop) (l : list A) :
  (forall i x, nth_error l i = Some x -> P x) -> Forall P l.
Proof.
  induction l as [|a l IH]; intros H; constructor.
  - apply (H 0%nat). reflexivity.
  - apply IH. intros i x Hx. apply (H (S i)). exact Hx.
Qed.

Lemma Forall_nth_error_elim {A} (P : A -> Prop) (l : list A) i x :
  Forall P l -> nth_error l i = Some x -> P x.
Proof.
  intros H Hx. rewrite Forall_forall in H. eapply H, nth_error_In, Hx.
Qed.

Lemma has_value_lit (q : Q) : has_value (lit q) q.
Proof. exists (Qred q). split; [reflexivity | apply Qred_correct]. Qed.

Lemma has_value_mul (x y : cell) (a b : Q) :
  has_value x a -> has_value y b -> has_value (c_mul x y) (a * b).
Proof.
  intros (a' & -> & Ha) (b' & -> & Hb). eexists; split; [reflexivity|].
  rewrite Qred_correct, Ha, Hb. reflexivity.
Qed.

Lemma has_value_add (x y : cell) (a b : Q) :
  has_value x a -> has_value y b -> has_value (c_add x y) (a + b).
Proof.
  intros (a' & -> & Ha) (b' & -> & Hb). eexists; split; [reflexivity|].
  rewrite Qred_correct, Ha, Hb. reflexivity.
Qed.

Lemma has_value_sub (x y : cell) (a b : Q) :
  has_value x a -> has_value y b -> has_value (c_sub x y) (a - b).
Proof.
  intros (a' & -> & Ha) (b' & -> & Hb). eexists; split; [reflexivity|].
  rewrite !Qred_correct, Ha, Hb. reflexivity.
Qed.

Lemma has_value_div (x y : cell) (a b : Q) :
  ~ b == 0 -> has_value x a -> has_value y b -> has_value (c_div x y) (a / b).
Proof.
  intros Hnz (a' & -> & Ha) (b' & -> & Hb).
  cbn [c_div lift2 fdiv]. rewrite Qeq_bool_false by (rewrite Hb; exact Hnz).
  eexists; split; [reflexivity|].
  rewrite Qred_correct, Ha, Hb. reflexivity.
Qed.

Lemma weighted_average_nth (w1 w2 w3 w4 w5 total : Q)
  (p1 p2 p3 p4 p5 : series) (i : nat) (v : cell) :
  nth_error (weighted_average w1 w2 w3 w4 w5 total p1 p2 p3 p4 p5) i = Some v ->
  exists x1 x2 x3 x4 x5,
    nth_error p1 i = Some x1 /\ nth_error p2 i = Some x2 /\
    nth_error p3 i = Some x3 /\ nth_error p4 i = Some x4 /\
    nth_error p5 i = Some x5 /\
    v = weighted_average_cell w1 w2 w3 w4 w5 total x1 x2 x3 x4 x5.
Proof.
  unfold weighted_average, div_lit, lit_mul. intros H.
  apply nth_error_map_Some in H as (s4 & H & ->).
  apply nth_error_map2 in H as (s3 & y5 & H & H5 & ->).
  apply nth_error_map2 in H as (s2 & y4 & H & H4 & ->).
  apply nth_error_map2 in H as (s1 & y3 & H & H3 & ->).
  apply nth_error_map2 in H as (y1 & y2 & H1 & H2 & ->).
  apply nth_error_map_Some in H1 as (x1 & H1 & ->).
  apply nth_error_map_Some in H2 as (x2 & H2 & ->).
  apply nth_error_map_Some in H3 as (x3 & H3 & ->).
  apply nth_error_map_Some in H4 as (x4 & H4 & ->).
  apply nth_error_map_Some in H5 as (x5 & H5 & ->).
  exists x1, x2, x3, x4, x5. repeat split; assumption.
Qed.

(** The numerator of the weighted average of five finite entries. *)
Lemma weighted_sum_value (w1 w2 w3 w4 w5 q1 q2 q3 q4 q5 : Q)
  (x1 x2 x3 x4 x5 : cell) :
  has_value x1 q1 -> has_value x2 q2 -> has_value x3 q3 ->
  has_value x4 q4 -> has_value x5 q5 ->
  has_value
    (c_add
       (c_add
          (c_add
             (c_add (c_mul (lit w1) x1) (c_mul (lit w2) x2))
             (c_mul (lit w3) x3))
          (c_mul (lit w4) x4))
       (c_mul (lit w5) x5))
    (w1 * q1 + w2 * q2 + w3 * q3 + w4 * q4 + w5 * q5).
Proof.
  intros H1 H2 H3 H4 H5.
  repeat apply has_value_add; apply has_value_mul;
    try apply has_value_lit; assumption.
Qed.

Lemma percentage_value (c : cell) :
  percentage c -> exists q, has_value c q /\ 0 <= q <= 100.
Proof.
  intros (q & -> & H). exists q. split; [|exact H].
  exists q. split; reflexivity.
Qed.

Lemma weighted_average_percentage (w1 w2 w3 w4 w5 : Q)
  (x1 x2 x3 x4 x5 : cell) :
  usable_weights w1 w2 w3 w4 w5 ->
  percentage x1 -> percentage x2 -> percentage x3 -> percentage x4 ->
  percentage x5 ->
  exists q,
    has_value
      (weighted_average_cell w1 w2 w3 w4 w5 (w1 + w2 + w3 + w4 + w5)
         x1 x2 x3 x4 x5) q /\
    0 <= q <= 100.
Proof.
  intros (Hw1 & Hw2 & Hw3 & Hw4 & Hw5 & Ht) P1 P2 P3 P4 P5.
  apply percentage_value in P1 as (q1 & V1 & B1).
  apply percentage_value in P2 as (q2 & V2 & B2).
  apply percentage_value in P3 as (q3 & V3 & B3).
  apply percentage_value in P4 as (q4 & V4 & B4).
  apply percentage_value in P5 as (q5 & V5 & B5).
  exists ((w1 * q1 + w2 * q2 + w3 * q3 + w4 * q4 + w5 * q5)
          / (w1 + w2 + w3 + w4 + w5)). split.
  - unfold weighted_average_cell. apply has_value_div.
    + intros E. lra.
    + apply (weighted_sum_value w1 w2 w3 w4 w5 q1 q2 q3 q4 q5); assumption.
    + apply has_value_lit.
  - assert (M : forall w q, 0 <= w -> 0 <= q <= 100 ->
                            0 <= w * q /\ w * q <= w * 100).
    { intros w q Hw [Hq0 Hq1]. split.
      - apply Qmult_le_0_compat; assumption.
      - rewrite (Qmult_comm w q), (Qmult_comm w 100).
        apply Qmult_le_compat_r; assumption. }
    destruct (M w1 q1 Hw1 B1), (M w2 q2 Hw2 B2), (M w3 q3 Hw3 B3),
      (M w4 q4 Hw4 B4), (M w5 q5 Hw5 B5).
    split.
    + apply Qle_shift_div_l; lra.
    + apply Qle_shift_div_r; lra.
Qed.

Lemma oscillator_within (w1 w2 w3 w4 w5 : Q)
  (pU1 pU2 pU3 pU4 pU5 pD1 pD2 pD3 pD4 pD5 : series) :
  usable_weights w1 w2 w3 w4 w5 ->
  Forall percentage pU1 -> Forall percentage pU2 -> Forall percentage pU3 ->
  Forall percentage pU4 -> Forall percentage pU5 ->
  Forall percentage pD1 -> Forall percentage pD2 -> Forall percentage pD3 ->
  Forall percentage pD4 -> Forall percentage pD5 ->
  Forall (within (-100) 100)
    (map2 c_sub
       (weighted_average w1 w2 w3 w4 w5 (w1 + w2 + w3 + w4 + w5)
          pU1 pU2 pU3 pU4 pU5)
       (weighted_average w1 w2 w3 w4 w5 (w1 + w2 + w3 + w4 + w5)
          pD1 pD2 pD3 pD4 pD5)).
Proof.
  intros Hw U1 U2 U3 U4 U5 D1 D2 D3 D4 D5.
  apply Forall_of_nth_error. intros i x Hx.
  apply nth_error_map2 in Hx as (u & d & Hu & Hd & ->).
  apply weighted_average_nth in Hu as (a1 & a2 & a3 & a4 & a5 & A1 & A2 & A3 & A4 & A5 & ->).
  apply weighted_average_nth in Hd as (b1 & b2 & b3 & b4 & b5 & B1 & B2 & B3 & B4 & B5 & ->).
  destruct (weighted_average_percentage w1 w2 w3 w4 w5 a1 a2 a3 a4 a5 Hw
              (Forall_nth_error_elim _ _ _ _ U1 A1)
              (Forall_nth_error_elim _ _ _ _ U2 A2)
              (Forall_nth_error_elim _ _ _ _ U3 A3)
              (Forall_nth_error_elim _ _ _ _ U4 A4)
              (Forall_nth_error_elim _ _ _ _ U5 A5)) as (qu & Vu & Bu).
  destruct (weighted_average_percentage w1 w2 w3 w4 w5 b1 b2 b3 b4 b5 Hw
              (Forall_nth_error_elim _ _ _ _ D1 B1)
              (Forall_nth_error_elim _ _ _ _ D2 B2)
              (Forall_nth_error_elim _ _ _ _ D3 B3)
              (Forall_nth_error_elim _ _ _ _ D4 B4)
              (Forall_nth_error_elim _ _ _ _ D5 B5)) as (qd & Vd & Bd).
  destruct (has_value_sub _ _ _ _ Vu Vd) as (q & E & Hq).
  exists q. split; [exact E|]. rewrite Hq. lra.
Qed.

Lemma Eager_oscillator_form ta df p osc :
  Eager.combinedOscillatorValue ta df p = Ok osc ->
  exists pU1 pD1 pU2 pD2 pU3 pD3 pU4 pD4 pU5 pD5,
    Eager.probabilities ta df p Price = Ok (pU1, pD1) /\
    Eager.probabilities ta df p RSI = Ok (pU2, pD2) /\
    Eager.probabilities ta df p ADX = Ok (pU3, pD3) /\
    Eager.probabilities ta df p CCI = Ok (pU4, pD4) /\
    Eager.probabilities ta df p VWMA = Ok (pU5, pD5) /\
    osc = map2 c_sub
            (weighted_average
               (eager_weight (weightPrice p)) (eager_weight (weightRSI p))
               (eager_weight (weightADX p)) (eager_weight (weightCCI p))
               (eager_weight (weightVWMA p)) (eager_total_weight p)
               pU1 pU2 pU3 pU4 pU5)
            (weighted_average
               (eager_weight (weightPrice p)) (eager_weight (weightRSI p))
               (eager_weight (weightADX p)) (eager_weight (weightCCI p))
               (eager_weight (weightVWMA p)) (eager_total_weight p)
               pD1 pD2 pD3 pD4 pD5).
Proof.
  unfold Eager.combinedOscillatorValue. intros H.
  destruct (Eager.probabilities ta df p Price) as [[pU1 pD1]|e]; [|discriminate].
  destruct (Eager.probabilities ta df p RSI) as [[pU2 pD2]|e]; [|discriminate].
  destruct (Eager.probabilities ta df p ADX) as [[pU3 pD3]|e]; [|discriminate].
  destruct (Eager.probabilities ta df p CCI) as [[pU4 pD4]|e]; [|discriminate].
  destruct (Eager.probabilities ta df p VWMA) as [[pU5 pD5]|e]; [|discriminate].
  cbn [bind] in H. injection H as <-.
  exists pU1, pD1, pU2, pD2, pU3, pD3, pU4, pD4, pU5, pD5.
  repeat split; reflexivity.
Qed.

Lemma Lazy_oscillator_form ta df p osc :
  Lazy.combinedOscillatorValue ta df p = Ok osc ->
  exists pU1 pD1 pU2 pD2 pU3 pD3 pU4 pD4 pU5 pD5,
    Lazy.probabilities ta df p Price = Ok (pU1, pD1) /\
    Lazy.probabilities ta df p RSI = Ok (pU2, pD2) /\
    Lazy.probabilities ta df p ADX = Ok (pU3, pD3) /\
    Lazy.probabilities ta df p CCI = Ok (pU4, pD4) /\
    Lazy.probabilities ta df p VWMA = Ok (pU5, pD5) /\
    osc = map2 c_sub
            (weighted_average
               (weightPrice p) (weightRSI p) (weightADX p) (weightCCI p)
               (weightVWMA p) (total_weight p) pU1 pU2 pU3 pU4 pU5)
            (weighted_average
               (weightPrice p) (weightRSI p) (weightADX p) (weightCCI p)
               (weightVWMA p) (total_weight p) pD1 pD2 pD3 pD4 pD5).
Proof.
  unfold Lazy.combinedOscillatorValue. intros H.
  destruct (Lazy.probabilities ta df p Price) as [[pU1 pD1]|e]; [|discriminate].
  destruct (Lazy.probabilities ta df p RSI) as [[pU2 pD2]|e]; [|discriminate].
  destruct (Lazy.probabilities ta df p ADX) as [[pU3 pD3]|e]; [|discriminate].
  destruct (Lazy.probabilities ta df p CCI) as [[pU4 pD4]|e]; [|discriminate].
  destruct (Lazy.probabilities ta df p VWMA) as [[pU5 pD5]|e]; [|discriminate].
  cbn [bind] in H. injection H as <-.
  exists pU1, pD1, pU2, pD2, pU3, pD3, pU4, pD4, pU5, pD5.
  repeat split; reflexivity.
Qed.



(** ** A total weight of zero *)

Lemma weighted_average_zero_total (w1 w2 w3 w4 w5 total : Q)
  (x1 x2 x3 x4 x5 : cell) :
  total == 0 ->
  percentage x1 -> percentage x2 -> percentage x3 -> percentage x4 ->
  percentage x5 ->
  not_finite (weighted_average_cell w1 w2 w3 w4 w5 total x1 x2 x3 x4 x5).
Proof.
  intros Ht P1 P2 P3 P4 P5.
  apply percentage_value in P1 as (q1 & V1 & _).
  apply percentage_value in P2 as (q2 & V2 & _).
  apply percentage_value in P3 as (q3 & V3 & _).
  apply percentage_value in P4 as (q4 & V4 & _).
  apply percentage_value in P5 as (q5 & V5 & _).
  destruct (weighted_sum_value w1 w2 w3 w4 w5 q1 q2 q3 q4 q5 _ _ _ _ _
              V1 V2 V3 V4 V5) as (n & E & _).
  unfold weighted_average_cell. rewrite E.
  unfold lit, fin. cbn [c_div lift2 fdiv].
  rewrite Qeq_bool_true by (rewrite Qred_correct; exact Ht).
  eexists; split; [reflexivity|].
  destruct (n ?= 0); reflexivity.
Qed.

Lemma not_finite_sub (x y : cell) :
  not_finite x -> not_finite y -> not_finite (c_sub x y).
Proof.
  intros (f & -> & Hf) (g & -> & Hg).
  exists (fsub f g). split; [reflexivity|].
  destruct f, g; try discriminate; reflexivity.
Qed.

Lemma oscillator_not_finite (w1 w2 w3 w4 w5 total : Q)
  (pU1 pU2 pU3 pU4 pU5 pD1 pD2 pD3 pD4 pD5 : series) :
  total == 0 ->
  Forall percentage pU1 -> Forall percentage pU2 -> Forall percentage pU3 ->
  Forall percentage pU4 -> Forall percentage pU5 ->
  Forall percentage pD1 -> Forall percentage pD2 -> Forall percentage pD3 ->
  Forall percentage pD4 -> Forall percentage pD5 ->
  Forall not_finite
    (map2 c_sub
       (weighted_average w1 w2 w3 w4 w5 total pU1 pU2 pU3 pU4 pU5)
       (weighted_average w1 w2 w3 w4 w5 total pD1 pD2 pD3 pD4 pD5)).
Proof.
  intros Ht U1 U2 U3 U4 U5 D1 D2 D3 D4 D5.
  apply Forall_of_nth_error. intros i x Hx.
  apply nth_error_map2 in Hx as (u & d & Hu & Hd & ->).
  apply weighted_average_nth in Hu as (a1 & a2 & a3 & a4 & a5 & A1 & A2 & A3 & A4 & A5 & ->).
  apply weighted_average_nth in Hd as (b1 & b2 & b3 & b4 & b5 & B1 & B2 & B3 & B4 & B5 & ->).
  apply not_finite_sub.
  - apply weighted_average_zero_total;
      [ exact Ht
      | exact (Forall_nth_error_elim _ _ _ _ U1 A1)
      | exact (Forall_nth_error_elim _ _ _ _ U2 A2)
      | exact (Forall_nth_error_elim _ _ _ _ U3 A3)
      | exact (Forall_nth_error_elim _ _ _ _ U4 A4)
      | exact (Forall_nth_error_elim _ _ _ _ U5 A5) ].
  - apply weighted_average_zero_total;
      [ exact Ht
      | exact (Forall_nth_error_elim _ _ _ _ D1 B1)
      | exact (Forall_nth_error_elim _ _ _ _ D2 B2)
      | exact (Forall_nth_error_elim _ _ _ _ D3 B3)
      | exact (Forall_nth_error_elim _ _ _ _ D4 B4)
      | exact (Forall_nth_error_elim _ _ _ _ D5 B5) ].
Qed.



(** ** The warm-up of the signal *)

Lemma map2_length {A B C} (f : A -> B -> C) (xs : list A) : forall ys,
  length (map2 f xs ys) = Nat.min (length xs) (length ys).
Proof.
  induction xs as [|x xs IH]; intros [|y ys]; simpl; auto.
Qed.

Lemma signal_length (osc : series) : length (signal osc) = length osc.
Proof.
  unfold signal, forward_fill.
  rewrite forward_fill_from_length, raw_signal_cells, map2_length,
    shift1_length.
  apply Nat.min_id.
Qed.

Lemma lagged_count_warmup (lookback : Z) (cond : bseries) (s : series)
  (i : nat) (x : cell) :
  lagged_count lookback cond = Ok s ->
  (Z.of_nat i < lookback)%Z ->
  nth_error s i = Some x -> x = null.
Proof.
  unfold lagged_count, window_size.
  destruct (lookback <? 0)%Z; [discriminate|]. cbn [bind].
  intros [= <-] Hi Hx. unfold rolling_sum in Hx.
  rewrite nth_error_map_seq in Hx.
  destruct (i <? length (shift1 cond))%nat eqn:Hlen; [|discriminate].
  apply Nat.ltb_lt in Hlen. injection Hx as <-.
  unfold full_window. rewrite (window_nth None _ _ i Hlen).
  destruct (S i <? Z.to_nat lookback)%nat eqn:E; [reflexivity|].
  apply Nat.ltb_ge in E.
  assert (Hw : Z.to_nat lookback = S i) by lia.
  rewrite Hw, Nat.sub_diag. cbn [seq map].
  destruct (shift1 cond) as [|c0 rest] eqn:Es; [simpl in Hlen; lia|].
  assert (Hc0 : c0 = None).
  { destruct cond; [discriminate|]. unfold shift1 in Es. congruence. }
  subst c0. reflexivity.
Qed.

Lemma null_counts_probability :
  c_probability null (c_add null null) = lit 0.
Proof. reflexivity. Qed.

Lemma Eager_trends_warmup ta df p k up down i u d :
  Eager.trends ta df p k = Ok (up, down) ->
  (Z.of_nat i < lookbackPeriod p)%Z ->
  nth_error up i = Some u -> nth_error down i = Some d ->
  c_probability u (c_add u d) = lit 0 /\ c_probability d (c_add u d) = lit 0.
Proof.
  intros H Hi Hu Hd. destruct k; unfold Eager.trends in H; inv_bind;
    injection H as <- <-;
    try (match goal with
         | E1 : lagged_count _ _ = Ok ?a, E2 : lagged_count _ _ = Ok ?b,
           Hu' : nth_error ?a i = Some u, Hd' : nth_error ?b i = Some d |- _ =>
             rewrite (lagged_count_warmup _ _ _ _ _ E1 Hi Hu'),
               (lagged_count_warmup _ _ _ _ _ E2 Hi Hd')
         end; split; reflexivity).
  apply nth_error_map3 in Hu as (pl & mi & r0 & _ & _ & Hr & ->).
  apply nth_error_map3 in Hd as (pl' & mi' & r1 & _ & _ & Hr' & ->).
  match goal with
  | E : lagged_count _ _ = Ok _ |- _ =>
      rewrite (lagged_count_warmup _ _ _ _ _ E Hi Hr),
        (lagged_count_warmup _ _ _ _ _ E Hi Hr')
  end.
  destruct (c_gt pl mi) as [[|]|], (c_lt pl' mi') as [[|]|];
    split; reflexivity.
Qed.

Lemma Lazy_trends_warmup ta df p k up down i u d :
  Lazy.trends ta df p k = Ok (up, down) ->
  (Z.of_nat i < lookbackPeriod p)%Z ->
  nth_error up i = Some u -> nth_error down i = Some d ->
  c_probability u (c_add u d) = lit 0 /\ c_probability d (c_add u d) = lit 0.
Proof.
  intros H Hi Hu Hd. destruct k; unfold Lazy.trends in H; inv_bind;
    injection H as <- <-;
    try (match goal with
         | E1 : lagged_count _ _ = Ok ?a, E2 : lagged_count _ _ = Ok ?b,
           Hu' : nth_error ?a i = Some u, Hd' : nth_error ?b i = Some d |- _ =>
             rewrite (lagged_count_warmup _ _ _ _ _ E1 Hi Hu'),
               (lagged_count_warmup _ _ _ _ _ E2 Hi Hd')
         end; split; reflexivity).
  apply nth_error_map3 in Hu as (pl & mi & r0 & _ & _ & Hr & ->).
  apply nth_error_map3 in Hd as (pl' & mi' & r1 & _ & _ & Hr' & ->).
  match goal with
  | E : lagged_count _ _ = Ok _ |- _ =>
      rewrite (lagged_count_warmup _ _ _ _ _ E Hi Hr),
        (lagged_count_warmup _ _ _ _ _ E Hi Hr')
  end.
  destruct (c_gt pl mi) as [[|]|], (c_lt pl' mi') as [[|]|];
    split; reflexivity.
Qed.

Lemma probability_warmup (up down : series) (i : nat) :
  (forall u d, nth_error up i = Some u -> nth_error down i = Some d ->
               c_probability u (c_add u d) = lit 0 /\
               c_probability d (c_add u d) = lit 0) ->
  (forall a, nth_error (map2 c_probability up (map2 c_add up down)) i = Some a ->
             a = lit 0) /\
  (forall b, nth_error (map2 c_probability down (map2 c_add up down)) i = Some b ->
             b = lit 0).
Proof.
  intros H. split; intros x Hx;
    apply nth_error_map2 in Hx as (y & t & Hy & Ht & ->);
    apply nth_error_map2 in Ht as (u & d & Hu & Hd & ->);
    destruct (H u d Hu Hd) as [H1 H2]; congruence.
Qed.

Lemma Eager_probabilities_warmup ta df p k pu pd i :
  Eager.probabilities ta df p k = Ok (pu, pd) ->
  (Z.of_nat i < lookbackPeriod p)%Z ->
  (forall a, nth_error pu i = Some a -> a = lit 0) /\
  (forall b, nth_error pd i = Some b -> b = lit 0).
Proof.
  unfold Eager.probabilities. intros H Hi.
  destruct (Eager.trends ta df p k) as [[up down]|e] eqn:Et; [|discriminate].
  cbn [bind] in H. injection H as <- <-.
  rewrite !Eager_probability_cells. apply probability_warmup.
  intros u d. apply (Eager_trends_warmup ta df p k up down i u d Et Hi).
Qed.

Lemma Lazy_probabilities_warmup ta df p k pu pd i :
  Lazy.probabilities ta df p k = Ok (pu, pd) ->
  (Z.of_nat i < lookbackPeriod p)%Z ->
  (forall a, nth_error pu i = Some a -> a = lit 0) /\
  (forall b, nth_error pd i = Some b -> b = lit 0).
Proof.
  unfold Lazy.probabilities. intros H Hi.
  destruct (Lazy.trends ta df p k) as [[up down]|e] eqn:Et; [|discriminate].
  cbn [bind] in H. injection H as <- <-.
  rewrite !Lazy_probability_cells. apply probability_warmup.
  intros u d. apply (Lazy_trends_warmup ta df p k up down i u d Et Hi).
Qed.

Lemma weighted_average_of_zeros (w1 w2 w3 w4 w5 total : Q) :
  ~ total == 0 ->
  has_value
    (weighted_average_cell w1 w2 w3 w4 w5 total
       (lit 0) (lit 0) (lit 0) (lit 0) (lit 0)) 0.
Proof.
  intros Ht.
  destruct (has_value_div _ _ _ total Ht
              (weighted_sum_value w1 w2 w3 w4 w5 0 0 0 0 0 _ _ _ _ _
                 (has_value_lit 0) (has_value_lit 0) (has_value_lit 0)
                 (has_value_lit 0) (has_value_lit 0))
              (has_value_lit total)) as (q & E & Hq).
  exists q. split; [exact E|]. rewrite Hq. field. exact Ht.
Qed.

Lemma oscillator_warmup (w1 w2 w3 w4 w5 total : Q)
  (pU1 pU2 pU3 pU4 pU5 pD1 pD2 pD3 pD4 pD5 : series) (i : nat) (x : cell) :
  ~ total == 0 ->
  (forall a, nth_error pU1 i = Some a -> a = lit 0) ->
  (forall a, nth_error pU2 i = Some a -> a = lit 0) ->
  (forall a, nth_error pU3 i = Some a -> a = lit 0) ->
  (forall a, nth_error pU4 i = Some a -> a = lit 0) ->
  (forall a, nth_error pU5 i = Some a -> a = lit 0) ->
  (forall a, nth_error pD1 i = Some a -> a = lit 0) ->
  (forall a, nth_error pD2 i = Some a -> a = lit 0) ->
  (forall a, nth_error pD3 i = Some a -> a = lit 0) ->
  (forall a, nth_error pD4 i = Some a -> a = lit 0) ->
  (forall a, nth_error pD5 i = Some a -> a = lit 0) ->
  nth_error
    (map2 c_sub
       (weighted_average w1 w2 w3 w4 w5 total pU1 pU2 pU3 pU4 pU5)
       (weighted_average w1 w2 w3 w4 w5 total pD1 pD2 pD3 pD4 pD5)) i
  = Some x ->
  has_value x 0.
Proof.
  intros Ht U1 U2 U3 U4 U5 D1 D2 D3 D4 D5 Hx.
  apply nth_error_map2 in Hx as (u & d & Hu & Hd & ->).
  apply weighted_average_nth in Hu as (a1 & a2 & a3 & a4 & a5 & A1 & A2 & A3 & A4 & A5 & ->).
  apply weighted_average_nth in Hd as (b1 & b2 & b3 & b4 & b5 & B1 & B2 & B3 & B4 & B5 & ->).
  rewrite (U1 _ A1), (U2 _ A2), (U3 _ A3), (U4 _ A4), (U5 _ A5),
    (D1 _ B1), (D2 _ B2), (D3 _ B3), (D4 _ B4), (D5 _ B5).
  pose proof (weighted_average_of_zeros w1 w2 w3 w4 w5 total Ht) as Hz.
  destruct (has_value_sub _ _ _ _ Hz Hz) as (q & E & Hq).
  exists q. split; [exact E|]. rewrite Hq. ring.
Qed.

Lemma signal_null_while_zero (osc : series) : forall i,
  (i < length osc)%nat ->
  (forall j x, (j <= i)%nat -> nth_error osc j = Some x -> has_value x 0) ->
  nth_error (signal osc) i = Some null.
Proof.
  assert (Hcell : forall j, (j < length osc)%nat ->
                    exists x, nth_error osc j = Some x).
  { intros j Hj. apply nth_error_Some in Hj.
    destruct (nth_error osc j); [eauto | contradiction]. }
  induction i as [|i IH]; intros Hi Hz.
  - destruct (Hcell 0%nat Hi) as [x Hx].
    destruct (Hz 0%nat x (Nat.le_refl _) Hx) as (q & -> & Hq).
    assert (Hp : nth_error (shift1 osc) 0 = Some None).
    { apply nth_error_shift1_first. intros ->. discriminate. }
    pose proof (raw_signal_at osc 0 _ _ Hx Hp) as Hraw.
    rewrite (raw_signal_cell_zero q _ Hq) in Hraw.
    unfold signal, forward_fill.
    destruct (raw_signal osc) as [|[v|] raw]; simpl in *; congruence.
  - destruct (Hcell (S i) Hi) as [x Hx].
    destruct (Hcell i ltac:(lia)) as [y Hy].
    destruct (Hz (S i) x (Nat.le_refl _) Hx) as (q & -> & Hq).
    destruct (Hz i y ltac:(lia) Hy) as (q' & -> & Hq').
    assert (Hp : nth_error (shift1 osc) (S i) = Some (Some (Fin q'))).
    { rewrite nth_error_shift1_next; assumption. }
    pose proof (raw_signal_at osc (S i) _ _ Hx Hp) as Hraw.
    rewrite (raw_signal_cell_zero q _ Hq) in Hraw.
    destruct (compare_zero_cases q') as [(H & _)|[(H & _)|(_ & G & L & _)]];
      try lra.
    rewrite L, G in Hraw.
    unfold signal, forward_fill.
    rewrite (forward_fill_from_hold _ None i Hraw).
    apply IH; [lia|]. intros j z Hj. apply Hz. lia.
Qed.



(** ** The directional movements *)

Lemma Forall_map2_in {A B C} (P : A -> Prop) (Q : B -> Prop) (R : C -> Prop)
  (f : A -> B -> C) (xs : list A) (ys : list B) :
  (forall x y, P x -> Q y -> R (f x y)) ->
  Forall P xs -> Forall Q ys -> Forall R (map2 f xs ys).
Proof.
  intros Hf Hx; revert ys.
  induction Hx as [|x xs Hx _ IH]; intros ys Hy; [constructor|].
  destruct Hy as [|y ys Hy Hys]; simpl; constructor; auto.
Qed.

Lemma col_finite (df : DataFrame) (c : column) :
  Forall finite_or_null (col df c).
Proof.
  unfold col. apply Forall_forall. intros x Hx.
  apply in_map_iff in Hx as (q & <- & _). right. eexists. reflexivity.
Qed.

Lemma diff_finite (s : series) :
  Forall finite_or_null s -> Forall finite_or_null (diff s).
Proof.
  intros H. destruct s as [|x t]; [constructor|].
  unfold diff. constructor; [left; reflexivity|].
  apply (Forall_map2_in finite_or_null finite_or_null).
  - intros a b [->|(qa & ->)] [->|(qb & ->)]; try (left; reflexivity).
    right. eexists. reflexivity.
  - inversion H; assumption.
  - exact H.
Qed.

Lemma neg_finite (s : series) :
  Forall finite_or_null s -> Forall finite_or_null (map c_neg s).
Proof.
  intros H. apply Forall_forall. intros x Hx.
  apply in_map_iff in Hx as (y & <- & Hy).
  rewrite Forall_forall in H. destruct (H y Hy) as [->|(q & ->)].
  - left. reflexivity.
  - right. eexists. reflexivity.
Qed.

Lemma fgt_fin (x y : Q) : fgt (Fin x) (Fin y) = true <-> y < x.
Proof.
  unfold fgt, fcompare.
  destruct (Qcompare_spec x y) as [H|H|H]; split; intros E;
    try discriminate; try reflexivity; lra.
Qed.

(** One bar of [_int_plusDM] and [_int_minusDM], from the cells [up] and
    [down]. *)
Lemma directional_cells (u d : cell) :
  finite_or_null u -> finite_or_null d ->
  directional_pair
    (c_when (b_and (c_gt u d) (c_gt u (lit 0))) u (lit 0))
    (c_when (b_and (c_gt d u) (c_gt d (lit 0))) d (lit 0)).
Proof.
  assert (Hzero : 0 <= Qred 0 /\ Qred 0 == 0)
    by (change (Qred 0) with 0; split; [lra | reflexivity]).
  destruct Hzero as [Z1 Z2].
  intros [->|(x & ->)] [->|(y & ->)]; unfold directional_pair, lit, fin.
  - exists (Qred 0), (Qred 0). cbn. auto 10.
  - exists (Qred 0). cbn [c_gt c_lt lift2 b_and c_when].
    destruct (fgt (Fin y) (Fin (Qred 0))) eqn:E; cbn [b_and c_when];
      exists (Qred 0); auto 10.
  - cbn [c_gt c_lt lift2 b_and c_when].
    destruct (fgt (Fin x) (Fin (Qred 0))) eqn:E; cbn [b_and c_when];
      exists (Qred 0), (Qred 0); auto 10.
  - cbn [c_gt lift2].
    destruct (fgt (Fin x) (Fin y)) eqn:Exy,
             (fgt (Fin x) (Fin (Qred 0))) eqn:Ex,
             (fgt (Fin y) (Fin x)) eqn:Eyx,
             (fgt (Fin y) (Fin (Qred 0))) eqn:Ey;
      cbn [b_and c_when];
      repeat match goal with
             | H : fgt _ _ = true |- _ => apply fgt_fin in H
             end;
      try (exfalso; lra);
      do 2 eexists; (split; [reflexivity|]); (split; [reflexivity|]);
      (split; [first [exact Z1 | lra]|]);
      (split; [first [exact Z1 | lra]|]);
      first [left; exact Z2 | right; exact Z2].
Qed.

(** X8. At every bar the smoothed inputs _int_plusDM and _int_minusDM are
    finite and non-negative and at most one of them is positive, and at the
    first bar both are 0. *)
Theorem directional_movements (df : DataFrame) (i : nat) (a b : cell) :
  nth_error (plusDM df) i = Some a ->
  nth_error (minusDM df) i = Some b ->
  directional_pair a b /\ (i = 0%nat -> a = lit 0 /\ b = lit 0).
Proof.
  unfold plusDM, minusDM. intros Ha Hb.
  apply nth_error_map2 in Ha as (u & d & Hu & Hd & ->).
  apply nth_error_map2 in Hb as (u' & d' & Hu' & Hd' & ->).
  assert (u' = u) by congruence. assert (d' = d) by congruence. subst.
  split.
  - apply directional_cells.
    + eapply Forall_nth_error_elim; [|exact Hu].
      apply diff_finite, col_finite.
    + eapply Forall_nth_error_elim; [|exact Hd].
      apply neg_finite, diff_finite, col_finite.
  - intros ->.
    assert (u = null).
    { unfold diff in Hu. destruct (col df High); simpl in Hu; congruence. }
    assert (d = null).
    { rewrite nth_error_map in Hd. unfold diff in Hd.
      destruct (col df Low); simpl in Hd; [discriminate|].
      injection Hd as <-. reflexivity. }
    subst. split; reflexivity.
Qed.

(** Bars whose high rises by 2 and then falls while the low falls by 3. *)
Lemma directional_movements_witness :
  directional_pair (lit 2) (lit 0) /\
  (1%nat = 0%nat -> lit 2 = lit 0 /\ lit 0 = lit 0).
Proof.
  apply (directional_movements
           {| col_open := [10; 11; 10]; col_high := [11; 13; 12];
              col_low := [9; 10; 7]; col_close := [10; 12; 8];
              col_volume := [1; 1; 1] |} 1); reflexivity.
Defined.

(** ** Errors and unused input *)


(** X10. Unless it is chosen as source_col, the open column is never read:
    two frames that agree on high, low, close and volume give the same
    result, in both files. *)
Theorem open_column_unused (ta : TaLib) (df1 df2 : DataFrame) (p : Params) :
  source_col p <> Open ->
  col_high df1 = col_high df2 -> col_low df1 = col_low df2 ->
  col_close df1 = col_close df2 -> col_volume df1 = col_volume df2 ->
  Eager.ProbTrend ta df1 p = Eager.ProbTrend ta df2 p /\
  Lazy.ProbTrend ta df1 p = Lazy.ProbTrend ta df2 p.
Proof.
  intros Hsrc Hh Hl Hc Hv.
  assert (Hs : get_column df1 (source_col p) = get_column df2 (source_col p)).
  { destruct (source_col p); simpl; congruence. }
  unfold_ProbTrend.
  unfold Eager.priceChangePercentage, Lazy.priceChangePercentage, plusDM,
    minusDM, truerange, col.
  cbn [get_column]. rewrite Hs, Hh, Hl, Hc, Hv. split; reflexivity.
Qed.

(** The falling bars with another open column. *)
Lemma open_column_unused_witness :
  let df2 :=
    {| col_open := [0; 0; 0; 0; 0; 0]; col_high := col_high falling;
       col_low := col_low falling; col_close := col_close falling;
       col_volume := col_volume falling |} in
  Eager.ProbTrend TaRef.talib falling (short_params 1 1 1 1 1)
  = Eager.ProbTrend TaRef.talib df2 (short_params 1 1 1 1 1) /\
  Lazy.ProbTrend TaRef.talib falling (short_params 1 1 1 1 1)
  = Lazy.ProbTrend TaRef.talib df2 (short_params 1 1 1 1 1).
Proof.
  intros df2.
  apply (open_column_unused TaRef.talib falling df2 (short_params 1 1 1 1 1));
    [discriminate | reflexivity | reflexivity | reflexivity | reflexivity].
Defined.

(** ** The directional indicators of the lazy file are finite *)

Lemma ewm_alpha_range (length : Z) (alpha : Q) :
  ewm_alpha length = Ok alpha -> 0 < alpha /\ alpha <= 1.
Proof.
  unfold ewm_alpha, py_div.
  destruct (Qeq_bool (inject_Z length) 0); [discriminate|]. cbn [bind].
  destruct (Qle_bool (1 / inject_Z length) 0) eqn:E0; [discriminate|].
  destruct (Qle_bool (1 / inject_Z length) 1) eqn:E1; [|discriminate].
  simpl. intros [= <-]. split.
  - apply Qnot_le_lt. intros H. apply Qle_bool_iff in H. congruence.
  - apply Qle_bool_iff, E1.
Qed.

Lemma ewm_scan_finite (alpha : Q) (s : series) :
  0 < alpha -> alpha <= 1 ->
  forall st, ewm_state_finite st -> Forall finite_or_null s ->
             Forall finite_or_null (ewm_scan alpha false st s).
Proof.
  intros Ha0 Ha1. induction s as [|x s IH]; intros st Hst Hs; [constructor|].
  inversion Hs as [|? ? Hx Hs']; subst.
  destruct Hst as [->|(e & w & -> & Hw)], Hx as [->|(v & ->)].
  - cbn. constructor; [left; reflexivity|]. apply IH; [left; reflexivity | assumption].
  - cbn. constructor; [right; eexists; reflexivity|].
    apply IH; [|assumption]. right. exists v, 1. split; [reflexivity | lra].
  - cbn. constructor; [left; reflexivity|].
    apply IH; [|assumption]. right. exists e, (w * (1 - alpha)).
    split; [reflexivity|]. apply Qmult_le_0_compat; lra.
  - assert (Hold : 0 <= w * (1 - alpha)) by (apply Qmult_le_0_compat; lra).
    cbn [ewm_scan ewm_step fmul fadd fdiv fin].
    rewrite Qeq_bool_false by (rewrite Qred_correct; lra).
    constructor; [right; eexists; reflexivity|].
    apply IH; [|assumption]. right. eexists _, 1.
    split; [reflexivity | lra].
Qed.

Lemma ewm_mean_finite (alpha : Q) (s : series) :
  0 < alpha -> alpha <= 1 -> Forall finite_or_null s ->
  Forall finite_or_null (ewm_mean alpha s).
Proof.
  intros H0 H1 Hs. apply ewm_scan_finite; auto. left. reflexivity.
Qed.

Lemma plusDM_finite (df : DataFrame) : Forall finite_or_null (plusDM df).
Proof.
  unfold plusDM.
  apply (Forall_map2_in finite_or_null finite_or_null).
  - intros u d Hu Hd.
    destruct (directional_cells u d Hu Hd) as (qa & qb & -> & _).
    right. eexists. reflexivity.
  - apply diff_finite, col_finite.
  - apply neg_finite, diff_finite, col_finite.
Qed.

Lemma minusDM_finite (df : DataFrame) : Forall finite_or_null (minusDM df).
Proof.
  unfold minusDM.
  apply (Forall_map2_in finite_or_null finite_or_null).
  - intros u d Hu Hd.
    destruct (directional_cells u d Hu Hd) as (qa & qb & _ & -> & _).
    right. eexists. reflexivity.
  - apply diff_finite, col_finite.
  - apply neg_finite, diff_finite, col_finite.
Qed.

Lemma fill_nan_null_finite (s : series) :
  Forall not_infinite s -> Forall finite_or_null (fill_nan null s).
Proof.
  intros H. unfold fill_nan. apply Forall_forall. intros x Hx.
  apply in_map_iff in Hx as (y & <- & Hy).
  rewrite Forall_forall in H. destruct (H y Hy) as [Hp Hn].
  destruct y as [[q| | |]|]; simpl; try congruence.
  - right. eexists. reflexivity.
  - left. reflexivity.
  - left. reflexivity.
Qed.

Lemma finite_not_infinite (s : series) :
  Forall finite_or_null s -> Forall not_infinite s.
Proof.
  apply Forall_impl. intros c [->|(q & ->)]; split; discriminate.
Qed.

(** The guarded quotient of the lazy file on one bar. *)
Lemma guarded_quotient_finite (x t : cell) :
  finite_or_null x -> finite_or_null t ->
  finite_cell
    (c_fill_null (fin 0)
       (c_div (c_mul x (lit 100)) (c_when (c_eq t (lit 0)) null t))).
Proof.
  intros Hx [->|(q & ->)].
  - destruct x; eexists; reflexivity.
  - cbn [c_eq lift2 lit].
    destruct (feq (Fin q) (fin 0)) eqn:E; cbn [c_when].
    + destruct x; eexists; reflexivity.
    + assert (Hq : ~ q == 0).
      { intros H. apply feq_zero in H. congruence. }
      destruct Hx as [->|(a & ->)]; [eexists; reflexivity|].
      unfold lit, fin. cbn [c_mul c_div lift2 fmul]. unfold fin.
      cbn [fdiv]. rewrite (Qeq_bool_false q 0 Hq). eexists. reflexivity.
Qed.

(** X11. In the lazy file, for a TA-Lib whose true range is never an
    infinity, plusDI and minusDI are finite numbers at every bar: never
    null, NaN or an infinity. *)
Theorem Lazy_directional_indicators_finite (ta : TaLib) (df : DataFrame)
  (length : Z) (plus minus : series) :
  Forall not_infinite (truerange ta df) ->
  Lazy._internal_ProbTrend_dirmov ta df length = Ok (plus, minus) ->
  Forall finite_cell plus /\ Forall finite_cell minus.
Proof.
  intros Htr H. unfold Lazy._internal_ProbTrend_dirmov in H.
  destruct (ewm_alpha length) as [alpha|e] eqn:Ea; [|discriminate].
  destruct (ewm_alpha_range _ _ Ea) as [H0 H1].
  unfold smoothed in H. cbn [bind] in H. injection H as <- <-.
  assert (Ht : Forall finite_or_null
                 (ewm_mean alpha (fill_nan null (truerange ta df)))).
  { apply ewm_mean_finite; auto. apply fill_nan_null_finite, Htr. }
  assert (Hp : Forall finite_or_null
                 (ewm_mean alpha (fill_nan null (plusDM df)))).
  { apply ewm_mean_finite; auto.
    apply fill_nan_null_finite, finite_not_infinite, plusDM_finite. }
  assert (Hm : Forall finite_or_null
                 (ewm_mean alpha (fill_nan null (minusDM df)))).
  { apply ewm_mean_finite; auto.
    apply fill_nan_null_finite, finite_not_infinite, minusDM_finite. }
  split; apply Forall_of_nth_error; intros i x Hx;
    unfold fill_null, mul_lit, Lazy.safe in Hx;
    apply nth_error_map_Some in Hx as (y & Hy & ->);
    apply nth_error_map2 in Hy as (a & t & Hxa & Hxt & ->);
    apply nth_error_map_Some in Hxa as (a' & Ha' & ->);
    apply nth_error_map_Some in Hxt as (t' & Ht' & ->);
    apply guarded_quotient_finite;
    first [ exact (Forall_nth_error_elim _ _ _ _ Hp Ha')
          | exact (Forall_nth_error_elim _ _ _ _ Hm Ha')
          | exact (Forall_nth_error_elim _ _ _ _ Ht Ht') ].
Qed.

Lemma Lazy_directional_indicators_finite_witness :
  Forall finite_cell [lit 0; lit 0; lit 0; lit 0] /\
  Forall finite_cell [lit 0; lit 0; lit 0; lit 0].
Proof.
  apply (Lazy_directional_indicators_finite TaRef.talib flat 2).
  - repeat constructor; discriminate.
  - reflexivity.
Defined.

(** ** The directional indicators where the smoothed true range is 0 *)

Lemma ewm_scan_defined (alpha : Q) (s : series) :
  0 < alpha -> alpha <= 1 ->
  forall st, ewm_state_finite st -> Forall finite_cell s ->
             Forall finite_cell (ewm_scan alpha false st s).
Proof.
  intros Ha0 Ha1. induction s as [|x s IH]; intros st Hst Hs; [constructor|].
  inversion Hs as [|? ? Hx Hs']; subst.
  destruct Hst as [->|(e & w & -> & Hw)], Hx as (v & ->).
  - cbn. constructor; [eexists; reflexivity|].
    apply IH; [|assumption]. right. exists v, 1. split; [reflexivity | lra].
  - assert (Hold : 0 <= w * (1 - alpha)) by (apply Qmult_le_0_compat; lra).
    cbn [ewm_scan ewm_step fmul fadd fdiv fin].
    rewrite Qeq_bool_false by (rewrite Qred_correct; lra).
    constructor; [eexists; reflexivity|].
    apply IH; [|assumption]. right. eexists _, 1.
    split; [reflexivity | lra].
Qed.

Lemma smoothed_movement_defined (alpha : Q) (dm : series) :
  0 < alpha -> alpha <= 1 -> Forall finite_cell dm ->
  Forall finite_cell (ewm_mean alpha (fill_nan null dm)).
Proof.
  intros H0 H1 Hdm. apply ewm_scan_defined; auto; [left; reflexivity|].
  unfold fill_nan. apply Forall_forall. intros x Hx.
  apply in_map_iff in Hx as (y & <- & Hy).
  rewrite Forall_forall in Hdm. destruct (Hdm y Hy) as (q & ->).
  eexists. reflexivity.
Qed.

Lemma plusDM_defined (df : DataFrame) : Forall finite_cell (plusDM df).
Proof.
  unfold plusDM.
  apply (Forall_map2_in finite_or_null finite_or_null).
  - intros u d Hu Hd.
    destruct (directional_cells u d Hu Hd) as (qa & qb & -> & _).
    eexists. reflexivity.
  - apply diff_finite, col_finite.
  - apply neg_finite, diff_finite, col_finite.
Qed.

Lemma minusDM_defined (df : DataFrame) : Forall finite_cell (minusDM df).
Proof.
  unfold minusDM.
  apply (Forall_map2_in finite_or_null finite_or_null).
  - intros u d Hu Hd.
    destruct (directional_cells u d Hu Hd) as (qa & qb & _ & -> & _).
    eexists. reflexivity.
  - apply diff_finite, col_finite.
  - apply neg_finite, diff_finite, col_finite.
Qed.

(** X12. In the eager file, for every TA-Lib: at a bar where the smoothed
    true range is 0, plusDI and minusDI are NaN or an infinity, because the
    division is not guarded and [fill_null(0)] only replaces nulls. *)
Theorem Eager_directional_indicators_unguarded (ta : TaLib) (df : DataFrame)
  (length : Z) (plus minus tr : series) (i : nat) (t : Q) (x y : cell) :
  Eager._internal_ProbTrend_dirmov ta df length = Ok (plus, minus) ->
  smoothed_truerange ta df length = Ok tr ->
  nth_error tr i = Some (Some (Fin t)) -> t == 0 ->
  nth_error plus i = Some x -> nth_error minus i = Some y ->
  not_finite x /\ not_finite y.
Proof.
  intros H Htr Ht Hz Hx Hy.
  unfold smoothed_truerange in Htr.
  destruct (ewm_alpha length) as [alpha|e] eqn:Ea; [|discriminate].
  cbn [bind] in Htr. injection Htr as <-.
  destruct (ewm_alpha_range _ _ Ea) as [H0 H1].
  assert (Hp : exists a, nth_error (ewm_mean alpha (fill_nan null (plusDM df))) i
                         = Some (Some (Fin a))).
  { pose proof H as H'. unfold Eager._internal_ProbTrend_dirmov in H'.
    rewrite Ea in H'. unfold smoothed in H'. cbn [bind] in H'.
    injection H' as <- _. unfold fill_null, mul_lit in Hx.
    apply nth_error_map_Some in Hx as (? & Hx & _).
    apply nth_error_map2 in Hx as (? & ? & Hx & _ & _).
    apply nth_error_map_Some in Hx as (c & Hc & _).
    destruct (Forall_nth_error_elim _ _ _ _
                (smoothed_movement_defined alpha _ H0 H1 (plusDM_defined df)) Hc)
      as (a & ->).
    eauto. }
  assert (Hm : exists b, nth_error (ewm_mean alpha (fill_nan null (minusDM df))) i
                         = Some (Some (Fin b))).
  { pose proof H as H'. unfold Eager._internal_ProbTrend_dirmov in H'.
    rewrite Ea in H'. unfold smoothed in H'. cbn [bind] in H'.
    injection H' as _ <-. unfold fill_null, mul_lit in Hy.
    apply nth_error_map_Some in Hy as (? & Hy & _).
    apply nth_error_map2 in Hy as (? & ? & Hy & _ & _).
    apply nth_error_map_Some in Hy as (c & Hc & _).
    destruct (Forall_nth_error_elim _ _ _ _
                (smoothed_movement_defined alpha _ H0 H1 (minusDM_defined df)) Hc)
      as (b & ->).
    eauto. }
  destruct Hp as [a Ha], Hm as [b Hb].
  destruct (Eager_dirmov_zero_range ta df length alpha Ea plus minus i a b t
              H Ha Hb Ht Hz) as [(f & Hf & Ff) (g & Hg & Fg)].
  split; [exists f | exists g]; split; congruence.
Qed.

Lemma Eager_directional_indicators_unguarded_witness :
  not_finite (Some NaN) /\ not_finite (Some NaN).
Proof.
  apply (Eager_directional_indicators_unguarded TaRef.talib flat 2
           [lit 0; Some NaN; Some NaN; Some NaN]
           [lit 0; Some NaN; Some NaN; Some NaN]
           [null; lit 0; lit 0; lit 0] 1 0); reflexivity.
Defined.

(** X13. In the lazy file, for every TA-Lib: at a bar where the smoothed
    true range is 0, plusDI and minusDI are 0. *)
Theorem Lazy_directional_indicators_guarded (ta : TaLib) (df : DataFrame)
  (length : Z) (plus minus tr : series) (i : nat) (t : Q) (x y : cell) :
  Lazy._internal_ProbTrend_dirmov ta df length = Ok (plus, minus) ->
  smoothed_truerange ta df length = Ok tr ->
  nth_error tr i = Some (Some (Fin t)) -> t == 0 ->
  nth_error plus i = Some x -> nth_error minus i = Some y ->
  x = lit 0 /\ y = lit 0.
Proof.
  intros H Htr Ht Hz Hx Hy.
  unfold smoothed_truerange in Htr.
  destruct (ewm_alpha length) as [alpha|e] eqn:Ea; [|discriminate].
  cbn [bind] in Htr. injection Htr as <-.
  unfold Lazy._internal_ProbTrend_dirmov in H.
  rewrite Ea in H. unfold smoothed in H. cbn [bind] in H.
  injection H as <- <-.
  assert (Hsafe : forall c,
             nth_error (Lazy.safe (ewm_mean alpha
                                     (fill_nan null (truerange ta df)))) i
             = Some c -> c = null).
  { intros c Hc. unfold Lazy.safe in Hc.
    apply nth_error_map_Some in Hc as (c' & Hc' & ->).
    rewrite Ht in Hc'. injection Hc' as <-.
    cbn [c_eq lift2 lit]. rewrite (proj2 (feq_zero t) Hz). reflexivity. }
  unfold fill_null, mul_lit in Hx, Hy.
  apply nth_error_map_Some in Hx as (x' & Hx & ->).
  apply nth_error_map2 in Hx as (n & c & _ & Hc & ->).
  apply nth_error_map_Some in Hy as (y' & Hy & ->).
  apply nth_error_map2 in Hy as (n' & c' & _ & Hc' & ->).
  rewrite (Hsafe c Hc), (Hsafe c' Hc').
  destruct n, n'; split; reflexivity.
Qed.

Lemma Lazy_directional_indicators_guarded_witness :
  lit 0 = lit 0 /\ lit 0 = lit 0.
Proof.
  apply (Lazy_directional_indicators_guarded TaRef.talib flat 2
           [lit 0; lit 0; lit 0; lit 0] [lit 0; lit 0; lit 0; lit 0]
           [null; lit 0; lit 0; lit 0] 1 0); reflexivity.
Defined.

(** ** The direction test on the kernel *)

Lemma kernel_weight_tap0 (lookback : Z) (w : Q) :
  kernel_weight lookback 0 = Ok w -> w == 1.
Proof.
  unfold kernel_weight, py_div.
  destruct (Qeq_bool (inject_Z (lookback * lookback) * 2) 0); [discriminate|].
  cbn [bind]. intros [= <-].
  change (inject_Z (0 * 0)) with 0.
  setoid_replace (0 / (inject_Z (lookback * lookback) * 2)) with 0
    by (unfold Qdiv; ring).
  reflexivity.
Qed.

Lemma ratQ_lookback_nonzero (s out : series) (lookback : Z) :
  _ratQ s lookback = Ok out -> lookback <> 0%Z.
Proof.
  intros H ->. unfold _ratQ in H. rewrite kernel_weight_zero in H.
  discriminate.
Qed.

Lemma quotient_sign (n d : Q) :
  0 < d ->
  (0 < n -> 0 < n / d) /\ (n < 0 -> n / d < 0) /\ (n == 0 -> n / d == 0).
Proof.
  intros Hd. repeat split; intros Hn.
  - apply Qlt_shift_div_l; lra.
  - apply Qlt_shift_div_r; lra.
  - rewrite Hn. unfold Qdiv. ring.
Qed.



(** ** The lazy file under a rescaling of the weights *)



(** ** The height of the results *)

Lemma map3_length {A B C D} (f : A -> B -> C -> D) (xs : list A) :
  forall ys zs,
    length (map3 f xs ys zs)
    = Nat.min (length xs) (Nat.min (length ys) (length zs)).
Proof.
  induction xs as [|x xs IH]; intros [|y ys] [|z zs]; simpl; auto.
Qed.

Lemma diff_length (s : series) : length (diff s) = length s.
Proof.
  destruct s as [|x t]; simpl; [reflexivity|].
  rewrite map2_length. simpl. f_equal. lia.
Qed.

Lemma fill_null_length {A} (v : A) (s : list (option A)) :
  length (fill_null v s) = length s.
Proof. apply length_map. Qed.

Lemma fill_nan_length (v : cell) (s : series) :
  length (fill_nan v s) = length s.
Proof. apply length_map. Qed.

Lemma replace_zero_null_length (s : series) :
  length (replace_zero_null s) = length s.
Proof. apply length_map. Qed.

Lemma round2_length (s : series) : length (round2 s) = length s.
Proof. apply length_map. Qed.

Lemma gt_lit_length (s : series) (q : Q) : length (gt_lit s q) = length s.
Proof. apply length_map. Qed.

Lemma lt_lit_length (s : series) (q : Q) : length (lt_lit s q) = length s.
Proof. apply length_map. Qed.

Lemma mul_lit_length (s : series) (q : Q) : length (mul_lit s q) = length s.
Proof. apply length_map. Qed.

Lemma lit_mul_length (q : Q) (s : series) : length (lit_mul q s) = length s.
Proof. apply length_map. Qed.

Lemma div_lit_length (s : series) (q : Q) : length (div_lit s q) = length s.
Proof. apply length_map. Qed.

Lemma safe_length (s : series) : length (Lazy.safe s) = length s.
Proof. apply length_map. Qed.

Lemma col_length (df : DataFrame) (c : column) :
  length (col df c) = length (get_column df c).
Proof. apply length_map. Qed.

Lemma rolling_sum_length (w : nat) (s : bseries) :
  length (rolling_sum w s) = length s.
Proof. unfold rolling_sum. now rewrite length_map, length_seq. Qed.

Lemma rolling_mean_weighted_length (weights : list Q) (s : series) :
  length (rolling_mean_weighted weights s) = length s.
Proof. unfold rolling_mean_weighted. now rewrite length_map, length_seq. Qed.

Lemma ewm_scan_length (alpha : Q) (b : bool) (s : series) :
  forall st, length (ewm_scan alpha b st s) = length s.
Proof.
  induction s as [|x t IH]; intros st; simpl; [reflexivity|].
  destruct (ewm_step alpha b st x) as [st' y]. simpl. now rewrite IH.
Qed.

Lemma ewm_mean_length (alpha : Q) (s : series) :
  length (ewm_mean alpha s) = length s.
Proof. apply ewm_scan_length. Qed.

Lemma weighted_average_length (w1 w2 w3 w4 w5 total : Q)
  (p1 p2 p3 p4 p5 : series) (n : nat) :
  length p1 = n -> length p2 = n -> length p3 = n -> length p4 = n ->
  length p5 = n ->
  length (weighted_average w1 w2 w3 w4 w5 total p1 p2 p3 p4 p5) = n.
Proof.
  intros. unfold weighted_average.
  rewrite div_lit_length, !map2_length, !lit_mul_length. lia.
Qed.

Create Rewrite HintDb lengths.

#[local] Hint Rewrite @map2_length @map3_length @length_map diff_length
  @shift1_length @fill_null_length fill_nan_length replace_zero_null_length
  round2_length gt_lit_length lt_lit_length mul_lit_length lit_mul_length
  div_lit_length safe_length col_length rolling_sum_length
  rolling_mean_weighted_length ewm_mean_length : lengths.

Lemma lagged_count_length (lookback : Z) (cond : bseries) (s : series) :
  lagged_count lookback cond = Ok s -> length s = length cond.
Proof.
  unfold lagged_count. intros H. inv_bind. injection H as <-.
  now autorewrite with lengths.
Qed.

Lemma ratQ_length (s out : series) (lookback : Z) :
  _ratQ s lookback = Ok out -> length out = length s.
Proof.
  unfold _ratQ. intros H. inv_bind. injection H as <-.
  now autorewrite with lengths.
Qed.

Ltac lengths :=
  repeat match goal with
         | E : lagged_count _ _ = Ok _ |- _ => apply lagged_count_length in E
         | E : _ratQ _ _ = Ok _ |- _ => apply ratQ_length in E
         end;
  unfold plusDM, minusDM, truerange, Eager.priceChangePercentage,
    Lazy.priceChangePercentage, Eager.probability, Lazy.probability in *;
  autorewrite with lengths in *;
  repeat match goal with
         | E : length _ = _ |- _ => rewrite E in *
         end;
  autorewrite with lengths in *.

Section Heights.
Context (ta : TaLib) (df : DataFrame) (p : Params).
Hypothesis Hdf : rectangular df.
Hypothesis Hta : one_value_per_bar ta df p.

Lemma column_height (c : column) : length (get_column df c) = height df.
Proof.
  destruct Hdf as (H1 & H2 & H3 & H4). destruct c; simpl; auto.
Qed.

Lemma smoothed_height (alpha : Q) (m pl tr : series) :
  smoothed ta df alpha = (m, pl, tr) ->
  length m = height df /\ length pl = height df /\ length tr = height df.
Proof.
  destruct Hta as (T1 & _). unfold smoothed. intros [= <- <- <-].
  unfold plusDM, minusDM, truerange. autorewrite with lengths.
  rewrite !column_height, T1. repeat split; lia.
Qed.

Lemma Eager_dirmov_height (len : Z) (plus minus : series) :
  Eager._internal_ProbTrend_dirmov ta df len = Ok (plus, minus) ->
  length plus = height df /\ length minus = height df.
Proof.
  unfold Eager._internal_ProbTrend_dirmov. intros H.
  apply bind_Ok in H as (alpha & _ & H).
  destruct (smoothed ta df alpha) as [[m pl] tr] eqn:Es.
  destruct (smoothed_height _ _ _ _ Es) as (L1 & L2 & L3).
  injection H as <- <-. autorewrite with lengths. rewrite L1, L2, L3.
  split; lia.
Qed.

Lemma Lazy_dirmov_height (len : Z) (plus minus : series) :
  Lazy._internal_ProbTrend_dirmov ta df len = Ok (plus, minus) ->
  length plus = height df /\ length minus = height df.
Proof.
  unfold Lazy._internal_ProbTrend_dirmov. intros H.
  apply bind_Ok in H as (alpha & _ & H).
  destruct (smoothed ta df alpha) as [[m pl] tr] eqn:Es.
  destruct (smoothed_height _ _ _ _ Es) as (L1 & L2 & L3).
  injection H as <- <-. autorewrite with lengths. rewrite L1, L2, L3.
  split; lia.
Qed.

Lemma Eager_adx_height (dilen adxlen : Z) (adx plus minus : series) :
  Eager._internal_ProbTrend_adx ta df dilen adxlen = Ok (adx, plus, minus) ->
  length adx = height df /\ length plus = height df /\
  length minus = height df.
Proof.
  unfold Eager._internal_ProbTrend_adx. intros H.
  apply bind_Ok in H as ([pl mi] & E & H).
  destruct (Eager_dirmov_height _ _ _ E) as (L1 & L2).
  apply bind_Ok in H as (alpha & _ & H). injection H as <- <- <-.
  autorewrite with lengths. rewrite L1, L2. repeat split; lia.
Qed.

Lemma Lazy_adx_height (dilen adxlen : Z) (adx plus minus : series) :
  Lazy._internal_ProbTrend_adx ta df dilen adxlen = Ok (adx, plus, minus) ->
  length adx = height df /\ length plus = height df /\
  length minus = height df.
Proof.
  unfold Lazy._internal_ProbTrend_adx. intros H.
  apply bind_Ok in H as ([pl mi] & E & H).
  destruct (Lazy_dirmov_height _ _ _ E) as (L1 & L2).
  apply bind_Ok in H as (alpha & _ & H). injection H as <- <- <-.
  autorewrite with lengths. rewrite L1, L2. repeat split; lia.
Qed.

Lemma Eager_trends_height (k : indicator) (up down : series) :
  Eager.trends ta df p k = Ok (up, down) ->
  length up = height df /\ length down = height df.
Proof.
  destruct Hta as (_ & T2 & T3 & T4 & T5).
  intros H. destruct k; unfold Eager.trends in H.
  - inv_bind. injection H as <- <-. lengths.
    rewrite !column_height. split; lia.
  - inv_bind. injection H as <- <-. lengths. split; lia.
  - apply bind_Ok in H as ([[adx pl] mi] & E & H).
    destruct (Eager_adx_height _ _ _ _ _ E) as (L1 & L2 & L3).
    inv_bind. injection H as <- <-. lengths. split; lia.
  - inv_bind. injection H as <- <-. lengths. split; lia.
  - inv_bind. injection H as <- <-. lengths.
    rewrite !column_height. split; lia.
Qed.

Lemma Lazy_trends_height (k : indicator) (up down : series) :
  Lazy.trends ta df p k = Ok (up, down) ->
  length up = height df /\ length down = height df.
Proof.
  destruct Hta as (_ & T2 & T3 & T4 & T5).
  intros H. destruct k; unfold Lazy.trends in H.
  - inv_bind. injection H as <- <-. lengths.
    rewrite !column_height. split; lia.
  - inv_bind. injection H as <- <-. lengths. split; lia.
  - apply bind_Ok in H as ([[adx pl] mi] & E & H).
    destruct (Lazy_adx_height _ _ _ _ _ E) as (L1 & L2 & L3).
    inv_bind. injection H as <- <-. lengths. split; lia.
  - inv_bind. injection H as <- <-. lengths. split; lia.
  - inv_bind. injection H as <- <-. lengths.
    rewrite !column_height. split; lia.
Qed.

Lemma Eager_probabilities_height (k : indicator) (pU pD : series) :
  Eager.probabilities ta df p k = Ok (pU, pD) ->
  length pU = height df /\ length pD = height df.
Proof.
  unfold Eager.probabilities. intros H.
  apply bind_Ok in H as ([up down] & E & H).
  destruct (Eager_trends_height _ _ _ E) as (L1 & L2).
  injection H as <- <-. unfold Eager.probability.
  autorewrite with lengths. rewrite L1, L2. split; lia.
Qed.

Lemma Lazy_probabilities_height (k : indicator) (pU pD : series) :
  Lazy.probabilities ta df p k = Ok (pU, pD) ->
  length pU = height df /\ length pD = height df.
Proof.
  unfold Lazy.probabilities. intros H.
  apply bind_Ok in H as ([up down] & E & H).
  destruct (Lazy_trends_height _ _ _ E) as (L1 & L2).
  injection H as <- <-. unfold Lazy.probability.
  autorewrite with lengths. rewrite L1, L2. split; lia.
Qed.

Lemma Eager_oscillator_height (osc : series) :
  Eager.combinedOscillatorValue ta df p = Ok osc -> length osc = height df.
Proof.
  intros H.
  destruct (Eager_oscillator_form _ _ _ _ H)
    as (pU1 & pD1 & pU2 & pD2 & pU3 & pD3 & pU4 & pD4 & pU5 & pD5 &
        E1 & E2 & E3 & E4 & E5 & ->).
  apply Eager_probabilities_height in E1 as (? & ?), E2 as (? & ?),
    E3 as (? & ?), E4 as (? & ?), E5 as (? & ?).
  rewrite map2_length,
    !(weighted_average_length _ _ _ _ _ _ _ _ _ _ _ (height df)) by assumption.
  lia.
Qed.

Lemma Lazy_oscillator_height (osc : series) :
  Lazy.combinedOscillatorValue ta df p = Ok osc -> length osc = height df.
Proof.
  intros H.
  destruct (Lazy_oscillator_form _ _ _ _ H)
    as (pU1 & pD1 & pU2 & pD2 & pU3 & pD3 & pU4 & pD4 & pU5 & pD5 &
        E1 & E2 & E3 & E4 & E5 & ->).
  apply Lazy_probabilities_height in E1 as (? & ?), E2 as (? & ?),
    E3 as (? & ?), E4 as (? & ?), E5 as (? & ?).
  rewrite map2_length,
    !(weighted_average_length _ _ _ _ _ _ _ _ _ _ _ (height df)) by assumption.
  lia.
Qed.

End Heights.

(** X16. On a frame whose columns have the same height, with a backend that
    returns one value per bar, the combined oscillator and the signal of
    both files have exactly one entry per bar. *)
Theorem signal_one_entry_per_bar (ta : TaLib) (df : DataFrame) (p : Params)
  (osc s : series) :
  rectangular df -> one_value_per_bar ta df p ->
  ProbTrend_run ta df p osc s ->
  length osc = height df /\ length s = height df.
Proof.
  intros Hdf Hta Hrun.
  rewrite (ProbTrend_run_signal _ _ _ _ _ Hrun), signal_length.
  destruct Hrun as [[H _]|[H _]].
  - rewrite (Eager_oscillator_height ta df p Hdf Hta osc H). auto.
  - rewrite (Lazy_oscillator_height ta df p Hdf Hta osc H). auto.
Qed.

Lemma signal_one_entry_per_bar_witness :
  length [lit 0; lit 0; lit 60; lit 20; lit 20; lit 20] = height falling /\
  length [null; null; lit 1; lit 1; lit 1; lit 1] = height falling.
Proof.
  apply (signal_one_entry_per_bar TaRef.talib falling
           (short_params 2 0 0 0 3)).
  - repeat split.
  - repeat split.
  - left. split; vm_compute; reflexivity.
Defined.

(** ** The price change percentage *)

Lemma nth_error_diff_next (s : series) (i : nat) (x y : cell) :
  nth_error s i = Some x -> nth_error s (S i) = Some y ->
  nth_error (diff s) (S i) = Some (c_sub y x).
Proof.
  intros Hx Hy. destruct s as [|x0 t]; [destruct i; discriminate|].
  unfold diff. cbn [nth_error] in *. apply nth_error_map2. eauto.
Qed.

Lemma nth_error_col (df : DataFrame) (c : column) (i : nat) (a : Q) :
  nth_error (get_column df c) i = Some a ->
  nth_error (col df c) i = Some (lit a).
Proof. intros H. unfold col. rewrite nth_error_map, H. reflexivity. Qed.

Lemma unguarded_quotient_not_finite (n : cell) (q a : Q) :
  n = Some (Fin q) -> a == 0 ->
  not_finite (c_mul (c_div n (lit a)) (lit 100)).
Proof.
  intros -> Ha. cbn [c_div c_mul lift2 lit fin fdiv].
  rewrite Qeq_bool_true by (rewrite Qred_correct; exact Ha).
  destruct (q ?= 0); eexists; (split; [reflexivity|]); reflexivity.
Qed.

(** X17. After the first bar the price change percentage is
    (source[i] - source[i-1]) / source[i-1] * 100 in both files when the
    previous source value is not 0; when it is 0 the eager file yields NaN
    or an infinity and the lazy file null. *)
Theorem priceChangePercentage_values (df : DataFrame) (c : column) (i : nat)
  (a b : Q) :
  nth_error (get_column df c) i = Some a ->
  nth_error (get_column df c) (S i) = Some b ->
  (~ a == 0 ->
   exists x,
     nth_error (Eager.priceChangePercentage df c) (S i) = Some x /\
     nth_error (Lazy.priceChangePercentage df c) (S i) = Some x /\
     has_value x ((b - a) / a * 100)) /\
  (a == 0 ->
   (exists x,
      nth_error (Eager.priceChangePercentage df c) (S i) = Some x /\
      not_finite x) /\
   nth_error (Lazy.priceChangePercentage df c) (S i) = Some null).
Proof.
  intros Ha Hb.
  pose proof (nth_error_col _ _ _ _ Ha) as Ca.
  pose proof (nth_error_col _ _ _ _ Hb) as Cb.
  assert (Hlen : (S i < length (col df c))%nat).
  { apply nth_error_Some. congruence. }
  pose proof (nth_error_diff_next _ _ _ _ Ca Cb) as Hd.
  pose proof (nth_error_shift1_next (col df c) i Hlen) as Hs.
  rewrite Ca in Hs.
  assert (He : nth_error (Eager.priceChangePercentage df c) (S i)
               = Some (c_mul (c_div (c_sub (lit b) (lit a)) (lit a))
                             (lit 100))).
  { unfold Eager.priceChangePercentage, mul_lit.
    rewrite nth_error_map.
    rewrite (proj2 (nth_error_map2 c_div _ _ (S i) _)
               (ex_intro _ _ (ex_intro _ _ (conj Hd (conj Hs eq_refl))))).
    reflexivity. }
  assert (Hl : nth_error (Lazy.priceChangePercentage df c) (S i)
               = Some (c_mul (c_div (c_sub (lit b) (lit a))
                                    (c_when (c_eq (lit a) (lit 0)) null
                                            (lit a)))
                             (lit 100))).
  { unfold Lazy.priceChangePercentage, mul_lit, Lazy.safe.
    rewrite nth_error_map.
    assert (Hs' : nth_error
                    (map (fun x => c_when (c_eq x (lit 0)) null x)
                         (shift1 (col df c))) (S i)
                  = Some (c_when (c_eq (lit a) (lit 0)) null (lit a))).
    { rewrite nth_error_map, Hs. reflexivity. }
    rewrite (proj2 (nth_error_map2 c_div _ _ (S i) _)
               (ex_intro _ _ (ex_intro _ _ (conj Hd (conj Hs' eq_refl))))).
    reflexivity. }
  assert (Hg : c_eq (lit a) (lit 0) = Some (feq (Fin (Qred a)) (fin 0)))
    by reflexivity.
  split; intros Hz.
  - eexists. split; [exact He|]. split.
    + rewrite Hl, Hg.
      destruct (feq (Fin (Qred a)) (fin 0)) eqn:E; [|reflexivity].
      apply feq_zero in E. rewrite Qred_correct in E. contradiction.
    + apply has_value_mul; [|apply has_value_lit].
      apply has_value_div; [exact Hz | | apply has_value_lit].
      apply has_value_sub; apply has_value_lit.
  - split.
    + eexists. split; [exact He|].
      destruct (has_value_sub (lit b) (lit a) b a
                  (has_value_lit b) (has_value_lit a)) as (q & Eq & _).
      exact (unguarded_quotient_not_finite _ q a Eq Hz).
    + rewrite Hl, Hg.
      rewrite (proj2 (feq_zero (Qred a)))
        by (rewrite Qred_correct; exact Hz).
      cbn [c_when]. destruct (c_sub (lit b) (lit a)); reflexivity.
Qed.

Lemma priceChangePercentage_values_witness :
  (exists x,
      nth_error (Eager.priceChangePercentage through_zero Close) 2 = Some x /\
      not_finite x) /\
  nth_error (Lazy.priceChangePercentage through_zero Close) 2 = Some null.
Proof.
  destruct (priceChangePercentage_values through_zero Close 1 0 3) as [_ H];
    [reflexivity | reflexivity |].
  apply H. reflexivity.
Defined.

(** ** The range of the ADX *)

Lemma convex_nonneg : convex (fun q => 0 <= q).
Proof.
  split.
  - intros x y E H. rewrite <- E. exact H.
  - intros x y s t Hx Hy Hs Ht.
    apply Qle_shift_div_l; [lra|]. rewrite Qmult_0_l.
    pose proof (Qmult_le_0_compat s x Hs Hx).
    pose proof (Qmult_le_0_compat t y (Qlt_le_weak _ _ Ht) Hy). lra.
Qed.

Lemma convex_unit : convex (fun q => 0 <= q <= 1).
Proof.
  split.
  - intros x y E H. rewrite <- E. exact H.
  - intros x y s t [Hx0 Hx1] [Hy0 Hy1] Hs Ht.
    pose proof (Qmult_le_0_compat s x Hs Hx0).
    pose proof (Qmult_le_0_compat t y (Qlt_le_weak _ _ Ht) Hy0).
    assert (s * x <= s * 1).
    { rewrite !(Qmult_comm s). apply Qmult_le_compat_r; assumption. }
    assert (t * y <= t * 1).
    { rewrite !(Qmult_comm t). apply Qmult_le_compat_r; lra. }
    split.
    + apply Qle_shift_div_l; lra.
    + apply Qle_shift_div_r; lra.
Qed.

Lemma ewm_scan_sat (P : Q -> Prop) (alpha : Q) (s : series) :
  convex P -> 0 < alpha -> alpha <= 1 ->
  forall st, ewm_state_sat P st -> Forall (null_or P) s ->
             Forall (null_or P) (ewm_scan alpha false st s).
Proof.
  intros [Heq Hmean] Ha0 Ha1.
  induction s as [|x s IH]; intros st Hst Hs; [constructor|].
  inversion Hs as [|? ? Hx Hs']; subst.
  destruct Hst as [->|(e & w & -> & He & Hw)], Hx as [->|(v & -> & Hv)].
  - cbn. constructor; [left; reflexivity|].
    apply IH; [left; reflexivity | assumption].
  - cbn. constructor; [right; eauto|].
    apply IH; [|assumption]. right. exists v, 1.
    split; [reflexivity|]. split; [assumption | lra].
  - cbn. constructor; [left; reflexivity|].
    apply IH; [|assumption]. right. exists e, (w * (1 - alpha)).
    split; [reflexivity|]. split; [assumption|].
    apply Qmult_le_0_compat; lra.
  - assert (Hold : 0 <= w * (1 - alpha)) by (apply Qmult_le_0_compat; lra).
    cbn [ewm_scan ewm_step fmul fadd fdiv fin].
    rewrite Qeq_bool_false by (rewrite Qred_correct; lra).
    match goal with
    | |- Forall _ (Some (fin ?q) :: _) => assert (Hq : P (Qred q))
    end.
    { apply (Heq ((w * (1 - alpha) * e + alpha * v)
                  / (w * (1 - alpha) + alpha))).
      - rewrite !Qred_correct. reflexivity.
      - apply Hmean; assumption. }
    constructor; [right; eexists; split; [reflexivity | exact Hq]|].
    apply IH; [|assumption]. right. eexists _, 1.
    split; [reflexivity|]. split; [exact Hq | lra].
Qed.

Lemma ewm_mean_sat (P : Q -> Prop) (alpha : Q) (s : series) :
  convex P -> 0 < alpha -> alpha <= 1 -> Forall (null_or P) s ->
  Forall (null_or P) (ewm_mean alpha s).
Proof.
  intros HP H0 H1 Hs. apply ewm_scan_sat; auto. left. reflexivity.
Qed.

Lemma Forall_both {A} (P R : A -> Prop) (l : list A) :
  Forall P l -> Forall R l -> Forall (fun x => P x /\ R x) l.
Proof.
  intros HP HR. apply Forall_forall. intros x Hx.
  rewrite Forall_forall in HP, HR. auto.
Qed.

Lemma nonneg_plusDM (df : DataFrame) : Forall nonneg_cell (plusDM df).
Proof.
  unfold plusDM.
  apply (Forall_map2_in finite_or_null finite_or_null).
  - intros u d Hu Hd.
    destruct (directional_cells u d Hu Hd) as (qa & qb & -> & _ & H & _).
    exists qa. auto.
  - apply diff_finite, col_finite.
  - apply neg_finite, diff_finite, col_finite.
Qed.

Lemma nonneg_minusDM (df : DataFrame) : Forall nonneg_cell (minusDM df).
Proof.
  unfold minusDM.
  apply (Forall_map2_in finite_or_null finite_or_null).
  - intros u d Hu Hd.
    destruct (directional_cells u d Hu Hd) as (qa & qb & _ & -> & _ & H & _).
    exists qb. auto.
  - apply diff_finite, col_finite.
  - apply neg_finite, diff_finite, col_finite.
Qed.

Lemma fill_nan_null_nonneg (s : series) :
  Forall nonneg_or_missing s ->
  Forall (null_or (fun q => 0 <= q)) (fill_nan null s).
Proof.
  intros H. unfold fill_nan. apply Forall_forall. intros x Hx.
  apply in_map_iff in Hx as (y & <- & Hy).
  rewrite Forall_forall in H.
  destruct (H y Hy) as [->|[->|(q & -> & Hq)]].
  - left. reflexivity.
  - left. reflexivity.
  - right. exists q. auto.
Qed.

Lemma nonneg_missing (s : series) :
  Forall nonneg_cell s -> Forall nonneg_or_missing s.
Proof. apply Forall_impl. intros c H. right. right. exact H. Qed.

(** The guarded quotient of the lazy file on one bar. *)
Lemma guarded_quotient_nonneg (x t : cell) :
  null_or (fun q => 0 <= q) x -> null_or (fun q => 0 <= q) t ->
  nonneg_cell
    (c_fill_null (fin 0)
       (c_div (c_mul x (lit 100)) (c_when (c_eq t (lit 0)) null t))).
Proof.
  assert (Hzero : nonneg_cell (Some (fin 0))).
  { exists (Qred 0). split; [reflexivity|]. change (Qred 0) with 0. lra. }
  intros Hx [->|(q & -> & Hq0)].
  - destruct x; exact Hzero.
  - cbn [c_eq lift2 lit].
    destruct (feq (Fin q) (fin 0)) eqn:E; cbn [c_when].
    + destruct x; exact Hzero.
    + assert (Hq : ~ q == 0).
      { intros H. apply feq_zero in H. congruence. }
      destruct Hx as [->|(a & -> & Ha)]; [exact Hzero|].
      unfold lit, fin. cbn [c_mul c_div lift2 fmul]. unfold fin.
      cbn [fdiv]. rewrite (Qeq_bool_false q 0 Hq).
      eexists. split; [reflexivity|].
      rewrite !Qred_correct.
      apply Qle_shift_div_l; [lra|]. rewrite Qmult_0_l.
      apply Qmult_le_0_compat; [exact Ha | discriminate].
Qed.

Lemma Lazy_dirmov_nonneg (ta : TaLib) (df : DataFrame) (length : Z)
  (plus minus : series) :
  Forall nonneg_or_missing (truerange ta df) ->
  Lazy._internal_ProbTrend_dirmov ta df length = Ok (plus, minus) ->
  Forall nonneg_cell plus /\ Forall nonneg_cell minus.
Proof.
  intros Htr H. unfold Lazy._internal_ProbTrend_dirmov in H.
  destruct (ewm_alpha length) as [alpha|e] eqn:Ea; [|discriminate].
  destruct (ewm_alpha_range _ _ Ea) as [H0 H1].
  unfold smoothed in H. cbn [bind] in H. injection H as <- <-.
  assert (Ht : Forall (null_or (fun q => 0 <= q))
                 (ewm_mean alpha (fill_nan null (truerange ta df)))).
  { apply ewm_mean_sat; auto using convex_nonneg, fill_nan_null_nonneg. }
  assert (Hp : Forall (null_or (fun q => 0 <= q))
                 (ewm_mean alpha (fill_nan null (plusDM df)))).
  { apply ewm_mean_sat; auto using convex_nonneg.
    apply fill_nan_null_nonneg, nonneg_missing, nonneg_plusDM. }
  assert (Hm : Forall (null_or (fun q => 0 <= q))
                 (ewm_mean alpha (fill_nan null (minusDM df)))).
  { apply ewm_mean_sat; auto using convex_nonneg.
    apply fill_nan_null_nonneg, nonneg_missing, nonneg_minusDM. }
  assert (Hquot : forall num,
             Forall (null_or (fun q => 0 <= q)) num ->
             Forall nonneg_cell
               (fill_null (fin 0)
                  (map2 c_div (mul_lit num 100)
                     (Lazy.safe
                        (ewm_mean alpha
                           (fill_nan null (truerange ta df))))))).
  { intros num Hnum. unfold fill_null, mul_lit, Lazy.safe.
    revert Ht. generalize (ewm_mean alpha (fill_nan null (truerange ta df))).
    induction Hnum as [|x num Hx _ IH]; intros tr Htr'; [constructor|].
    destruct Htr' as [|t tr Ht Htr']; [constructor|].
    cbn [map map2]. constructor; [|apply IH, Htr'].
    apply guarded_quotient_nonneg; assumption. }
  split; apply Hquot; assumption.
Qed.

Lemma adx_operand_fused (plus : series) : forall minus,
  map2 c_div (map c_abs (map2 c_sub plus minus))
       (map (fun s => c_when (c_eq s (lit 0)) (lit 1) s)
            (map2 c_add plus minus))
  = map2 adx_operand_cell plus minus.
Proof.
  induction plus as [|x plus IH]; intros [|y minus]; cbn [map map2];
    [reflexivity | reflexivity | reflexivity |].
  rewrite IH. reflexivity.
Qed.

Lemma has_value_abs (x : cell) (a : Q) :
  has_value x a -> has_value (c_abs x) (Qabs a).
Proof.
  intros (a' & -> & Ha). eexists; split; [reflexivity|].
  rewrite Qred_correct, Ha. reflexivity.
Qed.

Lemma has_value_within (lo hi q : Q) (c : cell) :
  has_value c q -> lo <= q <= hi -> within lo hi c.
Proof.
  intros (q' & -> & E) H. exists q'. split; [reflexivity|].
  rewrite E. exact H.
Qed.

Lemma nonneg_value (c : cell) :
  nonneg_cell c -> exists q, has_value c q /\ 0 <= q.
Proof.
  intros (q & -> & H). exists q. split; [|exact H].
  exists q. split; reflexivity.
Qed.

(** The operand |plus - minus| / (plus + minus) lies between 0 and 1; with
    plus + minus = 0 it is 0. *)
Lemma adx_operand_unit (pl mi : cell) :
  nonneg_cell pl -> nonneg_cell mi -> within 0 1 (adx_operand_cell pl mi).
Proof.
  intros Hp Hm.
  apply nonneg_value in Hp as (a & Va & Ha).
  apply nonneg_value in Hm as (b & Vb & Hb).
  pose proof (has_value_abs _ _ (has_value_sub _ _ _ _ Va Vb)) as Vn.
  pose proof (has_value_add _ _ _ _ Va Vb) as Vs.
  assert (Habs : Qabs (a - b) <= a + b).
  { apply Qabs_Qle_condition. split; lra. }
  pose proof (Qabs_nonneg (a - b)) as Hn.
  unfold adx_operand_cell.
  destruct Vs as (s & Es & Hs). rewrite Es.
  cbn [c_eq lift2 lit].
  destruct (feq (Fin s) (fin 0)) eqn:E; cbn [c_when].
  - apply feq_zero in E.
    apply (has_value_within 0 1 (Qabs (a - b) / 1)).
    + apply has_value_div; [discriminate | exact Vn | apply has_value_lit].
    + split.
      * apply Qle_shift_div_l; lra.
      * apply Qle_shift_div_r; lra.
  - assert (Hnz : ~ s == 0).
    { intros H. apply feq_zero in H. congruence. }
    apply (has_value_within 0 1 (Qabs (a - b) / (a + b))).
    + apply has_value_div; [lra | exact Vn |].
      exists s. split; [reflexivity | exact Hs].
    + split.
      * apply Qle_shift_div_l; lra.
      * apply Qle_shift_div_r; lra.
Qed.

Lemma ewm_mean_unit (alpha : Q) (s : series) :
  0 < alpha -> alpha <= 1 -> Forall (within 0 1) s ->
  Forall (within 0 1) (ewm_mean alpha s).
Proof.
  intros H0 H1 Hs.
  assert (Hsat : Forall (null_or (fun q => 0 <= q <= 1)) (ewm_mean alpha s)).
  { apply ewm_mean_sat; auto using convex_unit.
    revert Hs. apply Forall_impl. intros c (q & -> & Hq). right. eauto. }
  assert (Hdef : Forall finite_cell (ewm_mean alpha s)).
  { apply ewm_scan_defined; auto; [left; reflexivity|].
    revert Hs. apply Forall_impl. intros c (q & -> & _). eexists. reflexivity. }
  pose proof (Forall_both _ _ _ Hsat Hdef) as Hb.
  revert Hb. apply Forall_impl.
  intros c [[->|(q & -> & Hq)] (q' & E)]; [discriminate|].
  exists q. auto.
Qed.

(** X18. In the lazy file, with a true range that is non-negative wherever
    it is reported, plusDI and minusDI are finite and non-negative and the
    ADX is a finite number between 0 and 100, at every bar. *)
Theorem Lazy_adx_range (ta : TaLib) (df : DataFrame) (dilen adxlen : Z)
  (adx plus minus : series) :
  Forall nonneg_or_missing (truerange ta df) ->
  Lazy._internal_ProbTrend_adx ta df dilen adxlen = Ok (adx, plus, minus) ->
  Forall (within 0 100) adx /\
  Forall nonneg_cell plus /\ Forall nonneg_cell minus.
Proof.
  intros Htr H. unfold Lazy._internal_ProbTrend_adx in H.
  destruct (Lazy._internal_ProbTrend_dirmov ta df dilen)
    as [[pl mi]|e] eqn:Ed; [|discriminate].
  destruct (Lazy_dirmov_nonneg _ _ _ _ _ Htr Ed) as [Hp Hm].
  cbn [bind] in H.
  destruct (ewm_alpha adxlen) as [alpha|e] eqn:Ea; [|discriminate].
  destruct (ewm_alpha_range _ _ Ea) as [H0 H1].
  cbn [bind] in H. injection H as <- <- <-.
  split; [|split; assumption].
  rewrite adx_operand_fused.
  assert (Hop : Forall (within 0 1) (map2 adx_operand_cell pl mi)).
  { apply (Forall_map2_in nonneg_cell nonneg_cell); auto.
    intros x y. apply adx_operand_unit. }
  pose proof (ewm_mean_unit alpha _ H0 H1 Hop) as He.
  unfold lit_mul. apply Forall_forall. intros c Hc.
  apply in_map_iff in Hc as (y & <- & Hy).
  rewrite Forall_forall in He. destruct (He y Hy) as (q & -> & Hq).
  apply (has_value_within 0 100 (100 * q)).
  - apply has_value_mul; [apply has_value_lit|].
    exists q. split; reflexivity.
  - lra.
Qed.

Lemma Lazy_adx_range_witness :
  Forall (within 0 100)
    [lit 0; lit 50; lit 75; lit (175 # 2); lit (375 # 4); lit (775 # 8)] /\
  Forall nonneg_cell [lit 0; lit 0; lit 0; lit 0; lit 0; lit 0] /\
  Forall nonneg_cell
    [lit 0; lit 25; lit (75 # 2); lit (175 # 4); lit (375 # 8);
     lit (775 # 16)].
Proof.
  apply (Lazy_adx_range TaRef.talib falling 2 2).
  - change (Forall nonneg_or_missing
              [Some NaN; lit 2; lit 2; lit 2; lit 2; lit 2]).
    repeat (apply Forall_cons;
            [first [ right; left; reflexivity
                   | right; right; exists 2;
                     split; [reflexivity | discriminate] ]|]).
    apply Forall_nil.
  - vm_compute. reflexivity.
Defined.

(** ** The probabilities of the ADX sub-indicator *)

Lemma probability_fixed (z : Z) (a t : Q) :
  ~ t == 0 -> a / t * 100 == inject_Z z ->
  c_probability (Some (Fin a)) (Some (Fin t)) = lit (inject_Z z).
Proof.
  intros Ht H. rewrite c_probability_positive_total by exact Ht.
  unfold lit. f_equal. apply fin_eq.
  match goal with
  | |- context [round_half_even ?x] =>
      destruct (round_half_even_bounds (z * 100) (z * 100) x) as [Hlo Hhi]
  end.
  - rewrite !Qred_correct, inject_Z_mult, H. apply Qle_refl.
  - rewrite !Qred_correct, inject_Z_mult, H. apply Qle_refl.
  - match goal with
    | |- inject_Z ?r / 100 == _ => assert (E : r = (z * 100)%Z) by lia
    end.
    rewrite E, inject_Z_mult. change (inject_Z 100) with 100. field.
Qed.

Lemma one_sided_probabilities (r : cell) :
  count_cell r ->
  (c_probability r (c_add r (lit 0)) = lit 0 \/
   c_probability r (c_add r (lit 0)) = lit 100) /\
  c_probability (lit 0) (c_add r (lit 0)) = lit 0 /\
  (c_probability r (c_add (lit 0) r) = lit 0 \/
   c_probability r (c_add (lit 0) r) = lit 100) /\
  c_probability (lit 0) (c_add (lit 0) r) = lit 0.
Proof.
  intros [->|(n & Hn & ->)].
  - cbn [c_add lift2 lit]. rewrite !c_probability_null_total. auto.
  - unfold lit, fin. cbn [c_add lift2 fadd]. unfold fin.
    destruct (Z.eq_dec n 0) as [->|Hnz].
    + rewrite !c_probability_zero_total by reflexivity. auto.
    + assert (Hq : 0 < inject_Z n).
      { change 0 with (inject_Z 0). rewrite <- Zlt_Qlt. lia. }
      assert (T1 : ~ Qred (Qred (inject_Z n) + Qred 0) == 0).
      { rewrite !Qred_correct. lra. }
      assert (T2 : ~ Qred (Qred 0 + Qred (inject_Z n)) == 0).
      { rewrite !Qred_correct. lra. }
      repeat split.
      * right. apply (probability_fixed 100); [exact T1|].
        rewrite !Qred_correct. change (inject_Z 100) with 100. field. lra.
      * apply (probability_fixed 0); [exact T1|].
        rewrite !Qred_correct. change (inject_Z 0) with 0. field. lra.
      * right. apply (probability_fixed 100); [exact T2|].
        rewrite !Qred_correct. change (inject_Z 100) with 100. field. lra.
      * apply (probability_fixed 0); [exact T2|].
        rewrite !Qred_correct. change (inject_Z 0) with 0. field. lra.
Qed.

(** One bar of the ADX sub-indicator: [pl] and [mi] are plusDI and minusDI,
    [r] the lagged count of bars with ADX > 25. *)
Lemma adx_probability_cells (pl mi r : cell) :
  count_cell r ->
  let u := c_when (c_gt pl mi) r (lit 0) in
  let d := c_when (c_lt pl mi) r (lit 0) in
  all_or_nothing (c_probability u (c_add u d))
                 (c_probability d (c_add u d)).
Proof.
  intros Hr.
  destruct (one_sided_probabilities r Hr) as (U1 & D1 & U2 & D2).
  assert (Hzero : all_or_nothing
                    (c_probability (lit 0) (c_add (lit 0) (lit 0)))
                    (c_probability (lit 0) (c_add (lit 0) (lit 0)))).
  { left. split; reflexivity. }
  destruct pl as [f|], mi as [g|]; cbn [c_gt c_lt lift2 c_when];
    try exact Hzero.
  unfold fgt, flt. destruct (fcompare f g); cbn [c_when].
  - exact Hzero.
  - rewrite D2. destruct U2 as [->| ->]; [left | right; right]; auto.
  - rewrite D1. destruct U1 as [->| ->]; [left | right; left]; auto.
Qed.

Lemma probabilities_at (up down : series) (i : nat) (a b : cell) :
  nth_error (map2 c_probability up (map2 c_add up down)) i = Some a ->
  nth_error (map2 c_probability down (map2 c_add up down)) i = Some b ->
  exists u d, nth_error up i = Some u /\ nth_error down i = Some d /\
              a = c_probability u (c_add u d) /\
              b = c_probability d (c_add u d).
Proof.
  intros Ha Hb.
  apply nth_error_map2 in Ha as (u & t & Hu & Ht & ->).
  apply nth_error_map2 in Hb as (d & t' & Hd & Ht' & ->).
  assert (t' = t) by congruence. subst t'.
  apply nth_error_map2 in Ht as (u' & d' & Hu' & Hd' & ->).
  assert (u' = u) by congruence. assert (d' = d) by congruence. subst.
  eauto 6.
Qed.

Lemma adx_trends_all_or_nothing (plus minus rolled : series) (i : nat)
  (a b : cell) :
  Forall count_cell rolled ->
  let up := map3 (fun pl mi r => c_when (c_gt pl mi) r (lit 0))
                 plus minus rolled in
  let down := map3 (fun pl mi r => c_when (c_lt pl mi) r (lit 0))
                   plus minus rolled in
  nth_error (map2 c_probability up (map2 c_add up down)) i = Some a ->
  nth_error (map2 c_probability down (map2 c_add up down)) i = Some b ->
  all_or_nothing a b.
Proof.
  intros Hr up down Ha Hb.
  destruct (probabilities_at _ _ _ _ _ Ha Hb) as (u & d & Hu & Hd & -> & ->).
  apply nth_error_map3 in Hu as (pl & mi & r & Hpl & Hmi & Hro & ->).
  apply nth_error_map3 in Hd as (pl' & mi' & r' & Hpl' & Hmi' & Hro' & ->).
  assert (pl' = pl) by congruence. assert (mi' = mi) by congruence.
  assert (r' = r) by congruence. subst.
  apply adx_probability_cells.
  exact (Forall_nth_error_elim _ _ _ _ Hr Hro).
Qed.

(** X19. The ADX sub-indicator is all-or-nothing: at every bar and in both
    files the pair (probabilityUpwardADX, probabilityDownwardADX) is
    (0, 0), (100, 0) or (0, 100). *)
Theorem adx_probabilities_all_or_nothing (ta : TaLib) (df : DataFrame)
  (p : Params) (pU pD : series) (i : nat) (a b : cell) :
  Eager.probabilities ta df p ADX = Ok (pU, pD) \/
  Lazy.probabilities ta df p ADX = Ok (pU, pD) ->
  nth_error pU i = Some a -> nth_error pD i = Some b ->
  all_or_nothing a b.
Proof.
  intros [H|H] Ha Hb.
  - unfold Eager.probabilities, Eager.trends in H. inv_bind.
    repeat match goal with
           | E : Ok _ = Ok _ |- _ => injection E as <- <-
           end.
    rewrite !Eager_probability_cells in *.
    eapply adx_trends_all_or_nothing; [|exact Ha | exact Hb].
    eauto using lagged_count_counts.
  - unfold Lazy.probabilities, Lazy.trends in H. inv_bind.
    repeat match goal with
           | E : Ok _ = Ok _ |- _ => injection E as <- <-
           end.
    rewrite !Lazy_probability_cells in *.
    eapply adx_trends_all_or_nothing; [|exact Ha | exact Hb].
    eauto using lagged_count_counts.
Qed.

Lemma adx_probabilities_all_or_nothing_witness :
  all_or_nothing (lit 0) (lit 100).
Proof.
  apply (adx_probabilities_all_or_nothing TaRef.talib falling
           (short_params 1 1 1 1 1)
           [lit 0; lit 0; lit 0; lit 0; lit 0; lit 0]
           [lit 0; lit 0; lit 100; lit 100; lit 100; lit 100] 3).
  - right. vm_compute. reflexivity.
  - reflexivity.
  - reflexivity.
Defined.

(** ** Fractional weights in the eager file *)

Lemma py_int_fraction (w : Q) : -1 < w /\ w < 1 -> py_int w = 0%Z.
Proof.
  intros [Hlo Hhi]. unfold py_int.
  apply Z.quot_small_iff; [discriminate|].
  unfold Qlt in Hlo, Hhi. cbn in Hlo, Hhi. lia.
Qed.

Lemma weighted_average_nan (w1 w2 w3 w4 w5 total : Q)
  (x1 x2 x3 x4 x5 : cell) :
  w1 == 0 -> w2 == 0 -> w3 == 0 -> w4 == 0 -> w5 == 0 -> total == 0 ->
  percentage x1 -> percentage x2 -> percentage x3 -> percentage x4 ->
  percentage x5 ->
  weighted_average_cell w1 w2 w3 w4 w5 total x1 x2 x3 x4 x5 = Some NaN.
Proof.
  intros Z1 Z2 Z3 Z4 Z5 Ht P1 P2 P3 P4 P5.
  apply percentage_value in P1 as (q1 & V1 & _).
  apply percentage_value in P2 as (q2 & V2 & _).
  apply percentage_value in P3 as (q3 & V3 & _).
  apply percentage_value in P4 as (q4 & V4 & _).
  apply percentage_value in P5 as (q5 & V5 & _).
  destruct (weighted_sum_value w1 w2 w3 w4 w5 q1 q2 q3 q4 q5 _ _ _ _ _
              V1 V2 V3 V4 V5) as (n & E & Hn).
  unfold weighted_average_cell. rewrite E.
  unfold lit, fin. cbn [c_div lift2 fdiv].
  rewrite Qeq_bool_true by (rewrite Qred_correct; exact Ht).
  assert (En : (n ?= 0) = Eq).
  { apply Qeq_alt. rewrite Hn, Z1, Z2, Z3, Z4, Z5. ring. }
  rewrite En. reflexivity.
Qed.

(** X20. In the eager file, weights that all lie strictly between -1 and 1
    (such as weights that sum to 1) are truncated to 0 by int(): every entry
    of the combined oscillator is then NaN. *)
Theorem Eager_fractional_weights (ta : TaLib) (df : DataFrame) (p : Params)
  (osc : series) :
  fractional_weights p ->
  Eager.combinedOscillatorValue ta df p = Ok osc ->
  Forall (fun c => c = Some NaN) osc.
Proof.
  intros (W1 & W2 & W3 & W4 & W5) H.
  apply Eager_oscillator_form in H
    as (pU1 & pD1 & pU2 & pD2 & pU3 & pD3 & pU4 & pD4 & pU5 & pD5
        & E1 & E2 & E3 & E4 & E5 & ->).
  apply Eager_probabilities_percentages in E1 as [U1 D1].
  apply Eager_probabilities_percentages in E2 as [U2 D2].
  apply Eager_probabilities_percentages in E3 as [U3 D3].
  apply Eager_probabilities_percentages in E4 as [U4 D4].
  apply Eager_probabilities_percentages in E5 as [U5 D5].
  unfold eager_total_weight, eager_weight.
  rewrite !py_int_fraction by assumption.
  apply Forall_of_nth_error. intros i x Hx.
  apply nth_error_map2 in Hx as (u & d & Hu & Hd & ->).
  apply weighted_average_nth in Hu
    as (a1 & a2 & a3 & a4 & a5 & A1 & A2 & A3 & A4 & A5 & ->).
  apply weighted_average_nth in Hd
    as (b1 & b2 & b3 & b4 & b5 & B1 & B2 & B3 & B4 & B5 & ->).
  rewrite !weighted_average_nan; try reflexivity.
  - exact (Forall_nth_error_elim _ _ _ _ D1 B1).
  - exact (Forall_nth_error_elim _ _ _ _ D2 B2).
  - exact (Forall_nth_error_elim _ _ _ _ D3 B3).
  - exact (Forall_nth_error_elim _ _ _ _ D4 B4).
  - exact (Forall_nth_error_elim _ _ _ _ D5 B5).
  - exact (Forall_nth_error_elim _ _ _ _ U1 A1).
  - exact (Forall_nth_error_elim _ _ _ _ U2 A2).
  - exact (Forall_nth_error_elim _ _ _ _ U3 A3).
  - exact (Forall_nth_error_elim _ _ _ _ U4 A4).
  - exact (Forall_nth_error_elim _ _ _ _ U5 A5).
Qed.

Lemma Eager_fractional_weights_witness :
  Forall (fun c => c = Some NaN)
    [Some NaN; Some NaN; Some NaN; Some NaN; Some NaN; Some NaN].
Proof.
  apply (Eager_fractional_weights TaRef.talib falling
           (short_params (1 # 2) (1 # 5) (3 # 20) (1 # 10) (1 # 20))).
  - repeat split.
  - vm_compute. reflexivity.
Defined.

(** ** The sub-indicators on which the two files never differ *)

Lemma probabilities_of_equal_trends (ta : TaLib) (df : DataFrame)
  (p : Params) (k : indicator) :
  Eager.trends ta df p k = Lazy.trends ta df p k ->
  Eager.probabilities ta df p k = Lazy.probabilities ta df p k.
Proof.
  unfold Eager.probabilities, Lazy.probabilities. intros ->.
  destruct (Lazy.trends ta df p k) as [[up down]|e]; [|reflexivity].
  cbn [bind]. rewrite !Eager_probability_cells, !Lazy_probability_cells.
  reflexivity.
Qed.

(** X21. On the RSI, CCI and VWMA sub-indicators the two files compute the
    same probabilities for every input: [replace(0, None)] and
    [when(x == 0).then(None).otherwise(x)] guard the same divisions. *)
Theorem sub_indicators_agree (ta : TaLib) (df : DataFrame) (p : Params) :
  Eager.probabilities ta df p RSI = Lazy.probabilities ta df p RSI /\
  Eager.probabilities ta df p CCI = Lazy.probabilities ta df p CCI /\
  Eager.probabilities ta df p VWMA = Lazy.probabilities ta df p VWMA.
Proof.
  repeat split; apply probabilities_of_equal_trends;
    unfold Eager.trends, Lazy.trends;
    rewrite ?safe_replace_zero_null; reflexivity.
Qed.
